(** * Directory Service microblock intake: a shallow embedding

    The definitions below follow
    [src/libDirectoryService/MicroBlockProcessing.cpp] function by function:
    - [VerifyMicroBlockCoSignature]
    - [ProcessStateDelta]
    - [ProcessMicroblockSubmissionFromShardCore]
    - [CommitMBSubmissionMsgBuffer]
    - [ProcessMicroblockSubmissionFromShard]
    - [ProcessMicroblockSubmission]
    - [ProcessMissingMicroblockSubmission]

    and, from [src/libUtils/MemoryStats.cpp],
    - [parseLine]
    - [GetProcessPhysicalMemoryStats], [GetProcessVirtualMemoryStats]
    - the figures of [DisplayVirtualMemoryStats] and
      [DisplayPhysicalMemoryStats].

    Members of [DirectoryService] and of the mediator become fields of one
    state record that every operation threads through.  Collaborators that
    live in other translation units (crypto, block store, account store,
    coinbase ledger, wire codec, clock) are gathered in the record
    [Externals]; their visible effects are kept in ledgers inside the state.
    Every operation is embedded as a call that runs from start to end with
    no other thread in between.  That is how the repair path runs, which
    holds [m_mutexMicroBlocks] over its whole loop;
    [ProcessMicroblockSubmissionFromShardCore] takes that mutex twice and
    leaves it free in between, so its two critical sections are also given
    one by one ([CoreFirstSection], [CoreCommit]), with the call that other
    threads overtake between them ([CoreOvertaken]).
    The DM_TEST_* fault-injection blocks are compiled out. *)

From Stdlib.Strings Require Import Byte String.
From stdpp Require Import sorting numbers gmap list.

Local Open Scope N_scope.

(** ** Data model *)

Abbreviation PubKey := N (only parsing).
Abbreviation Peer := N (only parsing).
Abbreviation Signature := N (only parsing).
Abbreviation BlockHash := N (only parsing).
Abbreviation StateHash := N (only parsing).
Abbreviation CommitteeHash := N (only parsing).
Abbreviation bytes := (list byte) (only parsing).

(** A fixed-width hash is read as a number; the default-constructed hash
    ([StateHash()], all bytes zero) is [0]. *)
Definition ZeroHash : N := 0.

(** [unsigned int] and [uint64_t] arithmetic wraps. *)
Definition wrap32 (n : N) : N := n mod 2 ^ 32.
Definition wrap64 (n : N) : N := n mod 2 ^ 64.

(** Number of elements of a container, as the [size()] member returns it. *)
Definition vsize {A} (l : list A) : N := N.of_nat (length l).

(** Modelled from the spec: [MicroBlockHeader] is declared in libData, which
    is not part of the source tree at hand; the fields are the ones section 3
    of the specification lists, named after the getters the code calls.
    [GetMyHash] is the self-hash over the header. *)
Record MicroBlockHeader := {
  GetVersion : N;
  GetDSBlockNum : N;
  GetEpochNum : N;
  GetShardId : N;
  GetMinerPubKey : PubKey;
  GetCommitteeHash : CommitteeHash;
  GetStateDeltaHash : StateHash;
  GetMyHash : BlockHash
}.

Record MicroBlock := {
  GetHeader : MicroBlockHeader;
  GetB1 : list bool;
  GetB2 : list bool;
  GetCS1 : Signature;
  GetCS2 : Signature;
  GetBlockHash : BlockHash;
  GetTimestamp : N
}.

(** A shard is a vector of (public key, peer, reputation); the DS committee
    is a deque of (public key, peer).  Order matters: it lines up with the
    bitmap positions. *)
Abbreviation ShardNode := (N * N * N)%type (only parsing).
Abbreviation Shard := (list (N * N * N)) (only parsing).
Abbreviation DequeOfNode := (list (N * N)) (only parsing).

Definition SHARD_NODE_PUBKEY (kv : ShardNode) : PubKey := kv.1.1.

Record MBSubmissionBufferEntry := {
  m_microBlock : MicroBlock;
  m_stateDelta : bytes
}.

(** What a successful [SaveCoinbase] call leaves in the coinbase ledger. *)
Record CoinbaseRecord := {
  cb_b1 : list bool;
  cb_b2 : list bool;
  cb_shardId : N;
  cb_epochNum : N
}.

(** What a successful [PutMicroBlock] call leaves in the block store. *)
Record StoredMicroBlock := {
  sb_blockHash : BlockHash;
  sb_epochNum : N;
  sb_shardId : N;
  sb_body : bytes
}.

Inductive Action := PROCESS_MICROBLOCKSUBMISSION.

(** ** The state

    The members of [DirectoryService] and of the mediator that the file
    reads or writes.  [m_microBlocks] is a [std::map] from epoch to
    [std::set<MicroBlock>]; a bucket is kept as the list of its elements (see
    [set_emplace] for the key of the set).  The last six fields stand for the
    collaborators: what has been written to the coinbase ledger and to the
    block store, the deltas applied to the temporary account store, and how
    often each notification was raised. *)
Record DirectoryService := {
  m_shards : list Shard;
  m_DSCommittee : DequeOfNode;
  m_publicKeyToshardIdMap : gmap N N;
  m_currentEpochNum : N;
  m_myshardId : N;
  m_state : N;
  m_microBlocks : gmap N (list MicroBlock);
  m_missingMicroBlocks : gmap N (list BlockHash);
  m_microBlockStateDeltas : gmap N (gmap N bytes);
  m_stateDeltaFromShards : bytes;
  m_stopRecvNewMBSubmission : bool;
  m_MBSubmissionBuffer : gmap N (list MBSubmissionBufferEntry);
  (* effects on the collaborators *)
  coinbaseLedger : list CoinbaseRecord;
  blockStorage : list StoredMicroBlock;
  accountStoreTemp : list bytes;
  scheduleDSMicroBlockConsensusNotified : nat;
  finalBlockConsensusSpawned : nat;
  missingMicroBlockNotified : nat
}.

Definition set_microBlocks (st : DirectoryService) v : DirectoryService :=
  {| m_shards := m_shards st; m_DSCommittee := m_DSCommittee st;
     m_publicKeyToshardIdMap := m_publicKeyToshardIdMap st;
     m_currentEpochNum := m_currentEpochNum st; m_myshardId := m_myshardId st;
     m_state := m_state st; m_microBlocks := v;
     m_missingMicroBlocks := m_missingMicroBlocks st;
     m_microBlockStateDeltas := m_microBlockStateDeltas st;
     m_stateDeltaFromShards := m_stateDeltaFromShards st;
     m_stopRecvNewMBSubmission := m_stopRecvNewMBSubmission st;
     m_MBSubmissionBuffer := m_MBSubmissionBuffer st;
     coinbaseLedger := coinbaseLedger st; blockStorage := blockStorage st;
     accountStoreTemp := accountStoreTemp st;
     scheduleDSMicroBlockConsensusNotified :=
       scheduleDSMicroBlockConsensusNotified st;
     finalBlockConsensusSpawned := finalBlockConsensusSpawned st;
     missingMicroBlockNotified := missingMicroBlockNotified st |}.

Definition set_missingMicroBlocks (st : DirectoryService) v : DirectoryService :=
  {| m_shards := m_shards st; m_DSCommittee := m_DSCommittee st;
     m_publicKeyToshardIdMap := m_publicKeyToshardIdMap st;
     m_currentEpochNum := m_currentEpochNum st; m_myshardId := m_myshardId st;
     m_state := m_state st; m_microBlocks := m_microBlocks st;
     m_missingMicroBlocks := v;
     m_microBlockStateDeltas := m_microBlockStateDeltas st;
     m_stateDeltaFromShards := m_stateDeltaFromShards st;
     m_stopRecvNewMBSubmission := m_stopRecvNewMBSubmission st;
     m_MBSubmissionBuffer := m_MBSubmissionBuffer st;
     coinbaseLedger := coinbaseLedger st; blockStorage := blockStorage st;
     accountStoreTemp := accountStoreTemp st;
     scheduleDSMicroBlockConsensusNotified :=
       scheduleDSMicroBlockConsensusNotified st;
     finalBlockConsensusSpawned := finalBlockConsensusSpawned st;
     missingMicroBlockNotified := missingMicroBlockNotified st |}.

Definition set_microBlockStateDeltas (st : DirectoryService) v : DirectoryService :=
  {| m_shards := m_shards st; m_DSCommittee := m_DSCommittee st;
     m_publicKeyToshardIdMap := m_publicKeyToshardIdMap st;
     m_currentEpochNum := m_currentEpochNum st; m_myshardId := m_myshardId st;
     m_state := m_state st; m_microBlocks := m_microBlocks st;
     m_missingMicroBlocks := m_missingMicroBlocks st;
     m_microBlockStateDeltas := v;
     m_stateDeltaFromShards := m_stateDeltaFromShards st;
     m_stopRecvNewMBSubmission := m_stopRecvNewMBSubmission st;
     m_MBSubmissionBuffer := m_MBSubmissionBuffer st;
     coinbaseLedger := coinbaseLedger st; blockStorage := blockStorage st;
     accountStoreTemp := accountStoreTemp st;
     scheduleDSMicroBlockConsensusNotified :=
       scheduleDSMicroBlockConsensusNotified st;
     finalBlockConsensusSpawned := finalBlockConsensusSpawned st;
     missingMicroBlockNotified := missingMicroBlockNotified st |}.

Definition set_stateDeltaFromShards (st : DirectoryService) v : DirectoryService :=
  {| m_shards := m_shards st; m_DSCommittee := m_DSCommittee st;
     m_publicKeyToshardIdMap := m_publicKeyToshardIdMap st;
     m_currentEpochNum := m_currentEpochNum st; m_myshardId := m_myshardId st;
     m_state := m_state st; m_microBlocks := m_microBlocks st;
     m_missingMicroBlocks := m_missingMicroBlocks st;
     m_microBlockStateDeltas := m_microBlockStateDeltas st;
     m_stateDeltaFromShards := v;
     m_stopRecvNewMBSubmission := m_stopRecvNewMBSubmission st;
     m_MBSubmissionBuffer := m_MBSubmissionBuffer st;
     coinbaseLedger := coinbaseLedger st; blockStorage := blockStorage st;
     accountStoreTemp := accountStoreTemp st;
     scheduleDSMicroBlockConsensusNotified :=
       scheduleDSMicroBlockConsensusNotified st;
     finalBlockConsensusSpawned := finalBlockConsensusSpawned st;
     missingMicroBlockNotified := missingMicroBlockNotified st |}.

Definition set_MBSubmissionBuffer (st : DirectoryService) v : DirectoryService :=
  {| m_shards := m_shards st; m_DSCommittee := m_DSCommittee st;
     m_publicKeyToshardIdMap := m_publicKeyToshardIdMap st;
     m_currentEpochNum := m_currentEpochNum st; m_myshardId := m_myshardId st;
     m_state := m_state st; m_microBlocks := m_microBlocks st;
     m_missingMicroBlocks := m_missingMicroBlocks st;
     m_microBlockStateDeltas := m_microBlockStateDeltas st;
     m_stateDeltaFromShards := m_stateDeltaFromShards st;
     m_stopRecvNewMBSubmission := m_stopRecvNewMBSubmission st;
     m_MBSubmissionBuffer := v;
     coinbaseLedger := coinbaseLedger st; blockStorage := blockStorage st;
     accountStoreTemp := accountStoreTemp st;
     scheduleDSMicroBlockConsensusNotified :=
       scheduleDSMicroBlockConsensusNotified st;
     finalBlockConsensusSpawned := finalBlockConsensusSpawned st;
     missingMicroBlockNotified := missingMicroBlockNotified st |}.

Definition set_coinbaseLedger (st : DirectoryService) v : DirectoryService :=
  {| m_shards := m_shards st; m_DSCommittee := m_DSCommittee st;
     m_publicKeyToshardIdMap := m_publicKeyToshardIdMap st;
     m_currentEpochNum := m_currentEpochNum st; m_myshardId := m_myshardId st;
     m_state := m_state st; m_microBlocks := m_microBlocks st;
     m_missingMicroBlocks := m_missingMicroBlocks st;
     m_microBlockStateDeltas := m_microBlockStateDeltas st;
     m_stateDeltaFromShards := m_stateDeltaFromShards st;
     m_stopRecvNewMBSubmission := m_stopRecvNewMBSubmission st;
     m_MBSubmissionBuffer := m_MBSubmissionBuffer st;
     coinbaseLedger := v; blockStorage := blockStorage st;
     accountStoreTemp := accountStoreTemp st;
     scheduleDSMicroBlockConsensusNotified :=
       scheduleDSMicroBlockConsensusNotified st;
     finalBlockConsensusSpawned := finalBlockConsensusSpawned st;
     missingMicroBlockNotified := missingMicroBlockNotified st |}.

Definition set_blockStorage (st : DirectoryService) v : DirectoryService :=
  {| m_shards := m_shards st; m_DSCommittee := m_DSCommittee st;
     m_publicKeyToshardIdMap := m_publicKeyToshardIdMap st;
     m_currentEpochNum := m_currentEpochNum st; m_myshardId := m_myshardId st;
     m_state := m_state st; m_microBlocks := m_microBlocks st;
     m_missingMicroBlocks := m_missingMicroBlocks st;
     m_microBlockStateDeltas := m_microBlockStateDeltas st;
     m_stateDeltaFromShards := m_stateDeltaFromShards st;
     m_stopRecvNewMBSubmission := m_stopRecvNewMBSubmission st;
     m_MBSubmissionBuffer := m_MBSubmissionBuffer st;
     coinbaseLedger := coinbaseLedger st; blockStorage := v;
     accountStoreTemp := accountStoreTemp st;
     scheduleDSMicroBlockConsensusNotified :=
       scheduleDSMicroBlockConsensusNotified st;
     finalBlockConsensusSpawned := finalBlockConsensusSpawned st;
     missingMicroBlockNotified := missingMicroBlockNotified st |}.

Definition set_accountStoreTemp (st : DirectoryService) v : DirectoryService :=
  {| m_shards := m_shards st; m_DSCommittee := m_DSCommittee st;
     m_publicKeyToshardIdMap := m_publicKeyToshardIdMap st;
     m_currentEpochNum := m_currentEpochNum st; m_myshardId := m_myshardId st;
     m_state := m_state st; m_microBlocks := m_microBlocks st;
     m_missingMicroBlocks := m_missingMicroBlocks st;
     m_microBlockStateDeltas := m_microBlockStateDeltas st;
     m_stateDeltaFromShards := m_stateDeltaFromShards st;
     m_stopRecvNewMBSubmission := m_stopRecvNewMBSubmission st;
     m_MBSubmissionBuffer := m_MBSubmissionBuffer st;
     coinbaseLedger := coinbaseLedger st; blockStorage := blockStorage st;
     accountStoreTemp := v;
     scheduleDSMicroBlockConsensusNotified :=
       scheduleDSMicroBlockConsensusNotified st;
     finalBlockConsensusSpawned := finalBlockConsensusSpawned st;
     missingMicroBlockNotified := missingMicroBlockNotified st |}.

(** The three statements of the completion branch of
    [ProcessMicroblockSubmissionFromShardCore]: set the flag, notify the
    waiter, spawn [RunConsensusOnFinalBlock]. *)
Definition signal_all_received (st : DirectoryService) : DirectoryService :=
  {| m_shards := m_shards st; m_DSCommittee := m_DSCommittee st;
     m_publicKeyToshardIdMap := m_publicKeyToshardIdMap st;
     m_currentEpochNum := m_currentEpochNum st; m_myshardId := m_myshardId st;
     m_state := m_state st; m_microBlocks := m_microBlocks st;
     m_missingMicroBlocks := m_missingMicroBlocks st;
     m_microBlockStateDeltas := m_microBlockStateDeltas st;
     m_stateDeltaFromShards := m_stateDeltaFromShards st;
     m_stopRecvNewMBSubmission := true;
     m_MBSubmissionBuffer := m_MBSubmissionBuffer st;
     coinbaseLedger := coinbaseLedger st; blockStorage := blockStorage st;
     accountStoreTemp := accountStoreTemp st;
     scheduleDSMicroBlockConsensusNotified :=
       S (scheduleDSMicroBlockConsensusNotified st);
     finalBlockConsensusSpawned := S (finalBlockConsensusSpawned st);
     missingMicroBlockNotified := missingMicroBlockNotified st |}.

(** [cv_MissingMicroBlock.notify_all()]. *)
Definition notify_MissingMicroBlock (st : DirectoryService) : DirectoryService :=
  {| m_shards := m_shards st; m_DSCommittee := m_DSCommittee st;
     m_publicKeyToshardIdMap := m_publicKeyToshardIdMap st;
     m_currentEpochNum := m_currentEpochNum st; m_myshardId := m_myshardId st;
     m_state := m_state st; m_microBlocks := m_microBlocks st;
     m_missingMicroBlocks := m_missingMicroBlocks st;
     m_microBlockStateDeltas := m_microBlockStateDeltas st;
     m_stateDeltaFromShards := m_stateDeltaFromShards st;
     m_stopRecvNewMBSubmission := m_stopRecvNewMBSubmission st;
     m_MBSubmissionBuffer := m_MBSubmissionBuffer st;
     coinbaseLedger := coinbaseLedger st; blockStorage := blockStorage st;
     accountStoreTemp := accountStoreTemp st;
     scheduleDSMicroBlockConsensusNotified :=
       scheduleDSMicroBlockConsensusNotified st;
     finalBlockConsensusSpawned := finalBlockConsensusSpawned st;
     missingMicroBlockNotified := S (missingMicroBlockNotified st) |}.

(** ** Container operations *)

(** [m[k]] on a [std::map]: the bucket is created empty when it is absent. *)
Definition touch {V} (dflt : V) (k : N) (m : gmap N V) : gmap N V :=
  match m !! k with
  | Some _ => m
  | None => <[k := dflt]> m
  end.

(** Reading [m[k]] after the touch. *)
Definition at_key {V} (dflt : V) (k : N) (m : gmap N V) : V :=
  default dflt (m !! k).

(** The microblocks accepted for an epoch. *)
Definition microBlocksAt (st : DirectoryService) (e : N) : list MicroBlock :=
  at_key [] e (m_microBlocks st).

Definition missingAt (st : DirectoryService) (e : N) : list BlockHash :=
  at_key [] e (m_missingMicroBlocks st).

(** Modelled from the spec: [MicroBlock::operator<], the ordering the
    [std::set] of a bucket uses, is declared in libData outside the source
    tree; section 3 of the specification says the set is keyed by
    [blockHash].  So [emplace] inserts nothing when an element with the same
    block hash is present. *)
Definition set_emplace (mb : MicroBlock) (s : list MicroBlock) : list MicroBlock :=
  if existsb (λ x, GetBlockHash x =? GetBlockHash mb) s then s else s ++ [mb].

(** [emplace] on the inner map of [m_microBlockStateDeltas]: an existing
    entry is kept. *)
Definition map_emplace (k : N) (v : bytes) (m : gmap N bytes) : gmap N bytes :=
  match m !! k with
  | Some _ => m
  | None => <[k := v]> m
  end.

(** What a call returns: a boolean, or [std::out_of_range] escaping from an
    [at()]. *)
Inductive Outcome := Returns (b : bool) | Throws.

#[global] Instance Outcome_eq_dec : EqDecision Outcome.
Proof. solve_decision. Defined.

(** ** Collaborators

    Constants and functions of other translation units, taken as parameters.
    A function with an effect is split into the question whether the call
    succeeds, asked here, and the effect itself, kept in the state.

    Modelled from the spec: the account store ([DeserializeDeltaTemp],
    [SerializeDelta], [GetSerializedDelta]) is outside the source tree;
    after section 4.2 a successful [DeserializeDeltaTemp] puts the delta into
    the temporary overlay ([accountStoreTemp]) and [GetSerializedDelta]
    returns the snapshot of everything applied so far.  [CheckMicroBlocks] is
    the gap auditor of section 4.5; the source calls it with an out-parameter
    for a message, and here it is taken to give its answer and leave the
    state of this file as it is.  [VerifyTimestamp] compares with the local
    clock, which is not modelled: the field is the answer it gives. *)

Record Externals := {
  (* configuration constants, common/Constants.h *)
  MICROBLOCK_VERSION : N;
  LOOKUP_NODE_MODE : bool;
  NUM_FINAL_BLOCK_PER_POW : N;
  EXTRA_TX_DISTRIBUTE_TIME_IN_MS : N;
  CONSENSUS_OBJECT_TIMEOUT : N;
  MICROBLOCK_TIMEOUT : N;
  (* mediator *)
  CheckWhetherBlockIsLatest : N → N → bool;
  GetIsVacuousEpoch : N → bool;
  (* clock *)
  VerifyTimestamp : N → N → bool;
  (* wire codec *)
  GetShardHash : Shard → option CommitteeHash;
  SerializeHeader : MicroBlockHeader → option bytes;
  SerializeSignature : Signature → bytes;
  SetBitVector : list bool → bytes;
  SerializeMicroBlock : MicroBlock → bytes;
  charArrToHexStr : StateHash → bool;
  (* crypto *)
  AggregatePubKeys : list PubKey → option PubKey;
  MultiSigVerify : bytes → Signature → PubKey → bool;
  sha256 : bytes → StateHash;
  (* account store: does the call succeed, given the deltas applied so far *)
  DeserializeDeltaTemp : list bytes → bytes → bool;
  SerializeDelta : list bytes → bool;
  GetSerializedDelta : list bytes → bytes;
  (* coinbase ledger and block store: does the call succeed *)
  SaveCoinbaseOk : list CoinbaseRecord → CoinbaseRecord → bool;
  PutMicroBlockOk : list StoredMicroBlock → StoredMicroBlock → bool;
  (* protocol state machine and gap auditor of DirectoryService *)
  CheckState : N → Action → bool;
  CheckMicroBlocks : DirectoryService → bool
}.

(** Modelled from the spec: [ConsensusCommon::NumForConsensus] is defined in
    libConsensus, outside the source tree; section 4.1 gives
    quorum(n) = ceil(2n/3) + 1. *)
Definition NumForConsensus (n : N) : N := (2 * n + 2) / 3 + 1.

Section Operations.

Context (E : Externals).

(** ** VerifyMicroBlockCoSignature *)

(** The two range-for loops over the committee: [index] and [count] are
    [unsigned int]; [B2.at(index)] throws when out of range ([None]). *)
Fixpoint collectSigners (B2 : list bool) (committee : list PubKey)
    (index count : N) (keys : list PubKey) : option (list PubKey * N) :=
  match committee with
  | [] => Some (keys, count)
  | pk :: rest =>
      match B2 !! N.to_nat index with
      | None => None
      | Some true =>
          collectSigners B2 rest (wrap32 (index + 1)) (wrap32 (count + 1))
            (keys ++ [pk])
      | Some false =>
          collectSigners B2 rest (wrap32 (index + 1)) count keys
      end
  end.

(** Everything after the committee has been walked: the quorum test,
    the key aggregation, the message and the signature check. *)
Definition verifyAggregated (microBlock : MicroBlock)
    (keys : list PubKey) (count : N) : bool :=
  if negb (count =? NumForConsensus (vsize (GetB2 microBlock))) then false
  else
    match AggregatePubKeys E keys with
    | None => false
    | Some aggregatedKey =>
        match SerializeHeader E (GetHeader microBlock) with
        | None => false
        | Some hdr =>
            let message :=
              hdr ++ SerializeSignature E (GetCS1 microBlock)
                  ++ SetBitVector E (GetB1 microBlock) in
            MultiSigVerify E message (GetCS2 microBlock) aggregatedKey
        end
    end.

Definition VerifyMicroBlockCoSignature (st : DirectoryService)
    (microBlock : MicroBlock) (shardId : N) : option bool :=
  let B2 := GetB2 microBlock in
  if shardId =? vsize (m_shards st) then
    if negb (vsize (m_DSCommittee st) =? vsize B2) then Some false
    else
      match collectSigners B2 (m_DSCommittee st).*1 0 0 [] with
      | None => None
      | Some (keys, count) => Some (verifyAggregated microBlock keys count)
      end
  else if shardId <? vsize (m_shards st) then
    match m_shards st !! N.to_nat shardId with
    | None => None
    | Some shard =>
        if negb (vsize shard =? vsize B2) then Some false
        else
          match collectSigners B2 (SHARD_NODE_PUBKEY <$> shard) 0 0 [] with
          | None => None
          | Some (keys, count) => Some (verifyAggregated microBlock keys count)
          end
    end
  else Some false.

(** ** Collaborators with an effect *)

(** Modelled from the spec: [SaveCoinbase] is defined in another file of
    libDirectoryService; sections 4.3 and 6 say it records
    (B1, B2, shardId, epoch) into the coinbase ledger and reports success. *)
Definition SaveCoinbase (st : DirectoryService) (b1 b2 : list bool)
    (shardId epochNum : N) : DirectoryService * bool :=
  let r := {| cb_b1 := b1; cb_b2 := b2; cb_shardId := shardId;
              cb_epochNum := epochNum |} in
  if SaveCoinbaseOk E (coinbaseLedger st) r
  then (set_coinbaseLedger st (coinbaseLedger st ++ [r]), true)
  else (st, false).

(** Modelled from the spec: [BlockStorage::PutMicroBlock] belongs to
    libPersistence; section 6 says it stores the body under
    (blockHash, epoch, shardId) and reports success. *)
Definition PutMicroBlock (st : DirectoryService) (blockHash : BlockHash)
    (epochNum shardId : N) (body : bytes) : DirectoryService * bool :=
  let r := {| sb_blockHash := blockHash; sb_epochNum := epochNum;
              sb_shardId := shardId; sb_body := body |} in
  if PutMicroBlockOk E (blockStorage st) r
  then (set_blockStorage st (blockStorage st ++ [r]), true)
  else (st, false).

(** ** ProcessStateDelta *)

Definition ProcessStateDelta (st : DirectoryService) (stateDelta : bytes)
    (microBlockStateDeltaHash : StateHash) (microBlockHash : BlockHash)
    : DirectoryService * bool :=
  if LOOKUP_NODE_MODE E then (st, true)
  else if negb (charArrToHexStr E microBlockStateDeltaHash) then (st, false)
  else if microBlockStateDeltaHash =? ZeroHash then (st, true)
  else
    match stateDelta with
    | [] =>
        if negb (microBlockStateDeltaHash =? ZeroHash) then (st, false)
        else (st, true)
    | _ :: _ =>
        let stateDeltaHash := sha256 E stateDelta in
        if negb (stateDeltaHash =? microBlockStateDeltaHash) then (st, false)
        else if microBlockStateDeltaHash =? ZeroHash then (st, false)
        else if negb (DeserializeDeltaTemp E (accountStoreTemp st) stateDelta)
        then (st, false)
        else
          let st := set_accountStoreTemp st (accountStoreTemp st ++ [stateDelta]) in
          if negb (SerializeDelta E (accountStoreTemp st)) then (st, false)
          else
            let st :=
              set_stateDeltaFromShards st
                (GetSerializedDelta E (accountStoreTemp st)) in
            let cur := m_currentEpochNum st in
            let deltas := m_microBlockStateDeltas st in
            let st :=
              set_microBlockStateDeltas st
                (<[cur := map_emplace microBlockHash stateDelta
                            (at_key ∅ cur deltas)]> deltas) in
            (st, true)
    end.

(** ** Steps shared by the two acceptance paths

    Both [ProcessMicroblockSubmissionFromShardCore] and
    [ProcessMissingMicroblockSubmission] contain the same three statements,
    in a different order; they are named here once. *)

(** [SaveCoinbase] for a microblock of a normal shard; the epoch passed is
    [m_mediator.m_currentEpochNum] at both call sites (lines 313 and 650). *)
Definition coinbaseStep (st : DirectoryService) (microBlock : MicroBlock)
    : DirectoryService * bool :=
  if negb (GetShardId (GetHeader microBlock) =? vsize (m_shards st))
  then SaveCoinbase st (GetB1 microBlock) (GetB2 microBlock)
         (GetShardId (GetHeader microBlock)) (m_currentEpochNum st)
  else (st, true).

(** [Serialize] followed by [PutMicroBlock] (lines 317-321 and 666-671). *)
Definition persistStep (st : DirectoryService) (microBlock : MicroBlock)
    : DirectoryService * bool :=
  PutMicroBlock st (GetBlockHash microBlock)
    (GetEpochNum (GetHeader microBlock)) (GetShardId (GetHeader microBlock))
    (SerializeMicroBlock E microBlock).

(** [ProcessStateDelta] unless the epoch is vacuous (lines 326-333 with the
    current epoch, lines 655-664 with the epoch of the batch; the overload of
    [GetIsVacuousEpoch] without argument asks about the current epoch). *)
Definition stateDeltaStep (st : DirectoryService) (epoch : N)
    (microBlock : MicroBlock) (stateDelta : bytes)
    : DirectoryService * bool :=
  if negb (GetIsVacuousEpoch E epoch)
  then ProcessStateDelta st stateDelta
         (GetStateDeltaHash (GetHeader microBlock)) (GetBlockHash microBlock)
  else (st, true).

(** ** ProcessMicroblockSubmissionFromShardCore *)

(** Lines 220-295: the checks between the two critical sections.  They read
    the state and change nothing. *)
Definition CoreChecks (st : DirectoryService) (microBlock : MicroBlock)
    : Outcome :=
  let hdr := GetHeader microBlock in
  let shardId := GetShardId hdr in
  if negb (GetMyHash hdr =? GetBlockHash microBlock) then Returns false
  else if negb (GetVersion hdr =? MICROBLOCK_VERSION E) then Returns false
  else if negb (CheckWhetherBlockIsLatest E (wrap64 (GetDSBlockNum hdr + 1))
                  (GetEpochNum hdr))
  then Returns false
  else
    let extra_time :=
      if negb (m_currentEpochNum st mod NUM_FINAL_BLOCK_PER_POW E =? 0)
      then 0 else EXTRA_TX_DISTRIBUTE_TIME_IN_MS E in
    if negb (VerifyTimestamp E (GetTimestamp microBlock)
               (CONSENSUS_OBJECT_TIMEOUT E + MICROBLOCK_TIMEOUT E + extra_time))
    then Returns false
    else
      match m_publicKeyToshardIdMap st !! GetMinerPubKey hdr with
      | None => Returns false
      | Some minerShard =>
          if negb (minerShard =? shardId) then Returns false
          else
            match m_shards st !! N.to_nat shardId with
            | None => Throws
            | Some shard =>
                match GetShardHash E shard with
                | None => Returns false
                | Some committeeHash =>
                    if negb (committeeHash =? GetCommitteeHash hdr)
                    then Returns false
                    else
                      match VerifyMicroBlockCoSignature st microBlock shardId with
                      | None => Throws
                      | Some ok => Returns ok
                      end
                end
            end
      end.

(** Lines 301-365: the second critical section. *)
Definition CoreCommit (st : DirectoryService) (microBlock : MicroBlock)
    (stateDelta : bytes) : DirectoryService * Outcome :=
  let cur := m_currentEpochNum st in
  if m_stopRecvNewMBSubmission st then (st, Returns false)
  else
    let '(st, saved) := coinbaseStep st microBlock in
    if negb saved then (st, Returns false)
    else
      let '(st, put) := persistStep st microBlock in
      if negb put then (st, Returns false)
      else
        let '(st, applied) := stateDeltaStep st cur microBlock stateDelta in
        if negb applied then (st, Returns false)
        else
          let st :=
            set_microBlocks st
              (<[cur := set_emplace microBlock (microBlocksAt st cur)]>
                 (m_microBlocks st)) in
          if vsize (microBlocksAt st cur) =? vsize (m_shards st)
          then (signal_all_received st, Returns true)
          else (st, Returns true).

Definition ProcessMicroblockSubmissionFromShardCore (st : DirectoryService)
    (microBlock : MicroBlock) (stateDelta : bytes)
    : DirectoryService * Outcome :=
  if LOOKUP_NODE_MODE E then (st, Returns true)
  else
    let shardId := GetShardId (GetHeader microBlock) in
    let cur := m_currentEpochNum st in
    let st := set_microBlocks st (touch [] cur (m_microBlocks st)) in
    if existsb (λ mb, GetShardId (GetHeader mb) =? shardId)
         (microBlocksAt st cur)
    then (st, Returns false)
    else
      match CoreChecks st microBlock with
      | Returns true => CoreCommit st microBlock stateDelta
      | Returns false => (st, Returns false)
      | Throws => (st, Throws)
      end.

(** ** CommitMBSubmissionMsgBuffer *)

(** A [std::map] is iterated in ascending key order. *)
Definition keys_ascending {V} (m : gmap N V) : list N :=
  merge_sort N.le (map_to_list m).*1.

(** The inner range-for over the entries of one bucket; an exception leaves
    the loop. *)
Fixpoint processEntries (entries : list MBSubmissionBufferEntry)
    (st : DirectoryService) : DirectoryService * bool :=
  match entries with
  | [] => (st, true)
  | entry :: rest =>
      match ProcessMicroblockSubmissionFromShardCore st (m_microBlock entry)
              (m_stateDelta entry) with
      | (st, Returns _) => processEntries rest st
      | (st, Throws) => (st, false)
      end
  end.

(** The outer loop; [its] are the positions the iterator still has to visit.
    The boolean is [false] when an exception escaped. *)
Fixpoint commitLoop (its : list N) (st : DirectoryService)
    : DirectoryService * bool :=
  match its with
  | [] => (st, true)
  | k :: its =>
      if k <? m_currentEpochNum st then
        commitLoop its
          (set_MBSubmissionBuffer st (delete k (m_MBSubmissionBuffer st)))
      else if k =? m_currentEpochNum st then
        match processEntries (at_key [] k (m_MBSubmissionBuffer st)) st with
        | (st, true) =>
            (set_MBSubmissionBuffer st (delete k (m_MBSubmissionBuffer st)),
             true)
        | (st, false) => (st, false)
        end
      else commitLoop its st
  end.

Definition CommitMBSubmissionMsgBuffer (st : DirectoryService)
    : DirectoryService * bool :=
  commitLoop (keys_ascending (m_MBSubmissionBuffer st)) st.

(** ** ProcessMicroblockSubmissionFromShard *)

(** [m_MBSubmissionBuffer[epochNumber].emplace_back(microBlock, stateDelta)]. *)
Definition bufferSubmission (st : DirectoryService) (epochNumber : N)
    (microBlock : MicroBlock) (stateDelta : bytes) : DirectoryService :=
  let buf := m_MBSubmissionBuffer st in
  set_MBSubmissionBuffer st
    (<[epochNumber := at_key [] epochNumber buf ++
         [{| m_microBlock := microBlock; m_stateDelta := stateDelta |}]]> buf).

Definition ProcessMicroblockSubmissionFromShard (st : DirectoryService)
    (epochNumber : N) (microBlocks : list MicroBlock)
    (stateDeltas : list bytes) : DirectoryService * Outcome :=
  match microBlocks with
  | [] => (st, Returns false)
  | microBlock :: _ =>
      match stateDeltas with
      | [] => (st, Returns false)
      | stateDelta :: _ =>
          if m_currentEpochNum st <? epochNumber then
            (bufferSubmission st epochNumber microBlock stateDelta,
             Returns true)
          else if m_currentEpochNum st =? epochNumber then
            if CheckState E (m_state st) PROCESS_MICROBLOCKSUBMISSION
            then ProcessMicroblockSubmissionFromShardCore st microBlock
                   stateDelta
            else (bufferSubmission st epochNumber microBlock stateDelta,
                  Returns true)
          else (st, Returns false)
      end
  end.

(** ** ProcessMissingMicroblockSubmission *)

(** How one turn of the per-item loop ends: with [continue] or by reaching
    the end of the body, with [return false], or with an exception. *)
Inductive LoopControl := NextItem | ReturnFalse | Escapes.

#[global] Instance LoopControl_eq_dec : EqDecision LoopControl.
Proof. solve_decision. Defined.

(** Lines 572-599: the public key - shard id mapping. *)
Definition minerKeyOk (st : DirectoryService) (microBlock : MicroBlock) : bool :=
  let shardId := GetShardId (GetHeader microBlock) in
  let pubKey := GetMinerPubKey (GetHeader microBlock) in
  if shardId =? vsize (m_shards st) then
    existsb (λ ds, ds.1 =? pubKey) (m_DSCommittee st)
  else
    match m_publicKeyToshardIdMap st !! pubKey with
    | None => false
    | Some minerShard => minerShard =? shardId
    end.

(** Lines 610-683: from the missing-list lookup to the insertion. *)
Definition missingItemCommit (st : DirectoryService) (epochNumber : N)
    (microBlock : MicroBlock) (stateDelta : bytes)
    : DirectoryService * LoopControl :=
  let st :=
    set_missingMicroBlocks st (touch [] epochNumber (m_missingMicroBlocks st)) in
  if negb (existsb (λ missingMBHash, missingMBHash =? GetBlockHash microBlock)
             (missingAt st epochNumber))
  then (st, NextItem)
  else if existsb (λ myMicroBlock,
                     GetBlockHash myMicroBlock =? GetBlockHash microBlock)
            (microBlocksAt st epochNumber)
  then (st, NextItem)
  else
    let '(st, saved) := coinbaseStep st microBlock in
    if negb saved then (st, NextItem)
    else
      let '(st, applied) :=
        stateDeltaStep st epochNumber microBlock stateDelta in
      if negb applied then (st, NextItem)
      else
        let '(st, put) := persistStep st microBlock in
        if negb put then (st, ReturnFalse)
        else
          (set_microBlocks st
             (<[epochNumber :=
                  set_emplace microBlock (microBlocksAt st epochNumber)]>
                (m_microBlocks st)),
           NextItem).

(** The body of the per-item loop. *)
Definition missingItem (st : DirectoryService) (epochNumber : N)
    (microBlock : MicroBlock) (stateDelta : bytes)
    : DirectoryService * LoopControl :=
  let hdr := GetHeader microBlock in
  if negb (CheckWhetherBlockIsLatest E (wrap64 (GetDSBlockNum hdr + 1))
             (GetEpochNum hdr))
  then (st, ReturnFalse)
  else
    let shardId := GetShardId hdr in
    if negb (minerKeyOk st microBlock) then (st, NextItem)
    else if negb (shardId =? m_myshardId st) then
      match VerifyMicroBlockCoSignature st microBlock shardId with
      | None => (st, Escapes)
      | Some false => (st, NextItem)
      | Some true => missingItemCommit st epochNumber microBlock stateDelta
      end
    else missingItemCommit st epochNumber microBlock stateDelta.

Fixpoint missingLoop (st : DirectoryService) (epochNumber : N)
    (items : list (MicroBlock * bytes)) : DirectoryService * LoopControl :=
  match items with
  | [] => (st, NextItem)
  | (microBlock, stateDelta) :: rest =>
      match missingItem st epochNumber microBlock stateDelta with
      | (st, NextItem) => missingLoop st epochNumber rest
      | stop => stop
      end
  end.

Definition ProcessMissingMicroblockSubmission (st : DirectoryService)
    (epochNumber : N) (microBlocks : list MicroBlock)
    (stateDeltas : list bytes) : DirectoryService * Outcome :=
  let st := set_microBlocks st (touch [] epochNumber (m_microBlocks st)) in
  if negb (vsize microBlocks =? vsize stateDeltas) then (st, Returns false)
  else
    match missingLoop st epochNumber (zip microBlocks stateDeltas) with
    | (st, ReturnFalse) => (st, Returns false)
    | (st, Escapes) => (st, Throws)
    | (st, NextItem) =>
        if negb (CheckMicroBlocks E st) then (st, Returns false)
        else (notify_MissingMicroBlock st, Returns true)
    end.

End Operations.

(** ** The co-signature rules in the words of section 4.1 *)

(** Walk the committee in order and keep the keys whose bit is set. *)
Definition signersOf (C : list PubKey) (B2 : list bool) : list PubKey :=
  (filter (λ p, p.2 = true) (zip C B2)).*1.

Definition countTrue (B2 : list bool) : N :=
  vsize (filter (λ b, b = true) B2).

(** The committee a shard id selects: the DS committee for [|shards|], the
    shard for a smaller id, none otherwise. *)
Definition selectedCommittee (st : DirectoryService) (shardId : N)
    : option (list PubKey) :=
  if decide (shardId = vsize (m_shards st)) then Some (m_DSCommittee st).*1
  else
    match m_shards st !! N.to_nat shardId with
    | Some shard => Some (SHARD_NODE_PUBKEY <$> shard)
    | None => None
    end.

(** Size precondition, quorum rule, aggregation and verification. *)
Definition verifyAgainst (E : Externals) (C : list PubKey) (mb : MicroBlock)
    : bool :=
  bool_decide (length C = length (GetB2 mb)) &&
  bool_decide (vsize (signersOf C (GetB2 mb)) = NumForConsensus (vsize (GetB2 mb))) &&
  match AggregatePubKeys E (signersOf C (GetB2 mb)) with
  | None => false
  | Some A =>
      match SerializeHeader E (GetHeader mb) with
      | None => false
      | Some hdr =>
          MultiSigVerify E
            (hdr ++ SerializeSignature E (GetCS1 mb) ++ SetBitVector E (GetB1 mb))
            (GetCS2 mb) A
      end
  end.

(** The part of the state that no operation of this file writes. *)
Definition staticPart (st : DirectoryService) :=
  (m_shards st, m_DSCommittee st, m_publicKeyToshardIdMap st,
   m_currentEpochNum st, m_myshardId st, m_state st).



(** The record [SaveCoinbase] is asked to write for a microblock. *)
Definition coinbaseRecordOf (st : DirectoryService) (mb : MicroBlock)
    : CoinbaseRecord :=
  {| cb_b1 := GetB1 mb; cb_b2 := GetB2 mb;
     cb_shardId := GetShardId (GetHeader mb);
     cb_epochNum := m_currentEpochNum st |}.

(** The checks of the repair path that decide about an item before any
    effect takes place (section 4.5, steps 1 to 5). *)
Definition admittedByRepair (E : Externals) (st : DirectoryService)
    (epochNumber : N) (mb : MicroBlock) : Prop :=
  CheckWhetherBlockIsLatest E (wrap64 (GetDSBlockNum (GetHeader mb) + 1))
    (GetEpochNum (GetHeader mb)) = true ∧
  minerKeyOk st mb = true ∧
  (GetShardId (GetHeader mb) = m_myshardId st ∨
   VerifyMicroBlockCoSignature E st mb (GetShardId (GetHeader mb)) = Some true) ∧
  GetBlockHash mb ∈ missingAt st epochNumber ∧
  GetBlockHash mb ∉ (GetBlockHash <$> microBlocksAt st epochNumber).

(** ** Properties named by the specification *)

(** Section 3: the block hash is the header's self-hash and the version is
    the required one. *)
Definition selfConsistent (E : Externals) (mb : MicroBlock) : Prop :=
  GetBlockHash mb = GetMyHash (GetHeader mb) ∧
  GetVersion (GetHeader mb) = MICROBLOCK_VERSION E.

(** Section 3: at most one accepted microblock per (epoch, shard id). *)
Definition onePerShard (st : DirectoryService) : Prop :=
  ∀ e, NoDup ((λ mb, GetShardId (GetHeader mb)) <$> microBlocksAt st e).


(** ** A small network to run the operations on

    Two shards of four nodes, a DS committee of four, the node at epoch 10.
    The collaborators are simple stand-ins: a key aggregate is the sum of the
    keys, a co-signature is valid when it equals the aggregate key, the hash
    of a delta is its length plus 100, the coinbase ledger refuses a second
    record for the same shard and epoch, the block store refuses the block
    hash 999, and a block is the latest when its DS block number is 3 (so
    that number plus one is 4). *)
Module Scenario.

Definition E0 : Externals :=
  {| MICROBLOCK_VERSION := 1;
     LOOKUP_NODE_MODE := false;
     NUM_FINAL_BLOCK_PER_POW := 100;
     EXTRA_TX_DISTRIBUTE_TIME_IN_MS := 5000;
     CONSENSUS_OBJECT_TIMEOUT := 10;
     MICROBLOCK_TIMEOUT := 20;
     CheckWhetherBlockIsLatest := λ dsBlockNum _, dsBlockNum =? 4;
     GetIsVacuousEpoch := λ e, (e + 1) mod 100 =? 0;
     VerifyTimestamp := λ ts timeout, ts <=? 1000 + timeout;
     GetShardHash := λ shard, Some (vsize shard + 40);
     SerializeHeader := λ _, Some [];
     SerializeSignature := λ _, [];
     SetBitVector := λ _, [];
     SerializeMicroBlock := λ _, [];
     charArrToHexStr := λ _, true;
     AggregatePubKeys :=
       λ keys, match keys with [] => None | _ => Some (foldr N.add 0 keys) end;
     MultiSigVerify := λ _ sig key, sig =? key;
     sha256 := λ delta, vsize delta + 100;
     DeserializeDeltaTemp := λ _ _, true;
     SerializeDelta := λ _, true;
     GetSerializedDelta := λ acct, concat acct;
     SaveCoinbaseOk :=
       λ ledger r,
         negb (existsb (λ r', (cb_shardId r' =? cb_shardId r) &&
                              (cb_epochNum r' =? cb_epochNum r)) ledger);
     PutMicroBlockOk := λ _ r, negb (sb_blockHash r =? 999);
     CheckState := λ s _, s =? 1;
     CheckMicroBlocks := λ _, true |}.

Definition shard0 : list (N * N * N) :=
  [(11, 1011, 0); (12, 1012, 0); (13, 1013, 0); (14, 1014, 0)].
Definition shard1 : list (N * N * N) :=
  [(21, 1021, 0); (22, 1022, 0); (23, 1023, 0); (24, 1024, 0)].
Definition dsCommittee : list (N * N) :=
  [(1, 1001); (2, 1002); (3, 1003); (4, 1004)].

Definition keyMap : gmap N N :=
  list_to_map [(11, 0); (12, 0); (13, 0); (14, 0);
               (21, 1); (22, 1); (23, 1); (24, 1)].

(** The node before it has received anything for epoch 10; the hashes 501
    to 504 and 999 are missing for epoch 10 and 601 for epoch 9. *)
Definition st0 : DirectoryService :=
  {| m_shards := [shard0; shard1];
     m_DSCommittee := dsCommittee;
     m_publicKeyToshardIdMap := keyMap;
     m_currentEpochNum := 10;
     m_myshardId := 2;
     m_state := 1;
     m_microBlocks := ∅;
     m_missingMicroBlocks :=
       list_to_map [(10, [501; 502; 503; 504; 999]); (9, [601])];
     m_microBlockStateDeltas := ∅;
     m_stateDeltaFromShards := [];
     m_stopRecvNewMBSubmission := false;
     m_MBSubmissionBuffer := ∅;
     coinbaseLedger := [];
     blockStorage := [];
     accountStoreTemp := [];
     scheduleDSMicroBlockConsensusNotified := 0;
     finalBlockConsensusSpawned := 0;
     missingMicroBlockNotified := 0 |}.

Definition allSigned : list bool := [true; true; true; true].

(** A microblock of [shardId], mined by [miner], co-signed by all four
    members (whose keys sum up to [agg]), with the given hashes. *)
Definition mkMicroBlock (version shardId miner agg : N)
    (stateDeltaHash myHash blockHash : N) : MicroBlock :=
  {| GetHeader :=
       {| GetVersion := version; GetDSBlockNum := 3; GetEpochNum := 10;
          GetShardId := shardId; GetMinerPubKey := miner;
          GetCommitteeHash := 44; GetStateDeltaHash := stateDeltaHash;
          GetMyHash := myHash |};
     GetB1 := allSigned; GetB2 := allSigned;
     GetCS1 := agg; GetCS2 := agg;
     GetBlockHash := blockHash; GetTimestamp := 1000 |}.

(** Well-formed microblocks of shard 0 and of shard 1. *)
Definition mbShard0 : MicroBlock := mkMicroBlock 1 0 11 50 0 501 501.
Definition mbShard1 : MicroBlock := mkMicroBlock 1 1 21 90 0 502 502.
(** Shard 0 again, but with a stale version and a block hash that is not the
    header's self-hash. *)
Definition mbStale : MicroBlock := mkMicroBlock 7 0 13 50 0 777 504.
(** A microblock that is listed as missing for epoch 9. *)
Definition mbLate : MicroBlock := mkMicroBlock 1 1 22 90 0 601 601.
(** A microblock whose header announces a state delta of hash 102. *)
Definition mbDelta : MicroBlock := mkMicroBlock 1 0 11 50 102 501 501.
(** A microblock of shard 1 that the block store refuses. *)
Definition mbUnstorable : MicroBlock := mkMicroBlock 1 1 21 90 0 999 999.
(** A microblock mined by a key that belongs to no shard. *)
Definition mbUnknownMiner : MicroBlock := mkMicroBlock 1 0 99 50 0 501 501.
(** A microblock built on DS block 1, which is not the latest. *)
Definition mbNotLatest : MicroBlock :=
  {| GetHeader :=
       {| GetVersion := 1; GetDSBlockNum := 1; GetEpochNum := 10;
          GetShardId := 0; GetMinerPubKey := 11; GetCommitteeHash := 44;
          GetStateDeltaHash := 0; GetMyHash := 501 |};
     GetB1 := allSigned; GetB2 := allSigned; GetCS1 := 50; GetCS2 := 50;
     GetBlockHash := 501; GetTimestamp := 1000 |}.

(** The node after DS microblock consensus has started. *)
Definition stStopped : DirectoryService :=
  {| m_shards := [shard0; shard1];
     m_DSCommittee := dsCommittee;
     m_publicKeyToshardIdMap := keyMap;
     m_currentEpochNum := 10;
     m_myshardId := 2;
     m_state := 1;
     m_microBlocks := ∅;
     m_missingMicroBlocks :=
       list_to_map [(10, [501; 502; 503; 504; 999]); (9, [601])];
     m_microBlockStateDeltas := ∅;
     m_stateDeltaFromShards := [];
     m_stopRecvNewMBSubmission := true;
     m_MBSubmissionBuffer := ∅;
     coinbaseLedger := [];
     blockStorage := [];
     accountStoreTemp := [];
     scheduleDSMicroBlockConsensusNotified := 1;
     finalBlockConsensusSpawned := 1;
     missingMicroBlockNotified := 0 |}.


(** A DS committee of ten and a microblock of it that seven members
    co-signed. *)
Definition stTen : DirectoryService :=
  {| m_shards := [shard0; shard1];
     m_DSCommittee :=
       [(1, 1001); (2, 1002); (3, 1003); (4, 1004); (5, 1005);
        (6, 1006); (7, 1007); (8, 1008); (9, 1009); (10, 1010)];
     m_publicKeyToshardIdMap := keyMap;
     m_currentEpochNum := 10;
     m_myshardId := 0;
     m_state := 1;
     m_microBlocks := ∅;
     m_missingMicroBlocks := ∅;
     m_microBlockStateDeltas := ∅;
     m_stateDeltaFromShards := [];
     m_stopRecvNewMBSubmission := false;
     m_MBSubmissionBuffer := ∅;
     coinbaseLedger := [];
     blockStorage := [];
     accountStoreTemp := [];
     scheduleDSMicroBlockConsensusNotified := 0;
     finalBlockConsensusSpawned := 0;
     missingMicroBlockNotified := 0 |}.

Definition sevenOfTen : list bool :=
  [true; true; true; true; true; true; true; false; false; false].

Definition mbSevenOfTen : MicroBlock :=
  {| GetHeader :=
       {| GetVersion := 1; GetDSBlockNum := 3; GetEpochNum := 10;
          GetShardId := 2; GetMinerPubKey := 1; GetCommitteeHash := 50;
          GetStateDeltaHash := 0; GetMyHash := 700 |};
     GetB1 := sevenOfTen; GetB2 := sevenOfTen; GetCS1 := 28; GetCS2 := 28;
     GetBlockHash := 700; GetTimestamp := 1000 |}.

End Scenario.

(** ** ProcessMicroblockSubmission

    The entry point for a framed message.  The decoder and the two
    membership tests live in libMessage and in another file of
    libDirectoryService; the two values of SUBMITMICROBLOCKTYPE are declared
    in DirectoryService.h.  They are parameters. *)

Record DSMicroBlockSubmission := {
  submitMBType : N;
  sub_epochNumber : N;
  sub_microBlocks : list MicroBlock;
  sub_stateDeltas : list bytes;
  sub_senderPubKey : PubKey
}.

Record EntryExternals := {
  SHARDMICROBLOCK : N;
  MISSINGMICROBLOCK : N;
  GetDSMicroBlockSubmission : bytes → N → option DSMicroBlockSubmission;
  CheckIfShardNode : DirectoryService → PubKey → bool;
  CheckIfDSNode : DirectoryService → PubKey → bool
}.

Definition ProcessMicroblockSubmission (E : Externals) (X : EntryExternals)
    (st : DirectoryService) (message : bytes) (offset : N)
    : DirectoryService * Outcome :=
  if LOOKUP_NODE_MODE E then (st, Returns true)
  else
    match GetDSMicroBlockSubmission X message offset with
    | None => (st, Returns false)
    | Some sub =>
        if submitMBType sub =? SHARDMICROBLOCK X then
          if negb (CheckIfShardNode X st (sub_senderPubKey sub))
          then (st, Returns false)
          else ProcessMicroblockSubmissionFromShard E st (sub_epochNumber sub)
                 (sub_microBlocks sub) (sub_stateDeltas sub)
        else if submitMBType sub =? MISSINGMICROBLOCK X then
          if negb (CheckIfDSNode X st (sub_senderPubKey sub))
          then (st, Returns false)
          else ProcessMissingMicroblockSubmission E st (sub_epochNumber sub)
                 (sub_microBlocks sub) (sub_stateDeltas sub)
        else (st, Returns false)
    end.

(** The record [PutMicroBlock] is asked to write for a microblock. *)
Definition storedRecordOf (E : Externals) (mb : MicroBlock) : StoredMicroBlock :=
  {| sb_blockHash := GetBlockHash mb;
     sb_epochNum := GetEpochNum (GetHeader mb);
     sb_shardId := GetShardId (GetHeader mb);
     sb_body := SerializeMicroBlock E mb |}.

(** Every accepted microblock is of a shard of [m_shards], and no two of one
    epoch are of the same shard. *)
Definition shardsReported (st : DirectoryService) : Prop :=
  ∀ e,
    NoDup ((λ mb, GetShardId (GetHeader mb)) <$> microBlocksAt st e) ∧
    Forall (λ mb, GetShardId (GetHeader mb) < vsize (m_shards st))
      (microBlocksAt st e).

(** The bucket of the current epoch is full only with the flag set. *)
Definition fullMeansStopped (st : DirectoryService) : Prop :=
  vsize (microBlocksAt st (m_currentEpochNum st)) = vsize (m_shards st) →
  m_stopRecvNewMBSubmission st = true.

(** Either the flag and the two counters of the completion branch are as
    before, or the flag went from false to true and each counter went up by
    one. *)
Definition signalledAtMostOnce (st st' : DirectoryService) : Prop :=
  (m_stopRecvNewMBSubmission st' = m_stopRecvNewMBSubmission st ∧
   finalBlockConsensusSpawned st' = finalBlockConsensusSpawned st ∧
   scheduleDSMicroBlockConsensusNotified st'
     = scheduleDSMicroBlockConsensusNotified st) ∨
  (m_stopRecvNewMBSubmission st = false ∧
   m_stopRecvNewMBSubmission st' = true ∧
   finalBlockConsensusSpawned st' = S (finalBlockConsensusSpawned st) ∧
   scheduleDSMicroBlockConsensusNotified st'
     = S (scheduleDSMicroBlockConsensusNotified st)).

(** What the repair path never writes. *)
Definition repairFrame (st st' : DirectoryService) : Prop :=
  m_stopRecvNewMBSubmission st' = m_stopRecvNewMBSubmission st ∧
  finalBlockConsensusSpawned st' = finalBlockConsensusSpawned st ∧
  scheduleDSMicroBlockConsensusNotified st'
    = scheduleDSMicroBlockConsensusNotified st ∧
  m_MBSubmissionBuffer st' = m_MBSubmissionBuffer st ∧
  staticPart st' = staticPart st.

(** Every state delta on record in [st] is on record in [st'], for the same
    epoch and block hash and with the same bytes. *)
Definition deltaRecordsKept (st st' : DirectoryService) : Prop :=
  ∀ e h d,
    at_key ∅ e (m_microBlockStateDeltas st) !! h = Some d →
    at_key ∅ e (m_microBlockStateDeltas st') !! h = Some d.

(** ** The critical sections of ProcessMicroblockSubmissionFromShardCore

    The function takes [m_mutexMicroBlocks] for the duplicate test (lines
    203-218), gives it up, runs the checks of lines 220-295, and takes it
    again for everything from the test of [m_stopRecvNewMBSubmission] to the
    completion branch (lines 301-362).  The dispatcher calls the function
    from the inbound threads without a lock of its own (line 458), so other
    calls can run between the two sections. *)

(** Lines 203-218: the bucket of the current epoch is created if it is not
    there, and the answer is whether it holds no microblock of the shard. *)
Definition CoreFirstSection (st : DirectoryService) (microBlock : MicroBlock)
    : DirectoryService * bool :=
  let shardId := GetShardId (GetHeader microBlock) in
  let cur := m_currentEpochNum st in
  let st := set_microBlocks st (touch [] cur (m_microBlocks st)) in
  (st, negb (existsb (λ mb, GetShardId (GetHeader mb) =? shardId)
               (microBlocksAt st cur))).

(** The call when other threads run between its two critical sections:
    [others] is what they make of the state that the first section has
    left; the second section, [CoreCommit], starts in that state.  The checks
    in between read the shard list, the committees, the authority map and
    the epoch, which no function of this file writes, so that it makes no
    difference whether the others run before or after them.  A call that
    returns before its second section returns before the others run. *)
Definition CoreOvertaken (E : Externals)
    (others : DirectoryService → DirectoryService) (st : DirectoryService)
    (microBlock : MicroBlock) (stateDelta : bytes)
    : DirectoryService * Outcome :=
  if LOOKUP_NODE_MODE E then (st, Returns true)
  else
    let '(st, fresh) := CoreFirstSection st microBlock in
    if negb fresh then (st, Returns false)
    else
      match CoreChecks E st microBlock with
      | Returns true => CoreCommit E (others st) microBlock stateDelta
      | Returns false => (st, Returns false)
      | Throws => (st, Throws)
      end.

(** * MemoryStats.cpp

    Memory at a [char*] is the list of the initialised bytes found there: a
    string, and what lies behind its terminator if [parseLine] is handed
    more than the string.  A list without NUL is a string whose terminator
    sits right behind the list.  The two readers keep one [char line[128]]
    for all their calls of [fgets]; [fgetsInto] gives what a call leaves in
    it, the bytes of longer lines read before included.  [None] stands for
    undefined behaviour: a read of memory that was never written, a write in
    front of the buffer, a number [atoi] cannot represent. *)

Definition isDigit (c : byte) : bool :=
  (48 <=? Byte.to_N c) && (Byte.to_N c <=? 57).

Definition INT_MAX : N := 2 ^ 31 - 1.

(** [strlen]: the bytes in front of the first NUL. *)
Fixpoint strlen (buf : list byte) : nat :=
  match buf with
  | [] => 0
  | c :: rest => if Byte.eqb c x00 then 0 else S (strlen rest)
  end.

(** The loop that advances [p] while the byte under it is below '0' or
    above '9': the position of the first digit.  Without a digit in the
    buffer the pointer runs over the terminator. *)
Fixpoint firstDigit (buf : list byte) : option nat :=
  match buf with
  | [] => None
  | c :: rest => if isDigit c then Some 0%nat else S <$> firstDigit rest
  end.

(** [atoi] on a pointer to a digit: the decimal value of the run of digits
    that starts there. *)
Fixpoint atoiAcc (acc : N) (s : list byte) : N :=
  match s with
  | [] => acc
  | c :: rest =>
      if isDigit c then atoiAcc (10 * acc + (Byte.to_N c - 48)) rest else acc
  end.

Definition parseLine (line : list byte) : option Z :=
  let i := strlen line in
  if 2 ^ 31 <=? N.of_nat i then None
  else
    match firstDigit line with
    | None => None
    | Some p =>
        if (i <? 3)%nat then None
        else
          let line := <[(i - 3)%nat := x00]> line in
          let value := atoiAcc 0 (drop p line) in
          if value <=? INT_MAX then Some (Z.of_N value) else None
    end.

(** The chunks that successive calls of [fgets(line, 128, file)] deliver for
    the rest of a file: a chunk ends behind a newline, after [room] bytes
    (127 for a fresh chunk), or at the end of the file.  [cur] holds the
    bytes of the chunk under way, last one first. *)
Fixpoint fgetsChunks (room : nat) (cur : list byte) (content : list byte)
    : list (list byte) :=
  match content with
  | [] => match cur with [] => [] | _ => [rev cur] end
  | c :: rest =>
      if Byte.eqb c x0a then rev (c :: cur) :: fgetsChunks 127 [] rest
      else
        match room with
        | S (S room') => fgetsChunks (S room') (c :: cur) rest
        | _ => rev (c :: cur) :: fgetsChunks 127 [] rest
        end
  end.

(** [strncmp(line, label, n) == 0] for a label of [n] bytes without NUL. *)
Fixpoint startsWith (label line : list byte) : bool :=
  match label with
  | [] => true
  | c :: label' =>
      match line with
      | [] => false
      | d :: line' => Byte.eqb c d && startsWith label' line'
      end
  end.

(** [fgets(line, 128, file)] on the buffer [line]: the bytes read, the
    terminator behind them, and behind that the bytes the buffer held
    already. *)
Definition fgetsInto (line chunk : list byte) : list byte :=
  chunk ++ x00 :: drop (S (length chunk)) line.

(** The loop shared by the two readers of /proc/self/status: each chunk is
    read into the one buffer [line]; the first time the buffer starts with
    the label it is handed to [parseLine], and without such a chunk the
    result is -1.  [fopen] is taken to succeed. *)
Fixpoint scanStatus (label line : list byte) (chunks : list (list byte))
    : option Z :=
  match chunks with
  | [] => Some (-1)%Z
  | chunk :: rest =>
      let line := fgetsInto line chunk in
      if startsWith label line then parseLine line
      else scanStatus label line rest
  end.

Definition labelVmRSS : list byte := list_byte_of_string "VmRSS:"%string.
Definition labelVmSize : list byte := list_byte_of_string "VmSize:"%string.

(** [char line[128]] starts out with nothing written to it. *)
Definition GetProcessPhysicalMemoryStats (status : list byte) : option Z :=
  scanStatus labelVmRSS [] (fgetsChunks 127 [] status).

Definition GetProcessVirtualMemoryStats (status : list byte) : option Z :=
  scanStatus labelVmSize [] (fgetsChunks 127 [] status).

(** [struct sysinfo] of <sys/sysinfo.h> on 64-bit Linux: the memory fields
    are [unsigned long] (64 bits), [mem_unit] is [unsigned int]. *)
Record sysinfo := {
  totalram : N;
  freeram : N;
  totalswap : N;
  freeswap : N;
  mem_unit : N
}.

(** Conversion of an [unsigned long] to [long long]. *)
Definition toLongLong (n : N) : Z :=
  let z := Z.of_N (wrap64 n) in
  if (z <? 2 ^ 63)%Z then z else (z - 2 ^ 64)%Z.

(** [a += u] for a [long long a] and an [unsigned long u]: the sum is formed
    in [unsigned long]. *)
Definition addUnsigned (a : Z) (u : N) : Z :=
  toLongLong (Z.to_N ((a + Z.of_N u) mod 2 ^ 64)).

(** [a *= unit] for a [long long a] and an [unsigned int unit]: a signed
    product, undefined when it overflows. *)
Definition mulUnit (a : Z) (unit : N) : option Z :=
  let r := (a * Z.of_N unit)%Z in
  if ((- 2 ^ 63 <=? r) && (r <? 2 ^ 63))%Z then Some r else None.

(** The two figures [DisplayVirtualMemoryStats] logs in bytes:
    [totalVirtualMem] and [virtualMemUsed]. *)
Definition virtualMemoryFigures (memInfo : sysinfo) : option Z * option Z :=
  let totalVirtualMem := toLongLong (totalram memInfo) in
  let totalVirtualMem := addUnsigned totalVirtualMem (totalswap memInfo) in
  let virtualMemUsed :=
    toLongLong (wrap64 (totalram memInfo + 2 ^ 64 - freeram memInfo)) in
  let virtualMemUsed :=
    addUnsigned virtualMemUsed
      (wrap64 (totalswap memInfo + 2 ^ 64 - freeswap memInfo)) in
  (mulUnit totalVirtualMem (mem_unit memInfo),
   mulUnit virtualMemUsed (mem_unit memInfo)).

(** The two figures [DisplayPhysicalMemoryStats] logs in bytes:
    [totalPhysMem] and [physMemUsed]. *)
Definition physicalMemoryFigures (memInfo : sysinfo) : option Z * option Z :=
  let totalPhysMem := toLongLong (totalram memInfo) in
  let physMemUsed :=
    toLongLong (wrap64 (totalram memInfo + 2 ^ 64 - freeram memInfo)) in
  (mulUnit totalPhysMem (mem_unit memInfo),
   mulUnit physMemUsed (mem_unit memInfo)).

(** ** Decimal notation

    The digits of a number as the kernel prints them in
    /proc/self/status, to state what the readers make of a line. *)

Definition digitByte (d : N) : byte := default x30 (Byte.of_N (48 + d)).

Fixpoint decimalAcc (fuel : nat) (n : N) (acc : list byte) : list byte :=
  match fuel with
  | O => acc
  | S fuel' =>
      let acc' := digitByte (n mod 10) :: acc in
      if n <? 10 then acc' else decimalAcc fuel' (n / 10) acc'
  end.

Definition decimal (n : N) : list byte :=
  decimalAcc (S (N.to_nat (N.log2 n))) n [].

(** The bytes of a line in front of its newline: no newline among them, and
    with the newline they fit the buffer of 128 bytes. *)
Definition shortLine (body : list byte) : bool :=
  forallb (λ c, negb (Byte.eqb c x0a)) body && (length body <? 127)%nat.

(** A file made of full lines. *)
Definition linesOf (bodies : list (list byte)) : list byte :=
  concat ((λ body, body ++ [x0a]) <$> bodies).

(** The buffer [line] after the full lines of a file have been read into
    it, one after the other. *)
Definition bufferAfter (bodies : list (list byte)) : list byte :=
  foldl fgetsInto [] ((λ body, body ++ [x0a]) <$> bodies).

(** ** Further sample data *)

Module Samples.

Import Scenario.

(** The node of [st0] after it has accepted [mbShard0]. *)
Definition stOne : DirectoryService :=
  (ProcessMicroblockSubmissionFromShardCore E0 st0 mbShard0 []).1.

(** The collaborators of [E0], with a coinbase ledger that takes every
    record. *)
Definition E1 : Externals :=
  {| MICROBLOCK_VERSION := MICROBLOCK_VERSION E0;
     LOOKUP_NODE_MODE := LOOKUP_NODE_MODE E0;
     NUM_FINAL_BLOCK_PER_POW := NUM_FINAL_BLOCK_PER_POW E0;
     EXTRA_TX_DISTRIBUTE_TIME_IN_MS := EXTRA_TX_DISTRIBUTE_TIME_IN_MS E0;
     CONSENSUS_OBJECT_TIMEOUT := CONSENSUS_OBJECT_TIMEOUT E0;
     MICROBLOCK_TIMEOUT := MICROBLOCK_TIMEOUT E0;
     CheckWhetherBlockIsLatest := CheckWhetherBlockIsLatest E0;
     GetIsVacuousEpoch := GetIsVacuousEpoch E0;
     VerifyTimestamp := VerifyTimestamp E0;
     GetShardHash := GetShardHash E0;
     SerializeHeader := SerializeHeader E0;
     SerializeSignature := SerializeSignature E0;
     SetBitVector := SetBitVector E0;
     SerializeMicroBlock := SerializeMicroBlock E0;
     charArrToHexStr := charArrToHexStr E0;
     AggregatePubKeys := AggregatePubKeys E0;
     MultiSigVerify := MultiSigVerify E0;
     sha256 := sha256 E0;
     DeserializeDeltaTemp := DeserializeDeltaTemp E0;
     SerializeDelta := SerializeDelta E0;
     GetSerializedDelta := GetSerializedDelta E0;
     SaveCoinbaseOk := λ _ _, true;
     PutMicroBlockOk := PutMicroBlockOk E0;
     CheckState := CheckState E0;
     CheckMicroBlocks := CheckMicroBlocks E0 |}.

(** A second microblock of shard 0, mined by another member, with a block
    hash of its own. *)
Definition mbShard0b : MicroBlock := mkMicroBlock 1 0 12 50 0 505 505.

(** Two submissions of shard 0 in flight at once: the call for [mbShard0b]
    has passed its first section when the call for [mbShard0] runs from
    start to end; then the second section of the first call runs. *)
Definition overlapped : DirectoryService * Outcome :=
  CoreOvertaken E1
    (λ st, (ProcessMicroblockSubmissionFromShardCore E1 st mbShard0 []).1)
    st0 mbShard0b [].


(** A state delta of two bytes; [E0] hashes it to 102, the hash that
    [mbDelta] announces. *)
Definition twoBytes : list byte := [x01; x02].

(** A state delta of one byte, hashed to 101, and [mbLate] with that hash
    announced in its header. *)
Definition oneByte : list byte := [x07].
Definition mbLateDelta : MicroBlock := mkMicroBlock 1 1 22 90 101 601 601.

(** The node of [st0] after a repair batch for epoch 9 has brought
    [mbLateDelta]: its delta is on record under the current epoch 10 and the
    block hash 601. *)
Definition stRepaired : DirectoryService :=
  (ProcessMissingMicroblockSubmission E0 st0 9 [mbLateDelta] [oneByte]).1.

(** A microblock of shard 0 with the block hash 601 that announces the
    hash of [twoBytes]. *)
Definition mbSameHash : MicroBlock := mkMicroBlock 1 0 11 50 102 601 601.

(** Lines of a status file, without their newlines. *)
Definition lineName : list byte := list_byte_of_string "Name:   zilliqa".
Definition lineVmPeak : list byte := list_byte_of_string "VmPeak:    9000 kB".
Definition lineVmSize : list byte := list_byte_of_string "VmSize:    5678 kB".
Definition lineIndented : list byte := list_byte_of_string " VmRSS:       1 kB".
Definition lineVmRSS : list byte := list_byte_of_string "VmRSS:     1234 kB".
Definition lineThreads : list byte := list_byte_of_string "Threads:   4".

(** A line with a number of its own, and a labelled line without one. *)
Definition lineNumbered : list byte :=
  list_byte_of_string "Name:   zilliqa 42 xx".
Definition lineBareLabel : list byte := list_byte_of_string "VmRSS:".

(** 126 letters, and 126 bytes that carry a number among the letters. *)
Definition letters : list byte := replicate 126 x41.
Definition lettersAndNumber : list byte :=
  replicate 10 x41 ++ list_byte_of_string "42" ++ replicate 114 x41.
Definition lineKb77 : list byte := list_byte_of_string "VmRSS:       77 kB".

(** Sixteen GiB of memory and two GiB of swap in pages of 4096 bytes. *)
Definition memSample : sysinfo :=
  {| totalram := 4194304; freeram := 1048576;
     totalswap := 524288; freeswap := 524288; mem_unit := 4096 |}.

End Samples.

(** * Properties *)

Section CoSignature.

Context (E : Externals).

Lemma wrap32_le n : wrap32 n ≤ n.
Proof. unfold wrap32. apply N.Div0.mod_le. Qed.

Lemma wrap32_small n : n < 2 ^ 32 → wrap32 n = n.
Proof. unfold wrap32. intros. by apply N.mod_small. Qed.

Lemma signersOf_length C B2 :
  length C = length B2 → vsize (signersOf C B2) = countTrue B2.
Proof.
  unfold signersOf, countTrue, vsize. intros Hlen. f_equal.
  rewrite length_fmap. revert B2 Hlen.
  induction C as [|c C IH]; intros [|b B2] Hlen; simplify_eq/=; [done|].
  rewrite !filter_cons. simpl. destruct b; repeat case_decide; try done;
    simpl; rewrite IH; done.
Qed.

(** [B2.at(index)] never throws once the sizes agree: the index stays below
    the number of members already visited. *)
Lemma collectSigners_total B2 committee index count keys :
  (N.to_nat index + length committee ≤ length B2)%nat →
  is_Some (collectSigners B2 committee index count keys).
Proof.
  revert index count keys.
  induction committee as [|pk rest IH]; intros index count keys Hle; simpl.
  - by eexists.
  - simpl in Hle.
    destruct (lookup_lt_is_Some_2 B2 (N.to_nat index)) as [b Hb]; [lia|].
    rewrite Hb.
    assert (N.to_nat (wrap32 (index + 1)) + length rest ≤ length B2)%nat.
    { pose proof (wrap32_le (index + 1)). lia. }
    destruct b; by apply IH.
Qed.

(** Below 2^32 members the counters do not wrap, and the loop computes the
    signer list and the number of set bits. *)
Lemma collectSigners_spec pre suf committee index count keys :
  index = vsize pre →
  length committee = length suf →
  vsize (pre ++ suf) < 2 ^ 32 →
  count ≤ index →
  collectSigners (pre ++ suf) committee index count keys =
    Some (keys ++ signersOf committee suf, count + countTrue suf).
Proof.
  revert pre suf index count keys.
  induction committee as [|pk rest IH];
    intros pre [|b suf] index count keys -> Hlen Hsz Hcnt; simplify_eq/=.
  - unfold signersOf, countTrue, vsize. simpl.
    by rewrite app_nil_r, N.add_0_r.
  - unfold vsize in *. rewrite Nat2N.id.
    rewrite lookup_app_r by lia. rewrite Nat.sub_diag. simpl.
    rewrite length_app in Hsz. simpl in Hsz.
    assert (Hidx : wrap32 (N.of_nat (length pre) + 1)
                   = N.of_nat (length (pre ++ [b]))).
    { rewrite wrap32_small by lia. rewrite length_app. simpl. lia. }
    rewrite Hidx.
    replace (pre ++ b :: suf) with ((pre ++ [b]) ++ suf)
      by (by rewrite <- app_assoc).
    assert (Hsz' : N.of_nat (length ((pre ++ [b]) ++ suf)) < 2 ^ 32).
    { rewrite !length_app. simpl. lia. }
    destruct b.
    + rewrite (IH (pre ++ [true]) suf _ _ _ eq_refl Hlen Hsz').
      * unfold signersOf, countTrue. simpl.
        rewrite !filter_cons. simpl.
        repeat case_decide; try done. simpl.
        rewrite wrap32_small by lia.
        f_equal. f_equal; [by rewrite <- app_assoc|].
        unfold vsize. simpl. lia.
      * rewrite length_app. simpl. pose proof (wrap32_le (count + 1)). lia.
    + rewrite (IH (pre ++ [false]) suf _ _ _ eq_refl Hlen Hsz').
      * unfold signersOf, countTrue. simpl.
        rewrite !filter_cons. simpl.
        repeat case_decide; try done.
      * rewrite length_app. simpl. lia.
Qed.

Lemma verifyAggregated_spec C mb :
  length C = length (GetB2 mb) →
  verifyAggregated E mb (signersOf C (GetB2 mb)) (countTrue (GetB2 mb))
  = verifyAgainst E C mb.
Proof.
  intros Hlen. unfold verifyAggregated, verifyAgainst.
  rewrite (bool_decide_eq_true_2 _ Hlen). simpl.
  rewrite (signersOf_length _ _ Hlen).
  destruct (N.eqb_spec (countTrue (GetB2 mb))
              (NumForConsensus (vsize (GetB2 mb)))) as [Heq|Hne]; simpl.
  - by rewrite (bool_decide_eq_true_2 _ Heq).
  - by rewrite (bool_decide_eq_false_2 _ Hne).
Qed.

Lemma walk_committee C mb :
  length C = length (GetB2 mb) →
  vsize (GetB2 mb) < 2 ^ 32 →
  collectSigners (GetB2 mb) C 0 0 [] =
    Some (signersOf C (GetB2 mb), countTrue (GetB2 mb)).
Proof.
  intros Hlen Hsz.
  pose proof (collectSigners_spec [] (GetB2 mb) C 0 0 [] eq_refl Hlen Hsz)
    as Hwalk.
  simpl in Hwalk. rewrite Hwalk; [|done]. by rewrite N.add_0_l.
Qed.

(** The verifier never lets [std::out_of_range] escape. *)
Lemma VerifyMicroBlockCoSignature_returns st mb shardId :
  is_Some (VerifyMicroBlockCoSignature E st mb shardId).
Proof.
  unfold VerifyMicroBlockCoSignature, vsize.
  destruct (N.eqb_spec shardId (N.of_nat (length (m_shards st)))) as [->|Hne].
  - destruct (N.eqb_spec (N.of_nat (length (m_DSCommittee st)))
                (N.of_nat (length (GetB2 mb)))) as [Heq|]; simpl; [|by eexists].
    destruct (collectSigners_total (GetB2 mb) (m_DSCommittee st).*1 0 0 [])
      as [[keys count] ->]; [rewrite length_fmap; simpl; lia|by eexists].
  - destruct (N.ltb_spec shardId (N.of_nat (length (m_shards st)))) as [Hlt|];
      [|by eexists].
    destruct (lookup_lt_is_Some_2 (m_shards st) (N.to_nat shardId))
      as [shard ->]; [lia|].
    destruct (N.eqb_spec (N.of_nat (length shard))
                (N.of_nat (length (GetB2 mb)))) as [Heq|]; simpl; [|by eexists].
    destruct (collectSigners_total (GetB2 mb) (SHARD_NODE_PUBKEY <$> shard)
                0 0 []) as [[keys count] ->];
      [rewrite length_fmap; simpl; lia|by eexists].
Qed.

(** The code agrees with section 4.1 for bitmaps below 2^32 bits. *)
Lemma VerifyMicroBlockCoSignature_spec st mb shardId :
  vsize (GetB2 mb) < 2 ^ 32 →
  VerifyMicroBlockCoSignature E st mb shardId =
    Some (match selectedCommittee st shardId with
          | Some C => verifyAgainst E C mb
          | None => false
          end).
Proof.
  intros Hsz. unfold VerifyMicroBlockCoSignature, selectedCommittee.
  destruct (N.eqb_spec shardId (vsize (m_shards st))) as [->|Hne].
  - rewrite decide_True by done.
    destruct (N.eqb_spec (vsize (m_DSCommittee st)) (vsize (GetB2 mb)))
      as [Heq|Hne]; simpl.
    + assert (Hlen : length (m_DSCommittee st).*1 = length (GetB2 mb)).
      { rewrite length_fmap. unfold vsize in Heq. lia. }
      rewrite (walk_committee _ _ Hlen Hsz).
      by rewrite (verifyAggregated_spec _ _ Hlen).
    + unfold verifyAgainst. rewrite bool_decide_eq_false_2; [done|].
      rewrite length_fmap. unfold vsize in Hne. lia.
  - rewrite decide_False by done.
    destruct (N.ltb_spec shardId (vsize (m_shards st))) as [Hlt|Hge].
    + unfold vsize in Hlt.
      destruct (lookup_lt_is_Some_2 (m_shards st) (N.to_nat shardId))
        as [shard Hshard]; [lia|].
      rewrite Hshard. simpl.
      destruct (N.eqb_spec (vsize shard) (vsize (GetB2 mb))) as [Heq|Hne'];
        simpl.
      * assert (Hlen : length (SHARD_NODE_PUBKEY <$> shard)
                       = length (GetB2 mb)).
        { rewrite length_fmap. unfold vsize in Heq. lia. }
        rewrite (walk_committee _ _ Hlen Hsz).
        by rewrite (verifyAggregated_spec _ _ Hlen).
      * unfold verifyAgainst. rewrite bool_decide_eq_false_2; [done|].
        rewrite length_fmap. unfold vsize in Hne'. lia.
    + unfold vsize in Hge.
      rewrite (lookup_ge_None_2 (m_shards st) (N.to_nat shardId)) by lia.
      done.
Qed.

End CoSignature.

Section Frames.

Context (E : Externals).

(** *** Buckets *)

Lemma at_key_touch {V} (d : V) k k' m :
  at_key d k' (touch d k m) = at_key d k' m.
Proof.
  unfold at_key, touch. destruct (m !! k) eqn:Hk; [done|].
  destruct (decide (k = k')) as [->|Hne].
  - by rewrite lookup_insert_eq, Hk.
  - by rewrite lookup_insert_ne.
Qed.

Lemma at_key_insert {V} (d : V) k k' v m :
  at_key d k' (<[k := v]> m) = if decide (k = k') then v else at_key d k' m.
Proof.
  unfold at_key. case_decide as Hk.
  - subst. by rewrite lookup_insert_eq.
  - by rewrite lookup_insert_ne.
Qed.

Lemma set_emplace_elem mb s x :
  x ∈ set_emplace mb s → x ∈ s ∨ x = mb.
Proof.
  unfold set_emplace. case_match; [by left|].
  rewrite elem_of_app, list_elem_of_singleton. tauto.
Qed.

Lemma existsb_false_elem {A} (f : A → bool) (l : list A) x :
  existsb f l = false → x ∈ l → f x = false.
Proof.
  intros Hex Hx. apply not_true_is_false. intros Hfx.
  assert (existsb f l = true); [|congruence].
  apply existsb_exists. exists x. by rewrite <- list_elem_of_In.
Qed.

Lemma set_emplace_fresh mb s :
  existsb (λ x, GetBlockHash x =? GetBlockHash mb) s = false →
  set_emplace mb s = s ++ [mb].
Proof. unfold set_emplace. by intros ->. Qed.

(** *** What each step may change *)

(** A state equals itself with one of its fields written back. *)
Ltac state_eta :=
  repeat match goal with s : DirectoryService |- _ => destruct s end;
  reflexivity.

Lemma SaveCoinbase_inv st b1 b2 sid ep st' ok :
  SaveCoinbase E st b1 b2 sid ep = (st', ok) →
  st' = set_coinbaseLedger st
          (coinbaseLedger st ++
             (if ok then [{| cb_b1 := b1; cb_b2 := b2; cb_shardId := sid;
                             cb_epochNum := ep |}] else [])).
Proof.
  unfold SaveCoinbase. intros H. case_match; simplify_eq/=.
  - done.
  - rewrite app_nil_r. state_eta.
Qed.

Lemma coinbaseStep_inv st mb st' ok :
  coinbaseStep E st mb = (st', ok) →
  st' = set_coinbaseLedger st
          (coinbaseLedger st ++
             (if ok && negb (GetShardId (GetHeader mb) =? vsize (m_shards st))
              then [{| cb_b1 := GetB1 mb; cb_b2 := GetB2 mb;
                       cb_shardId := GetShardId (GetHeader mb);
                       cb_epochNum := m_currentEpochNum st |}]
              else [])).
Proof.
  unfold coinbaseStep. intros H.
  destruct (GetShardId (GetHeader mb) =? vsize (m_shards st)); simpl in *.
  - simplify_eq. rewrite andb_false_r, app_nil_r. state_eta.
  - rewrite andb_true_r. by apply SaveCoinbase_inv in H.
Qed.

Lemma persistStep_inv st mb st' ok :
  persistStep E st mb = (st', ok) →
  st' = set_blockStorage st
          (blockStorage st ++
             (if ok then [{| sb_blockHash := GetBlockHash mb;
                             sb_epochNum := GetEpochNum (GetHeader mb);
                             sb_shardId := GetShardId (GetHeader mb);
                             sb_body := SerializeMicroBlock E mb |}]
              else [])).
Proof.
  unfold persistStep, PutMicroBlock. intros H. case_match; simplify_eq/=.
  - done.
  - rewrite app_nil_r. state_eta.
Qed.

Lemma ProcessStateDelta_inv st delta h bh st' ok :
  ProcessStateDelta E st delta h bh = (st', ok) →
  ∃ acct agg deltas,
    st' = set_microBlockStateDeltas
            (set_stateDeltaFromShards (set_accountStoreTemp st acct) agg)
            deltas.
Proof.
  unfold ProcessStateDelta. intros H.
  exists (accountStoreTemp st'), (m_stateDeltaFromShards st'),
    (m_microBlockStateDeltas st').
  repeat case_match; simplify_eq/=; state_eta.
Qed.

Lemma stateDeltaStep_inv st ep mb delta st' ok :
  stateDeltaStep E st ep mb delta = (st', ok) →
  ∃ acct agg deltas,
    st' = set_microBlockStateDeltas
            (set_stateDeltaFromShards (set_accountStoreTemp st acct) agg)
            deltas.
Proof.
  unfold stateDeltaStep. intros H. case_match.
  - by apply ProcessStateDelta_inv in H.
  - simplify_eq.
    exists (accountStoreTemp st'), (m_stateDeltaFromShards st'),
      (m_microBlockStateDeltas st').
    state_eta.
Qed.

(** *** The second critical section of the shard path *)

Lemma CoreCommit_inv st mb delta st' o :
  CoreCommit E st mb delta = (st', o) →
  staticPart st' = staticPart st ∧
  m_MBSubmissionBuffer st' = m_MBSubmissionBuffer st ∧
  m_missingMicroBlocks st' = m_missingMicroBlocks st ∧
  (m_stopRecvNewMBSubmission st = true →
   m_stopRecvNewMBSubmission st' = true) ∧
  match o with
  | Returns true =>
      m_stopRecvNewMBSubmission st = false ∧
      m_microBlocks st' =
        <[m_currentEpochNum st :=
            set_emplace mb (microBlocksAt st (m_currentEpochNum st))]>
          (m_microBlocks st)
  | _ => m_microBlocks st' = m_microBlocks st
  end.
Proof.
  unfold CoreCommit. intros H.
  destruct (m_stopRecvNewMBSubmission st) eqn:Hstop; [by simplify_eq|].
  destruct (coinbaseStep E st mb) as [st1 saved] eqn:H1.
  apply coinbaseStep_inv in H1 as ->.
  destruct saved; simpl in H; [|by simplify_eq].
  match type of H with context [persistStep E ?s mb] =>
    destruct (persistStep E s mb) as [st2 put] eqn:H2 end.
  apply persistStep_inv in H2 as ->.
  destruct put; simpl in H; [|by simplify_eq].
  match type of H with context [stateDeltaStep E ?s ?c mb delta] =>
    destruct (stateDeltaStep E s c mb delta) as [st3 applied] eqn:H3 end.
  apply stateDeltaStep_inv in H3 as (acct & agg & deltas & ->).
  destruct applied; simpl in H; [|by simplify_eq].
  case_match; simplify_eq/=; done.
Qed.

(** *** The checks read only the static part *)

Lemma staticPart_inv st1 st2 :
  staticPart st1 = staticPart st2 →
  m_shards st1 = m_shards st2 ∧ m_DSCommittee st1 = m_DSCommittee st2 ∧
  m_publicKeyToshardIdMap st1 = m_publicKeyToshardIdMap st2 ∧
  m_currentEpochNum st1 = m_currentEpochNum st2 ∧
  m_myshardId st1 = m_myshardId st2 ∧ m_state st1 = m_state st2.
Proof. unfold staticPart. intros H. by simplify_eq. Qed.

Lemma VerifyMicroBlockCoSignature_static st1 st2 mb shardId :
  staticPart st1 = staticPart st2 →
  VerifyMicroBlockCoSignature E st1 mb shardId =
  VerifyMicroBlockCoSignature E st2 mb shardId.
Proof.
  intros (Hs & Hd & _)%staticPart_inv.
  unfold VerifyMicroBlockCoSignature. by rewrite Hs, Hd.
Qed.

Lemma CoreChecks_static st1 st2 mb :
  staticPart st1 = staticPart st2 →
  CoreChecks E st1 mb = CoreChecks E st2 mb.
Proof.
  intros Hst. unfold CoreChecks.
  rewrite (VerifyMicroBlockCoSignature_static st1 st2) by done.
  apply staticPart_inv in Hst as (-> & _ & -> & -> & _). done.
Qed.

Lemma minerKeyOk_static st1 st2 mb :
  staticPart st1 = staticPart st2 → minerKeyOk st1 mb = minerKeyOk st2 mb.
Proof.
  intros (Hs & Hd & Hm & _)%staticPart_inv.
  unfold minerKeyOk. by rewrite Hs, Hd, Hm.
Qed.

(** What passing the checks of lines 220-295 means. *)
Lemma CoreChecks_passed st mb :
  CoreChecks E st mb = Returns true →
  GetMyHash (GetHeader mb) = GetBlockHash mb ∧
  GetVersion (GetHeader mb) = MICROBLOCK_VERSION E ∧
  m_publicKeyToshardIdMap st !! GetMinerPubKey (GetHeader mb)
    = Some (GetShardId (GetHeader mb)) ∧
  GetShardId (GetHeader mb) < vsize (m_shards st) ∧
  VerifyMicroBlockCoSignature E st mb (GetShardId (GetHeader mb)) = Some true.
Proof.
  unfold CoreChecks. intros H.
  repeat case_match; simplify_eq/=;
    repeat match goal with
           | H : negb _ = false |- _ => apply negb_false_iff in H
           | H : (_ =? _) = true |- _ => apply N.eqb_eq in H
           end; subst.
  all: split_and!; try done.
  all: unfold vsize;
    match goal with H : m_shards _ !! _ = Some _ |- _ =>
      apply lookup_lt_Some in H end; lia.
Qed.

(** *** ProcessMicroblockSubmissionFromShardCore *)

Lemma Core_inv st mb delta st' o :
  ProcessMicroblockSubmissionFromShardCore E st mb delta = (st', o) →
  staticPart st' = staticPart st ∧
  m_MBSubmissionBuffer st' = m_MBSubmissionBuffer st ∧
  (m_stopRecvNewMBSubmission st = true →
   m_stopRecvNewMBSubmission st' = true) ∧
  if LOOKUP_NODE_MODE E then st' = st ∧ o = Returns true
  else
    match o with
    | Returns true =>
        existsb (λ x, GetShardId (GetHeader x) =? GetShardId (GetHeader mb))
          (microBlocksAt st (m_currentEpochNum st)) = false ∧
        CoreChecks E st mb = Returns true ∧
        m_stopRecvNewMBSubmission st = false ∧
        ∀ e, microBlocksAt st' e =
               if decide (m_currentEpochNum st = e)
               then set_emplace mb (microBlocksAt st e)
               else microBlocksAt st e
    | _ => ∀ e, microBlocksAt st' e = microBlocksAt st e
    end.
Proof.
  unfold ProcessMicroblockSubmissionFromShardCore. intros H.
  destruct (LOOKUP_NODE_MODE E); [by simplify_eq|].
  set (st0 := set_microBlocks st
                (touch [] (m_currentEpochNum st) (m_microBlocks st))) in *.
  assert (Hst0 : staticPart st0 = staticPart st) by done.
  assert (Hb0 : ∀ e, microBlocksAt st0 e = microBlocksAt st e).
  { intros e. unfold microBlocksAt, st0. simpl. apply at_key_touch. }
  simpl in H. rewrite Hb0 in H.
  destruct (existsb _ (microBlocksAt st (m_currentEpochNum st))) eqn:Hdup;
    [by simplify_eq|].
  rewrite (CoreChecks_static st0 st mb Hst0) in H.
  destruct (CoreChecks E st mb) as [[]|] eqn:Hchk; [|by simplify_eq..].
  apply CoreCommit_inv in H as (Hs & Hbuf & _ & Hstop & Hmb).
  split_and!; [by rewrite Hs|by rewrite Hbuf|done|].
  destruct o as [[]|].
  - destruct Hmb as [Hopen Hmb]. split_and!; [done..|].
    intros e. unfold microBlocksAt at 1. rewrite Hmb.
    rewrite at_key_insert. simpl. rewrite Hb0.
    case_decide; [by subst|]. apply Hb0.
  - intros e. unfold microBlocksAt at 1. rewrite Hmb. apply Hb0.
  - intros e. unfold microBlocksAt at 1. rewrite Hmb. apply Hb0.
Qed.



End Frames.

Section Drain.

Context (E : Externals).

(** *** The shard path does not read the submission buffer *)











(** *** Iteration order of the buffer *)






(** *** The outer loop *)




End Drain.

Section Repair.

Context (E : Externals).

Lemma existsb_hash_elem (h : N) (l : list N) :
  existsb (λ x, x =? h) l = true ↔ h ∈ l.
Proof.
  rewrite existsb_exists. setoid_rewrite <- list_elem_of_In. split.
  - intros (x & Hx & ->%N.eqb_eq). done.
  - intros Hh. exists h. by rewrite N.eqb_refl.
Qed.

Lemma existsb_blockHash_elem (h : N) (l : list MicroBlock) :
  existsb (λ x, GetBlockHash x =? h) l = true ↔ h ∈ (GetBlockHash <$> l).
Proof.
  rewrite existsb_exists. setoid_rewrite <- list_elem_of_In.
  rewrite list_elem_of_fmap. split.
  - intros (x & Hx & Heq%N.eqb_eq). by exists x.
  - intros (x & -> & Hx). exists x. by rewrite N.eqb_refl.
Qed.

Lemma existsb_blockHash_fresh (h : N) (l : list MicroBlock) :
  existsb (λ x, GetBlockHash x =? h) l = false ↔ h ∉ (GetBlockHash <$> l).
Proof.
  rewrite <- existsb_blockHash_elem. by destruct (existsb _ l).
Qed.

(** Lines 610-683 either leave every bucket as it is, or append the item to
    the bucket of the batch epoch. *)
Lemma missingItemCommit_inv st e mb delta st' c :
  missingItemCommit E st e mb delta = (st', c) →
  staticPart st' = staticPart st ∧
  m_MBSubmissionBuffer st' = m_MBSubmissionBuffer st ∧
  m_stopRecvNewMBSubmission st' = m_stopRecvNewMBSubmission st ∧
  (∀ e', missingAt st' e' = missingAt st e') ∧
  ∃ recs,
    coinbaseLedger st' = coinbaseLedger st ++ recs ∧
    Forall (λ r, cb_epochNum r = m_currentEpochNum st) recs ∧
    ((∀ e', microBlocksAt st' e' = microBlocksAt st e') ∨
     (c = NextItem ∧
      GetBlockHash mb ∈ missingAt st e ∧
      (GetBlockHash mb ∉ (GetBlockHash <$> microBlocksAt st e)) ∧
      (GetShardId (GetHeader mb) ≠ vsize (m_shards st) →
       coinbaseRecordOf st mb ∈ recs) ∧
      ∀ e', microBlocksAt st' e' =
              if decide (e = e') then microBlocksAt st e' ++ [mb]
              else microBlocksAt st e')).
Proof.
  unfold missingItemCommit. intros H.
  set (st0 := set_missingMicroBlocks st
                (touch [] e (m_missingMicroBlocks st))) in *.
  assert (Hm0 : ∀ e', missingAt st0 e' = missingAt st e').
  { intros e'. unfold missingAt, st0. simpl. apply at_key_touch. }
  simpl in H. rewrite Hm0 in H.
  replace (microBlocksAt st0 e) with (microBlocksAt st e) in H by done.
  destruct (existsb _ (missingAt st e)) eqn:Hmiss; simpl in H;
    [|simplify_eq; split_and!; try done;
      exists []; rewrite app_nil_r; split_and!; [done|constructor|by left]].
  destruct (existsb _ (microBlocksAt st e)) eqn:Hhave; simpl in H;
    [simplify_eq; split_and!; try done;
     exists []; rewrite app_nil_r; split_and!; [done|constructor|by left]|].
  apply existsb_hash_elem in Hmiss.
  pose proof Hhave as Hfresh. apply existsb_blockHash_fresh in Hfresh.
  destruct (coinbaseStep E st0 mb) as [st1 saved] eqn:H1.
  apply coinbaseStep_inv in H1.
  set (recs := if saved && negb (GetShardId (GetHeader mb) =? vsize (m_shards st0))
               then [coinbaseRecordOf st mb] else []) in *.
  assert (Hrecs : Forall (λ r, cb_epochNum r = m_currentEpochNum st) recs).
  { subst recs. destruct (saved && _); repeat constructor. }
  assert (Hst1 : st1 = set_coinbaseLedger st0 (coinbaseLedger st ++ recs))
    by exact H1.
  assert (Hrec : saved = true →
                 GetShardId (GetHeader mb) ≠ vsize (m_shards st) →
                 coinbaseRecordOf st mb ∈ recs).
  { intros -> Hne. subst recs. simpl.
    replace (m_shards st0) with (m_shards st) by done.
    apply N.eqb_neq in Hne. rewrite Hne. simpl. by left. }
  clear H1. clearbody recs. subst st1.
  destruct saved; simpl in H;
    [|simplify_eq; split_and!; try done; exists recs; split_and!;
      [done|done|by left]].
  match type of H with context [stateDeltaStep E ?s e mb delta] =>
    destruct (stateDeltaStep E s e mb delta) as [st2 applied] eqn:H2 end.
  apply stateDeltaStep_inv in H2 as (acct & agg & deltas & ->).
  destruct applied; simpl in H;
    [|simplify_eq; split_and!; try done; exists recs; split_and!;
      [done|done|by left]].
  match type of H with context [persistStep E ?s mb] =>
    destruct (persistStep E s mb) as [st3 put] eqn:H3 end.
  apply persistStep_inv in H3 as ->.
  destruct put; simpl in H;
    [|simplify_eq; split_and!; try done; exists recs; split_and!;
      [done|done|by left]].
  simplify_eq. split_and!; try done.
  exists recs. split_and!; [done|done|right].
  split_and!; try done.
  - by apply Hrec.
  - intros e'. unfold microBlocksAt at 1. simpl. rewrite at_key_insert.
    case_decide; [|done]. subst e'.
    unfold microBlocksAt at 1. simpl. fold (microBlocksAt st e).
    by rewrite set_emplace_fresh.
Qed.

Lemma missingItem_inv st e mb delta st' c :
  missingItem E st e mb delta = (st', c) →
  staticPart st' = staticPart st ∧
  m_MBSubmissionBuffer st' = m_MBSubmissionBuffer st ∧
  m_stopRecvNewMBSubmission st' = m_stopRecvNewMBSubmission st ∧
  (∀ e', missingAt st' e' = missingAt st e') ∧
  ∃ recs,
    coinbaseLedger st' = coinbaseLedger st ++ recs ∧
    Forall (λ r, cb_epochNum r = m_currentEpochNum st) recs ∧
    ((∀ e', microBlocksAt st' e' = microBlocksAt st e') ∨
     (c = NextItem ∧
      admittedByRepair E st e mb ∧
      (GetShardId (GetHeader mb) ≠ vsize (m_shards st) →
       coinbaseRecordOf st mb ∈ recs) ∧
      ∀ e', microBlocksAt st' e' =
              if decide (e = e') then microBlocksAt st e' ++ [mb]
              else microBlocksAt st e')).
Proof.
  unfold missingItem. intros H.
  assert (Hskip : ∀ c0, (st, c0) = (st', c) →
    staticPart st' = staticPart st ∧
    m_MBSubmissionBuffer st' = m_MBSubmissionBuffer st ∧
    m_stopRecvNewMBSubmission st' = m_stopRecvNewMBSubmission st ∧
    (∀ e', missingAt st' e' = missingAt st e') ∧
    ∃ recs,
      coinbaseLedger st' = coinbaseLedger st ++ recs ∧
      Forall (λ r, cb_epochNum r = m_currentEpochNum st) recs ∧
      ((∀ e', microBlocksAt st' e' = microBlocksAt st e') ∨
       (c = NextItem ∧
        admittedByRepair E st e mb ∧
        (GetShardId (GetHeader mb) ≠ vsize (m_shards st) →
         coinbaseRecordOf st mb ∈ recs) ∧
        ∀ e', microBlocksAt st' e' =
                if decide (e = e') then microBlocksAt st e' ++ [mb]
                else microBlocksAt st e'))).
  { intros c0 ?. simplify_eq. split_and!; try done.
    exists []. rewrite app_nil_r. split_and!; [done|constructor|by left]. }
  destruct (CheckWhetherBlockIsLatest E _ _) eqn:Hfresh; simpl in H;
    [|by eapply Hskip].
  destruct (minerKeyOk st mb) eqn:Hkey; simpl in H; [|by eapply Hskip].
  assert (Hcommit :
    (GetShardId (GetHeader mb) = m_myshardId st ∨
     VerifyMicroBlockCoSignature E st mb (GetShardId (GetHeader mb))
       = Some true) →
    missingItemCommit E st e mb delta = (st', c) →
    staticPart st' = staticPart st ∧
    m_MBSubmissionBuffer st' = m_MBSubmissionBuffer st ∧
    m_stopRecvNewMBSubmission st' = m_stopRecvNewMBSubmission st ∧
    (∀ e', missingAt st' e' = missingAt st e') ∧
    ∃ recs,
      coinbaseLedger st' = coinbaseLedger st ++ recs ∧
      Forall (λ r, cb_epochNum r = m_currentEpochNum st) recs ∧
      ((∀ e', microBlocksAt st' e' = microBlocksAt st e') ∨
       (c = NextItem ∧
        admittedByRepair E st e mb ∧
        (GetShardId (GetHeader mb) ≠ vsize (m_shards st) →
         coinbaseRecordOf st mb ∈ recs) ∧
        ∀ e', microBlocksAt st' e' =
                if decide (e = e') then microBlocksAt st e' ++ [mb]
                else microBlocksAt st e'))).
  { intros Hsig Hc.
    apply missingItemCommit_inv in Hc
      as (Hs & Hb & Hstop & Hm & recs & Hl & Hep & Hcase).
    split_and!; try done. exists recs. split_and!; try done.
    destruct Hcase as [Hsame|(-> & Hmiss & Hnew & Hcb & Hupd)]; [by left|].
    right. split_and!; try done. }
  destruct (N.eqb_spec (GetShardId (GetHeader mb)) (m_myshardId st))
    as [Hown|Hother]; simpl in H.
  - apply Hcommit; [by left|done].
  - destruct (VerifyMicroBlockCoSignature E st mb (GetShardId (GetHeader mb)))
      as [[]|] eqn:Hsig; [|by eapply Hskip..].
    apply Hcommit; [by right|done].
Qed.

Lemma admittedByRepair_earlier st1 st e mb pre :
  staticPart st1 = staticPart st →
  (∀ e', missingAt st1 e' = missingAt st e') →
  microBlocksAt st1 e = microBlocksAt st e ++ pre →
  admittedByRepair E st1 e mb → admittedByRepair E st e mb.
Proof.
  intros Hs Hm Hb (Hfresh & Hkey & Hsig & Hmiss & Hnew).
  unfold admittedByRepair.
  rewrite <- (minerKeyOk_static st1 st mb Hs).
  rewrite <- (VerifyMicroBlockCoSignature_static E st1 st mb _ Hs).
  rewrite <- Hm.
  apply staticPart_inv in Hs as (_ & _ & _ & _ & <- & _).
  split_and!; try done.
  intros Hin. apply Hnew. rewrite Hb, fmap_app, elem_of_app. by left.
Qed.

(** The loop only ever appends to the bucket of the batch epoch, every
    appended item was admitted, and every coinbase record it writes carries
    the current epoch. *)
Lemma missingLoop_inv items : ∀ st e st' c,
  missingLoop E st e items = (st', c) →
  staticPart st' = staticPart st ∧
  m_MBSubmissionBuffer st' = m_MBSubmissionBuffer st ∧
  m_stopRecvNewMBSubmission st' = m_stopRecvNewMBSubmission st ∧
  (∀ e', missingAt st' e' = missingAt st e') ∧
  ∃ recs added,
    coinbaseLedger st' = coinbaseLedger st ++ recs ∧
    Forall (λ r, cb_epochNum r = m_currentEpochNum st) recs ∧
    (∀ e', microBlocksAt st' e' =
             if decide (e = e') then microBlocksAt st e' ++ added
             else microBlocksAt st e') ∧
    Forall (λ mb, mb ∈ items.*1 ∧ admittedByRepair E st e mb ∧
                  (GetShardId (GetHeader mb) ≠ vsize (m_shards st) →
                   coinbaseRecordOf st mb ∈ recs)) added ∧
    (NoDup (GetBlockHash <$> microBlocksAt st e) →
     NoDup (GetBlockHash <$> (microBlocksAt st e ++ added))).
Proof.
  induction items as [|[mb delta] rest IH]; intros st e st' c H.
  - simpl in H. simplify_eq. split_and!; try done.
    exists [], []. rewrite !app_nil_r. split_and!; try done.
    intros e'. case_decide; [by rewrite app_nil_r|done].
  - simpl in H.
    destruct (missingItem E st e mb delta) as [st1 c1] eqn:Hitem.
    apply missingItem_inv in Hitem
      as (Hs1 & Hb1 & Hstop1 & Hm1 & recs1 & Hl1 & Hep1 & Hcase).
    assert (Hstops : c1 ≠ NextItem → st' = st1 ∧
                       ∀ e', microBlocksAt st1 e' = microBlocksAt st e').
    { intros Hc1. destruct Hcase as [Hsame|[-> _]]; [|done].
      split; [|done]. by destruct c1; simplify_eq. }
    destruct (decide (c1 = NextItem)) as [->|Hc1].
    2:{ destruct (Hstops Hc1) as [-> Hsame].
        split_and!; try done.
        exists recs1, []. split_and!; try done.
        - intros e'. rewrite Hsame. case_decide; [by rewrite app_nil_r|done].
        - by rewrite app_nil_r. }
    apply IH in H as (Hs & Hb & Hstop & Hm & recs & added & Hl & Hep & Hupd
                      & Hadm & Hnd).
    pose proof Hs1 as (Hsh & _ & _ & Hcur & _)%staticPart_inv.
    split_and!.
    + by rewrite Hs.
    + by rewrite Hb.
    + by rewrite Hstop.
    + intros e'. by rewrite Hm.
    + destruct Hcase as [Hsame|(_ & Hadm1 & Hcb1 & Hupd1)].
      * (* the item was skipped *)
        exists (recs1 ++ recs), added. split_and!.
        -- by rewrite Hl, Hl1, app_assoc.
        -- apply Forall_app. split; [done|]. by rewrite <- Hcur.
        -- intros e'. rewrite Hupd, !Hsame. done.
        -- eapply Forall_impl; [exact Hadm|]. simpl.
           intros x (Hx & Hax & Hcx). split_and!.
           ++ simpl. by right.
           ++ eapply (admittedByRepair_earlier st1 st e x []); try done.
              by rewrite Hsame, app_nil_r.
           ++ intros Hne. rewrite elem_of_app. right.
              unfold coinbaseRecordOf in *. rewrite <- Hcur.
              apply Hcx. by rewrite Hsh.
        -- rewrite <- Hsame. done.
      * (* the item was inserted *)
        pose proof (Hupd1 e) as Hbe. rewrite decide_True in Hbe by done.
        exists (recs1 ++ recs), (mb :: added). split_and!.
        -- by rewrite Hl, Hl1, app_assoc.
        -- apply Forall_app. split; [done|]. by rewrite <- Hcur.
        -- intros e'. rewrite Hupd, Hupd1.
           case_decide; [|done]. by rewrite <- app_assoc.
        -- constructor.
           ++ split_and!; [by left|done|].
              intros Hne. rewrite elem_of_app. left. by apply Hcb1.
           ++ eapply Forall_impl; [exact Hadm|]. simpl.
              intros x (Hx & Hax & Hcx). split_and!.
              ** by right.
              ** by eapply (admittedByRepair_earlier st1 st e x [mb]).
              ** intros Hne. rewrite elem_of_app. right.
                 unfold coinbaseRecordOf in *. rewrite <- Hcur.
                 apply Hcx. by rewrite Hsh.
        -- intros Hnd0.
           replace (microBlocksAt st e ++ mb :: added)
             with ((microBlocksAt st e ++ [mb]) ++ added)
             by (by rewrite <- app_assoc).
           rewrite <- Hbe. apply Hnd. rewrite Hbe, fmap_app.
           apply NoDup_app. split_and!; [done| |apply NoDup_singleton].
           intros h Hh ->%list_elem_of_singleton.
           by destruct Hadm1 as (_ & _ & _ & _ & Hnew).
Qed.

Lemma elem_of_zip_fst {A B} (l : list A) (k : list B) x :
  x ∈ (zip l k).*1 → x ∈ l.
Proof.
  intros ([a b] & -> & Hab)%list_elem_of_fmap. by apply elem_of_zip_l in Hab.
Qed.

Lemma ProcessMissing_inv st e mbs deltas st' o :
  ProcessMissingMicroblockSubmission E st e mbs deltas = (st', o) →
  staticPart st' = staticPart st ∧
  m_MBSubmissionBuffer st' = m_MBSubmissionBuffer st ∧
  m_stopRecvNewMBSubmission st' = m_stopRecvNewMBSubmission st ∧
  (∀ e', missingAt st' e' = missingAt st e') ∧
  ∃ recs added,
    coinbaseLedger st' = coinbaseLedger st ++ recs ∧
    Forall (λ r, cb_epochNum r = m_currentEpochNum st) recs ∧
    (∀ e', microBlocksAt st' e' =
             if decide (e = e') then microBlocksAt st e' ++ added
             else microBlocksAt st e') ∧
    Forall (λ mb, mb ∈ mbs ∧ admittedByRepair E st e mb ∧
                  (GetShardId (GetHeader mb) ≠ vsize (m_shards st) →
                   coinbaseRecordOf st mb ∈ recs)) added ∧
    (NoDup (GetBlockHash <$> microBlocksAt st e) →
     NoDup (GetBlockHash <$> (microBlocksAt st e ++ added))).
Proof.
  unfold ProcessMissingMicroblockSubmission. intros H.
  set (st0 := set_microBlocks st (touch [] e (m_microBlocks st))) in *.
  assert (Hb0 : ∀ e', microBlocksAt st0 e' = microBlocksAt st e').
  { intros e'. unfold microBlocksAt, st0. simpl. apply at_key_touch. }
  assert (Hs0 : staticPart st0 = staticPart st) by done.
  assert (Hm0 : ∀ e', missingAt st0 e' = missingAt st e') by done.
  simpl in H.
  destruct (vsize mbs =? vsize deltas); simpl in H.
  2:{ simplify_eq. split_and!; try done.
      exists [], []. rewrite !app_nil_r. split_and!; try done.
      intros e'. rewrite Hb0. case_decide; [by rewrite app_nil_r|done]. }
  destruct (missingLoop E st0 e (zip mbs deltas)) as [st1 c] eqn:Hloop.
  apply missingLoop_inv in Hloop
    as (Hs & Hb & Hstop & Hm & recs & added & Hl & Hep & Hupd & Hadm & Hnd).
  assert (Hgoal :
    staticPart st1 = staticPart st ∧
    m_MBSubmissionBuffer st1 = m_MBSubmissionBuffer st ∧
    m_stopRecvNewMBSubmission st1 = m_stopRecvNewMBSubmission st ∧
    (∀ e', missingAt st1 e' = missingAt st e') ∧
    ∃ recs added,
      coinbaseLedger st1 = coinbaseLedger st ++ recs ∧
      Forall (λ r, cb_epochNum r = m_currentEpochNum st) recs ∧
      (∀ e', microBlocksAt st1 e' =
               if decide (e = e') then microBlocksAt st e' ++ added
               else microBlocksAt st e') ∧
      Forall (λ mb, mb ∈ mbs ∧ admittedByRepair E st e mb ∧
                    (GetShardId (GetHeader mb) ≠ vsize (m_shards st) →
                     coinbaseRecordOf st mb ∈ recs)) added ∧
      (NoDup (GetBlockHash <$> microBlocksAt st e) →
       NoDup (GetBlockHash <$> (microBlocksAt st e ++ added)))).
  { split_and!; try done.
    exists recs, added. split_and!; try done.
    - intros e'. rewrite Hupd, !Hb0. done.
    - eapply Forall_impl; [exact Hadm|]. simpl.
      intros x (Hx & Hax & Hcx). split_and!.
      + by apply elem_of_zip_fst in Hx.
      + eapply (admittedByRepair_earlier st0 st e x []); try done.
        by rewrite Hb0, app_nil_r.
      + done.
    - rewrite <- Hb0. done. }
  destruct c; [|by simplify_eq..].
  destruct (CheckMicroBlocks E st1); simpl in H; by simplify_eq.
Qed.

End Repair.

Section ShardPath.

Context (E : Externals).

(** Whatever holds between the states before and after one run of
    [ProcessMicroblockSubmissionFromShardCore], is insensitive to the
    submission buffer and composes, also holds across the dispatcher and
    across the drain: both reach [m_microBlocks] only through that function. *)
Lemma shard_path_closure (R : relation DirectoryService) :
  PreOrder R →
  (∀ st b, R st (set_MBSubmissionBuffer st b)) →
  (∀ st mb delta,
     R st (ProcessMicroblockSubmissionFromShardCore E st mb delta).1) →
  (∀ st ep mbs deltas,
     R st (ProcessMicroblockSubmissionFromShard E st ep mbs deltas).1) ∧
  (∀ st, R st (CommitMBSubmissionMsgBuffer E st).1).
Proof.
  intros HR Hbuf Hcore. split.
  - intros st ep mbs deltas. unfold ProcessMicroblockSubmissionFromShard.
    destruct mbs as [|mb mbs]; [done|]. destruct deltas as [|d deltas]; [done|].
    repeat case_match; simpl; try done; apply Hbuf.
  - assert (Hentries : ∀ entries st, R st (processEntries E entries st).1).
    { induction entries as [|en entries IH]; intros st; [done|]. simpl.
      pose proof (Hcore st (m_microBlock en) (m_stateDelta en)) as Hc.
      destruct (ProcessMicroblockSubmissionFromShardCore E st _ _)
        as [st1 [ok|]]; simpl in *; [|done].
      by etrans. }
    assert (Hloop : ∀ its st, R st (commitLoop E its st).1).
    { induction its as [|k its IH]; intros st; [done|]. simpl.
      repeat case_match; simpl.
      - etrans; [apply Hbuf|apply IH].
      - match goal with H : processEntries _ _ _ = _ |- _ =>
          pose proof (Hentries (at_key [] k (m_MBSubmissionBuffer st)) st)
            as Hp; rewrite H in Hp end.
        etrans; [exact Hp|apply Hbuf].
      - match goal with H : processEntries _ _ _ = _ |- _ =>
          pose proof (Hentries (at_key [] k (m_MBSubmissionBuffer st)) st)
            as Hp; by rewrite H in Hp end.
      - apply IH. }
    intros st. apply Hloop.
Qed.

End ShardPath.

(** * Main results *)

Section MainResults.

Context (E : Externals).

(** C4. [VerifyMicroBlockCoSignature] fails for a shard id above the number
    of shards; it verifies against the DS committee when the shard id equals
    the number of shards and against [shards[shardId]] when it is smaller; it
    fails when the size of the selected committee differs from the size of
    B2; and it fails unless the number of set bits of B2 is exactly
    quorum(|B2|) = ceil(2|B2|/3) + 1: for |B2| = 10 exactly 8 signers are
    required and 7 set bits are rejected.  (Bitmaps are below 2^32 bits, the
    range of the code's [unsigned int] counters.) *)
Theorem verify_cosignature_rules st mb shardId :
  vsize (GetB2 mb) < 2 ^ 32 →
  let verdict := VerifyMicroBlockCoSignature E st mb shardId in
  (vsize (m_shards st) < shardId → verdict = Some false) ∧
  (shardId = vsize (m_shards st) →
   verdict = Some (verifyAgainst E (m_DSCommittee st).*1 mb)) ∧
  (∀ shard, m_shards st !! N.to_nat shardId = Some shard →
            shardId < vsize (m_shards st) →
            verdict = Some (verifyAgainst E (SHARD_NODE_PUBKEY <$> shard) mb)) ∧
  (∀ C, selectedCommittee st shardId = Some C →
        length C ≠ length (GetB2 mb) → verdict = Some false) ∧
  (verdict = Some true →
   countTrue (GetB2 mb) = NumForConsensus (vsize (GetB2 mb))) ∧
  (vsize (GetB2 mb) = 10 →
   (verdict = Some true → countTrue (GetB2 mb) = 8) ∧
   (countTrue (GetB2 mb) = 7 → verdict = Some false)).
Proof.
  intros Hsz verdict.
  assert (Hspec := VerifyMicroBlockCoSignature_spec E st mb shardId Hsz).
  fold verdict in Hspec.
  assert (Hquorum : verdict = Some true →
            countTrue (GetB2 mb) = NumForConsensus (vsize (GetB2 mb))).
  { rewrite Hspec. intros [= Hv].
    destruct (selectedCommittee st shardId) as [C|]; [|done].
    unfold verifyAgainst in Hv.
    apply andb_prop in Hv as [[Hlen%bool_decide_eq_true
                               Hq%bool_decide_eq_true]%andb_prop _].
    by rewrite <- (signersOf_length C (GetB2 mb) Hlen). }
  split_and!.
  - intros Hgt. rewrite Hspec. unfold selectedCommittee.
    rewrite decide_False by lia.
    unfold vsize in Hgt.
    by rewrite (lookup_ge_None_2 (m_shards st) (N.to_nat shardId)) by lia.
  - intros ->. rewrite Hspec. unfold selectedCommittee.
    by rewrite decide_True.
  - intros shard Hshard Hlt. rewrite Hspec. unfold selectedCommittee.
    rewrite decide_False by lia. by rewrite Hshard.
  - intros C HC Hlen. rewrite Hspec, HC. unfold verifyAgainst.
    by rewrite (bool_decide_eq_false_2 _ Hlen).
  - done.
  - intros H10. split.
    + intros Hv. rewrite (Hquorum Hv), H10. done.
    + intros H7. destruct verdict as [[]|] eqn:Hv; [|done|done].
      specialize (Hquorum eq_refl). rewrite H10, H7 in Hquorum. done.
Qed.

(** C5, as the code has it.  Outside lookup mode and with an expected hash
    that [charArrToHexStr] can print, [ProcessStateDelta] does this: a zero
    expected hash returns true and changes nothing, whatever the delta; a
    non-zero hash with an empty delta returns false; a non-zero hash with a
    non-empty delta returns false when sha256(delta) differs from it.
    Otherwise the delta is handed to the account store.  When both
    account-store calls succeed the result is true, the delta is applied, and
    [m_microBlockStateDeltas[currentEpoch][blockHash]] holds the delta if the
    block hash had no entry and the entry it had if it had one: the
    [emplace] records nothing over an earlier entry.  When an account-store
    call fails the result is false and nothing is recorded. *)
Theorem process_state_delta_policy st delta expectedHash blockHash :
  LOOKUP_NODE_MODE E = false →
  charArrToHexStr E expectedHash = true →
  let result := ProcessStateDelta E st delta expectedHash blockHash in
  let cur := m_currentEpochNum st in
  let acct := accountStoreTemp st ++ [delta] in
  (expectedHash = ZeroHash → result = (st, true)) ∧
  (expectedHash ≠ ZeroHash → delta = [] → result = (st, false)) ∧
  (expectedHash ≠ ZeroHash → delta ≠ [] →
   sha256 E delta ≠ expectedHash → result = (st, false)) ∧
  (expectedHash ≠ ZeroHash → delta ≠ [] →
   sha256 E delta = expectedHash →
   if DeserializeDeltaTemp E (accountStoreTemp st) delta &&
      SerializeDelta E acct
   then result.2 = true ∧
        accountStoreTemp result.1 = acct ∧
        m_stateDeltaFromShards result.1 = GetSerializedDelta E acct ∧
        at_key ∅ cur (m_microBlockStateDeltas result.1) !! blockHash =
          Some (default delta
                  (at_key ∅ cur (m_microBlockStateDeltas st) !! blockHash)) ∧
        m_microBlocks result.1 = m_microBlocks st
   else result.2 = false ∧
        m_microBlockStateDeltas result.1 = m_microBlockStateDeltas st ∧
        m_stateDeltaFromShards result.1 = m_stateDeltaFromShards st).
Proof.
  intros Hlookup Hhex result cur acct. subst result.
  unfold ProcessStateDelta. rewrite Hlookup, Hhex. simpl.
  split_and!.
  - intros ->. done.
  - intros Hnz ->. apply N.eqb_neq in Hnz. by rewrite Hnz.
  - intros Hnz Hne Hsha. apply N.eqb_neq in Hnz, Hsha. rewrite Hnz.
    destruct delta; [done|]. by rewrite Hsha.
  - intros Hnz Hne Hsha. apply N.eqb_neq in Hnz. rewrite Hnz.
    destruct delta as [|b delta]; [done|].
    rewrite Hsha, N.eqb_refl. simpl.
    destruct (DeserializeDeltaTemp E (accountStoreTemp st) (b :: delta));
      simpl; [|done].
    fold acct. destruct (SerializeDelta E acct); simpl; [|done].
    split_and!; try done.
    rewrite at_key_insert, decide_True by done.
    unfold map_emplace. fold cur.
    destruct (at_key ∅ cur (m_microBlockStateDeltas st) !! blockHash)
      as [old|] eqn:Hold; simpl.
    + done.
    + by rewrite lookup_insert_eq.
Qed.

(** C7. [ProcessMicroblockSubmissionFromShard] rejects empty inputs; for
    an epoch after the current one, or for the current epoch while the state
    PROCESS_MICROBLOCKSUBMISSION is not active, it appends
    (microblocks[0], deltas[0]) to [m_MBSubmissionBuffer[epoch]] and returns
    true, touching nothing else; for the current epoch with the state active
    it is [ProcessMicroblockSubmissionFromShardCore] on that pair; for an
    earlier epoch it returns false and leaves the state as it is. *)
Theorem dispatch_shard_submission_table st epoch mbs deltas :
  let result := ProcessMicroblockSubmissionFromShard E st epoch mbs deltas in
  let cur := m_currentEpochNum st in
  let active := CheckState E (m_state st) PROCESS_MICROBLOCKSUBMISSION in
  (mbs = [] ∨ deltas = [] → result = (st, Returns false)) ∧
  (∀ mb mbs' delta deltas',
     mbs = mb :: mbs' → deltas = delta :: deltas' →
     (cur < epoch ∨ (cur = epoch ∧ active = false) →
      result.2 = Returns true ∧
      m_MBSubmissionBuffer result.1 !! epoch =
        Some (at_key [] epoch (m_MBSubmissionBuffer st) ++
                [{| m_microBlock := mb; m_stateDelta := delta |}]) ∧
      (∀ k, k ≠ epoch →
            m_MBSubmissionBuffer result.1 !! k = m_MBSubmissionBuffer st !! k) ∧
      result.1 = set_MBSubmissionBuffer st (m_MBSubmissionBuffer result.1)) ∧
     (cur = epoch ∧ active = true →
      result = ProcessMicroblockSubmissionFromShardCore E st mb delta) ∧
     (epoch < cur → result = (st, Returns false))).
Proof.
  intros result cur active. subst result.
  unfold ProcessMicroblockSubmissionFromShard. split.
  - intros [-> | ->]; [done|]. by destruct mbs.
  - intros mb mbs' delta deltas' -> ->. fold cur. fold active.
    assert (Hbuffered :
      let st' := bufferSubmission st epoch mb delta in
      m_MBSubmissionBuffer st' !! epoch =
        Some (at_key [] epoch (m_MBSubmissionBuffer st) ++
                [{| m_microBlock := mb; m_stateDelta := delta |}]) ∧
      (∀ k, k ≠ epoch →
            m_MBSubmissionBuffer st' !! k = m_MBSubmissionBuffer st !! k) ∧
      st' = set_MBSubmissionBuffer st (m_MBSubmissionBuffer st')).
    { simpl. split_and!.
      - by rewrite lookup_insert_eq.
      - intros k Hk. by rewrite lookup_insert_ne.
      - done. }
    split_and!.
    + intros [Hlt | [Heq Hoff]].
      * apply N.ltb_lt in Hlt. rewrite Hlt. by split.
      * rewrite Heq, N.ltb_irrefl, N.eqb_refl, Hoff. by split.
    + intros [Heq Hon]. by rewrite Heq, N.ltb_irrefl, N.eqb_refl, Hon.
    + intros Hlt.
      destruct (N.ltb_spec cur epoch); [lia|].
      destruct (N.eqb_spec cur epoch); [lia|]. done.
Qed.


Lemma Core_unfold st mb delta :
  LOOKUP_NODE_MODE E = false →
  existsb (λ x, GetShardId (GetHeader x) =? GetShardId (GetHeader mb))
    (microBlocksAt st (m_currentEpochNum st)) = false →
  CoreChecks E st mb = Returns true →
  ProcessMicroblockSubmissionFromShardCore E st mb delta =
  CoreCommit E
    (set_microBlocks st (touch [] (m_currentEpochNum st) (m_microBlocks st)))
    mb delta.
Proof.
  intros Hlookup Hdup Hchk. unfold ProcessMicroblockSubmissionFromShardCore.
  rewrite Hlookup.
  set (st0 := set_microBlocks st _).
  replace (microBlocksAt st0 (m_currentEpochNum st))
    with (microBlocksAt st (m_currentEpochNum st))
    by (unfold microBlocksAt, st0; simpl; by rewrite at_key_touch).
  simpl. rewrite Hdup.
  by rewrite (CoreChecks_static E st0 st mb eq_refl), Hchk.
Qed.

Lemma CoreCommit_accepted st mb delta st' :
  CoreCommit E st mb delta = (st', Returns true) →
  ∃ st1 st2 st3,
    coinbaseStep E st mb = (st1, true) ∧
    persistStep E st1 mb = (st2, true) ∧
    stateDeltaStep E st2 (m_currentEpochNum st) mb delta = (st3, true).
Proof.
  unfold CoreCommit. intros H.
  destruct (m_stopRecvNewMBSubmission st); [done|].
  destruct (coinbaseStep E st mb) as [st1 []] eqn:H1; simpl in H; [|done].
  destruct (persistStep E st1 mb) as [st2 []] eqn:H2; simpl in H; [|done].
  destruct (stateDeltaStep E st2 (m_currentEpochNum st) mb delta)
    as [st3 []] eqn:H3; simpl in H; [|done].
  by exists st1, st2, st3.
Qed.

(** C10. In the shard submission path the accepted set changes only when
    the call returns true, after every check and every step has succeeded,
    so a rejection leaves it as it was.  A rejection is not atomic for the
    collaborators: when the state-delta step fails, the coinbase record and
    the stored block written before it stay. *)
Theorem shard_rejection_effects st mb delta :
  let cur := m_currentEpochNum st in
  let st0 := set_microBlocks st (touch [] cur (m_microBlocks st)) in
  let result := ProcessMicroblockSubmissionFromShardCore E st mb delta in
  let duplicate :=
    existsb (λ x, GetShardId (GetHeader x) =? GetShardId (GetHeader mb))
      (microBlocksAt st cur) in
  (∀ e, microBlocksAt result.1 e ≠ microBlocksAt st e →
        result.2 = Returns true ∧
        duplicate = false ∧
        CoreChecks E st mb = Returns true ∧
        m_stopRecvNewMBSubmission st = false ∧
        ∃ st1 st2 st3,
          coinbaseStep E st0 mb = (st1, true) ∧
          persistStep E st1 mb = (st2, true) ∧
          stateDeltaStep E st2 cur mb delta = (st3, true)) ∧
  (result.2 ≠ Returns true →
   ∀ e, microBlocksAt result.1 e = microBlocksAt st e) ∧
  (∀ st1 st2 st3,
     LOOKUP_NODE_MODE E = false →
     duplicate = false →
     CoreChecks E st mb = Returns true →
     m_stopRecvNewMBSubmission st = false →
     coinbaseStep E st0 mb = (st1, true) →
     persistStep E st1 mb = (st2, true) →
     stateDeltaStep E st2 cur mb delta = (st3, false) →
     result = (st3, Returns false) ∧
     coinbaseLedger st3 = coinbaseLedger st ++ [coinbaseRecordOf st mb] ∧
     blockStorage st3 =
       blockStorage st ++
         [{| sb_blockHash := GetBlockHash mb;
             sb_epochNum := GetEpochNum (GetHeader mb);
             sb_shardId := GetShardId (GetHeader mb);
             sb_body := SerializeMicroBlock E mb |}] ∧
     ∀ e, microBlocksAt st3 e = microBlocksAt st e).
Proof.
  intros cur st0 result duplicate.
  destruct result as [st' o] eqn:Hres. subst result.
  pose proof (Core_inv E st mb delta st' o Hres) as (_ & _ & _ & Hcase).
  assert (Hrej : o ≠ Returns true →
                 ∀ e, microBlocksAt st' e = microBlocksAt st e).
  { intros Ho e. destruct (LOOKUP_NODE_MODE E).
    - by destruct Hcase as [-> _].
    - destruct o as [[]|]; [done|apply Hcase..]. }
  split_and!.
  - intros e Hchanged. simpl in *.
    destruct (decide (o = Returns true)) as [->|Ho];
      [|by destruct Hchanged; apply Hrej].
    destruct (LOOKUP_NODE_MODE E) eqn:Hlookup.
    { destruct Hcase as [-> _]. done. }
    destruct Hcase as (Hdup & Hchk & Hopen & _).
    split_and!; try done.
    rewrite (Core_unfold st mb delta Hlookup Hdup Hchk) in Hres.
    by apply CoreCommit_accepted in Hres.
  - done.
  - intros st1 st2 st3 Hlookup Hdup Hchk Hopen H1 H2 H3.
    rewrite (Core_unfold st mb delta Hlookup Hdup Hchk) in Hres.
    fold cur st0 in Hres.
    assert (Hc : CoreCommit E st0 mb delta = (st3, Returns false)).
    { unfold CoreCommit.
      replace (m_stopRecvNewMBSubmission st0)
        with (m_stopRecvNewMBSubmission st) by done.
      rewrite Hopen, H1. simpl. rewrite H2. simpl.
      unfold cur in H3. by rewrite H3. }
    rewrite Hc in Hres. simplify_eq.
    apply CoreChecks_passed in Hchk as (_ & _ & _ & Hrange & _).
    apply coinbaseStep_inv in H1. apply persistStep_inv in H2.
    apply stateDeltaStep_inv in H3 as (acct & agg & deltas & ->).
    subst st2 st1. simpl.
    replace (m_shards st0) with (m_shards st) by done.
    assert (Hne : (GetShardId (GetHeader mb) =? vsize (m_shards st)) = false)
      by (apply N.eqb_neq; lia).
    rewrite Hne. simpl. split_and!; try done.
    intros e. apply (Hrej ltac:(done) e).
Qed.

(** C6. In [ProcessMissingMicroblockSubmission] a failed freshness check
    and a failed persistence write end the whole batch with false; a failed
    authority check, co-signature check, missing-list lookup, already-present
    test, coinbase record or state-delta application only skips the item: the
    loop goes on with the next one and the item is not inserted.  The
    co-signature is not looked at for an item of the node's own shard. *)
Theorem repair_abort_and_skip st e mb delta rest :
  let hdr := GetHeader mb in
  let fresh :=
    CheckWhetherBlockIsLatest E (wrap64 (GetDSBlockNum hdr + 1))
      (GetEpochNum hdr) in
  let own := GetShardId hdr =? m_myshardId st in
  let cosig := VerifyMicroBlockCoSignature E st mb (GetShardId hdr) in
  let listed :=
    existsb (λ h, h =? GetBlockHash mb) (missingAt st e) in
  let present :=
    existsb (λ x, GetBlockHash x =? GetBlockHash mb) (microBlocksAt st e) in
  let st0 :=
    set_missingMicroBlocks st (touch [] e (m_missingMicroBlocks st)) in
  let here := missingLoop E st e ((mb, delta) :: rest) in
  let commit := missingItemCommit E st e mb delta in
  (* steps 1 to 3 *)
  (fresh = false → here = (st, ReturnFalse)) ∧
  (fresh = true → minerKeyOk st mb = false →
   here = missingLoop E st e rest) ∧
  (fresh = true → minerKeyOk st mb = true → own = false →
   cosig = Some false → here = missingLoop E st e rest) ∧
  (fresh = true → minerKeyOk st mb = true →
   own = true ∨ cosig = Some true →
   missingItem E st e mb delta = commit) ∧
  (* steps 4 to 8 *)
  (listed = false → commit = (st0, NextItem)) ∧
  (listed = true → present = true → commit = (st0, NextItem)) ∧
  (∀ st1, listed = true → present = false →
          coinbaseStep E st0 mb = (st1, false) →
          commit = (st1, NextItem) ∧ m_microBlocks st1 = m_microBlocks st) ∧
  (∀ st1 st2, listed = true → present = false →
              coinbaseStep E st0 mb = (st1, true) →
              stateDeltaStep E st1 e mb delta = (st2, false) →
              commit = (st2, NextItem) ∧
              m_microBlocks st2 = m_microBlocks st) ∧
  (∀ st1 st2 st3, listed = true → present = false →
                  coinbaseStep E st0 mb = (st1, true) →
                  stateDeltaStep E st1 e mb delta = (st2, true) →
                  persistStep E st2 mb = (st3, false) →
                  commit = (st3, ReturnFalse)) ∧
  (* what the loop and the function do with the two ways out *)
  (∀ st', missingItem E st e mb delta = (st', NextItem) →
          here = missingLoop E st' e rest) ∧
  (∀ st', missingItem E st e mb delta = (st', ReturnFalse) →
          here = (st', ReturnFalse)) ∧
  (∀ mbs deltas st',
     length mbs = length deltas →
     missingLoop E (set_microBlocks st (touch [] e (m_microBlocks st))) e
       (zip mbs deltas) = (st', ReturnFalse) →
     ProcessMissingMicroblockSubmission E st e mbs deltas
       = (st', Returns false)).
Proof.
  intros hdr fresh own cosig listed present st0 here commit.
  assert (Hm0 : missingAt st0 e = missingAt st e).
  { unfold missingAt, st0. simpl. apply at_key_touch. }
  assert (Hb0 : microBlocksAt st0 e = microBlocksAt st e) by done.
  assert (Hcommit : commit =
    if negb listed then (st0, NextItem)
    else if present then (st0, NextItem)
    else
      let '(st1, saved) := coinbaseStep E st0 mb in
      if negb saved then (st1, NextItem)
      else
        let '(st2, applied) := stateDeltaStep E st1 e mb delta in
        if negb applied then (st2, NextItem)
        else
          let '(st3, put) := persistStep E st2 mb in
          if negb put then (st3, ReturnFalse)
          else
            (set_microBlocks st3
               (<[e := set_emplace mb (microBlocksAt st3 e)]>
                  (m_microBlocks st3)),
             NextItem)).
  { subst commit. unfold missingItemCommit. simpl. fold st0.
    by rewrite Hm0, Hb0. }
  assert (Hhere : here =
    match missingItem E st e mb delta with
    | (st1, NextItem) => missingLoop E st1 e rest
    | stop => stop
    end) by done.
  assert (Hitem : missingItem E st e mb delta =
    if negb fresh then (st, ReturnFalse)
    else if negb (minerKeyOk st mb) then (st, NextItem)
    else if negb own then
      match cosig with
      | None => (st, Escapes)
      | Some false => (st, NextItem)
      | Some true => commit
      end
    else commit) by done.
  clearbody here commit.
  split_and!.
  - intros Hf. by rewrite Hhere, Hitem, Hf.
  - intros Hf Hk. by rewrite Hhere, Hitem, Hf, Hk.
  - intros Hf Hk Ho Hs. by rewrite Hhere, Hitem, Hf, Hk, Ho, Hs.
  - intros Hf Hk [Ho | Hs]; rewrite Hitem, Hf, Hk; simpl.
    + by rewrite Ho.
    + rewrite Hs. by destruct own.
  - intros Hl. by rewrite Hcommit, Hl.
  - intros Hl Hp. by rewrite Hcommit, Hl, Hp.
  - intros st1 Hl Hp H1. rewrite Hcommit, Hl, Hp, H1. simpl.
    split; [done|]. apply coinbaseStep_inv in H1 as ->. done.
  - intros st1 st2 Hl Hp H1 H2. rewrite Hcommit, Hl, Hp, H1. simpl.
    rewrite H2. simpl. split; [done|].
    apply coinbaseStep_inv in H1 as ->.
    apply stateDeltaStep_inv in H2 as (? & ? & ? & ->). done.
  - intros st1 st2 st3 Hl Hp H1 H2 H3. rewrite Hcommit, Hl, Hp, H1. simpl.
    rewrite H2. simpl. by rewrite H3.
  - intros st' Hi. by rewrite Hhere, Hi.
  - intros st' Hi. by rewrite Hhere, Hi.
  - intros mbs deltas st' Hlen Hloop.
    unfold ProcessMissingMicroblockSubmission.
    unfold vsize. rewrite Hlen, N.eqb_refl. simpl. by rewrite Hloop.
Qed.

(** C9. In the repair path every coinbase record is written under the
    node's current epoch, not under the epoch of the batch, while every
    inserted microblock goes to [m_microBlocks[epochNumber]]; so when the two
    epochs differ (which the operation only logs), the coinbase record of an
    accepted microblock of a normal shard and its entry in [m_microBlocks]
    are keyed to different epochs. *)
Theorem repair_coinbase_epoch st epochNumber mbs deltas :
  let st' := (ProcessMissingMicroblockSubmission E st epochNumber mbs deltas).1 in
  let cur := m_currentEpochNum st in
  ∃ recs,
    coinbaseLedger st' = coinbaseLedger st ++ recs ∧
    Forall (λ r, cb_epochNum r = cur) recs ∧
    ∀ e x,
      x ∈ microBlocksAt st' e → x ∉ microBlocksAt st e →
      e = epochNumber ∧ x ∈ mbs ∧
      (GetShardId (GetHeader x) ≠ vsize (m_shards st) →
       coinbaseRecordOf st x ∈ recs ∧
       cb_epochNum (coinbaseRecordOf st x) = cur ∧
       (epochNumber ≠ cur → cb_epochNum (coinbaseRecordOf st x) ≠ e)).
Proof.
  intros st' cur. subst st'.
  destruct (ProcessMissingMicroblockSubmission E st epochNumber mbs deltas)
    as [st' o] eqn:Hres.
  apply ProcessMissing_inv in Hres
    as (_ & _ & _ & _ & recs & added & Hl & Hep & Hupd & Hadm & _).
  exists recs. split_and!; [done..|].
  simpl. intros e x Hin Hnew. rewrite Hupd in Hin.
  destruct (decide (epochNumber = e)) as [<-|Hne]; [|done].
  apply elem_of_app in Hin as [?|Hin]; [done|].
  rewrite Forall_forall in Hadm. destruct (Hadm x Hin) as (Hx & _ & Hcb).
  split_and!; try done. intros Hnds. split_and!; [by apply Hcb|done|].
  simpl. fold cur. congruence.
Qed.

(** What one run of the shard path may add to the accepted set. *)
Lemma Core_added st mb delta e x :
  x ∈ microBlocksAt
        (ProcessMicroblockSubmissionFromShardCore E st mb delta).1 e →
  x ∈ microBlocksAt st e ∨
  (x = mb ∧ e = m_currentEpochNum st ∧ selfConsistent E mb ∧
   GetShardId (GetHeader mb) ∉
     ((λ y, GetShardId (GetHeader y)) <$> microBlocksAt st e)).
Proof.
  destruct (ProcessMicroblockSubmissionFromShardCore E st mb delta)
    as [st' o] eqn:Hres.
  apply Core_inv in Hres as (_ & _ & _ & Hcase). simpl. intros Hin.
  destruct (LOOKUP_NODE_MODE E); [destruct Hcase as [-> _]; by left|].
  destruct o as [[]|]; [|rewrite Hcase in Hin; by left..].
  destruct Hcase as (Hdup & Hchk & _ & Hupd).
  rewrite Hupd in Hin. case_decide as Hcur; [|by left]. subst e.
  apply set_emplace_elem in Hin as [?| ->]; [by left|]. right.
  apply CoreChecks_passed in Hchk as (Hhash & Hver & _).
  split_and!; try done.
  intros (y & Hy & Hyin)%list_elem_of_fmap.
  apply (existsb_false_elem _ _ y Hdup) in Hyin.
  apply N.eqb_neq in Hyin. done.
Qed.

(** C1, as the code has it.  Every microblock that the shard submission
    path adds to [m_microBlocks] - by
    [ProcessMicroblockSubmissionFromShardCore], called directly, from the
    dispatcher or from the buffer drain - has its block hash equal to the
    header's self-hash and the version MICROBLOCK_VERSION.  The repair path
    checks neither: what it adds is an item of the batch that passed the
    freshness, authority and (for another shard) co-signature checks, whose
    block hash is listed in [m_missingMicroBlocks[epochNumber]] and was not
    yet in [m_microBlocks[epochNumber]]. *)
Theorem accepted_self_consistent_on_shard_path st :
  (∀ mb delta e x,
     x ∈ microBlocksAt
           (ProcessMicroblockSubmissionFromShardCore E st mb delta).1 e →
     x ∈ microBlocksAt st e ∨ (x = mb ∧ selfConsistent E mb)) ∧
  (∀ epoch mbs deltas e x,
     x ∈ microBlocksAt
           (ProcessMicroblockSubmissionFromShard E st epoch mbs deltas).1 e →
     x ∈ microBlocksAt st e ∨ selfConsistent E x) ∧
  (∀ e x,
     x ∈ microBlocksAt (CommitMBSubmissionMsgBuffer E st).1 e →
     x ∈ microBlocksAt st e ∨ selfConsistent E x) ∧
  (∀ epoch mbs deltas e x,
     x ∈ microBlocksAt
           (ProcessMissingMicroblockSubmission E st epoch mbs deltas).1 e →
     x ∈ microBlocksAt st e ∨
     (e = epoch ∧ x ∈ mbs ∧ admittedByRepair E st epoch x)).
Proof.
  set (R := λ s s' : DirectoryService,
         ∀ e x, x ∈ microBlocksAt s' e →
                x ∈ microBlocksAt s e ∨ selfConsistent E x).
  assert (HR : PreOrder R).
  { split.
    - intros s e x Hx. by left.
    - intros s1 s2 s3 H12 H23 e x Hx.
      destruct (H23 e x Hx) as [Hx2|?]; [|by right]. by apply H12. }
  assert (Hcore : ∀ s mb delta,
            R s (ProcessMicroblockSubmissionFromShardCore E s mb delta).1).
  { intros s mb delta e x Hx.
    apply Core_added in Hx as [?|(-> & _ & ? & _)]; [by left|by right]. }
  destruct (shard_path_closure E R HR) as [Hdispatch Hdrain];
    [by intros s b e x Hx; left|done|].
  split_and!.
  - intros mb delta e x Hx.
    apply Core_added in Hx as [?|(-> & _ & ? & _)]; [by left|by right].
  - intros epoch mbs deltas. apply Hdispatch.
  - apply Hdrain.
  - intros epoch mbs deltas e x Hx.
    destruct (ProcessMissingMicroblockSubmission E st epoch mbs deltas)
      as [st' o] eqn:Hres.
    apply ProcessMissing_inv in Hres
      as (_ & _ & _ & _ & recs & added & _ & _ & Hupd & Hadm & _).
    simpl in Hx. rewrite Hupd in Hx.
    destruct (decide (epoch = e)) as [<-|Hne]; [|by left].
    apply elem_of_app in Hx as [?|Hx]; [by left|]. right.
    rewrite Forall_forall in Hadm. destruct (Hadm x Hx) as (? & ? & _).
    done.
Qed.

Lemma NoDup_fmap_snoc {A B} (f : A → B) (l : list A) (x : A) :
  NoDup (f <$> l) → f x ∉ (f <$> l) → NoDup (f <$> (l ++ [x])).
Proof.
  intros Hnd Hx. rewrite fmap_app. apply NoDup_app.
  split_and!; [done| |apply NoDup_singleton].
  intros y Hy ->%list_elem_of_singleton. done.
Qed.


(** The buckets after the second critical section. *)
Lemma CoreCommit_buckets st mb delta e :
  microBlocksAt (CoreCommit E st mb delta).1 e = microBlocksAt st e ∨
  (e = m_currentEpochNum st ∧
   microBlocksAt (CoreCommit E st mb delta).1 e
     = set_emplace mb (microBlocksAt st e)).
Proof.
  destruct (CoreCommit E st mb delta) as [st' o] eqn:Hres.
  apply CoreCommit_inv in Hres as (_ & _ & _ & _ & Hcase). simpl.
  destruct o as [[]|]; [|left; unfold microBlocksAt; by rewrite Hcase..].
  destruct Hcase as [_ Hmb]. unfold microBlocksAt at 1 3. rewrite Hmb.
  rewrite at_key_insert. case_decide as Hcur; [|by left].
  subst e. by right.
Qed.





(** C3, as the code has it.  Once [m_stopRecvNewMBSubmission] is true the
    shard submission path inserts nothing into [m_microBlocks]:
    [ProcessMicroblockSubmissionFromShardCore] leaves every bucket as it is
    and (outside lookup mode) does not return true, and so do the dispatcher
    and the drain, which keep the flag set.  The repair path does not read
    the flag. *)
Theorem no_shard_acceptance_after_stop st :
  m_stopRecvNewMBSubmission st = true →
  (∀ mb delta,
     let result := ProcessMicroblockSubmissionFromShardCore E st mb delta in
     (∀ e, microBlocksAt result.1 e = microBlocksAt st e) ∧
     m_stopRecvNewMBSubmission result.1 = true ∧
     (LOOKUP_NODE_MODE E = false → result.2 ≠ Returns true)) ∧
  (∀ epoch mbs deltas,
     let result :=
       ProcessMicroblockSubmissionFromShard E st epoch mbs deltas in
     (∀ e, microBlocksAt result.1 e = microBlocksAt st e) ∧
     m_stopRecvNewMBSubmission result.1 = true) ∧
  (let result := CommitMBSubmissionMsgBuffer E st in
   (∀ e, microBlocksAt result.1 e = microBlocksAt st e) ∧
   m_stopRecvNewMBSubmission result.1 = true).
Proof.
  set (R := λ s s' : DirectoryService,
         m_stopRecvNewMBSubmission s = true →
         (∀ e, microBlocksAt s' e = microBlocksAt s e) ∧
         m_stopRecvNewMBSubmission s' = true).
  assert (HR : PreOrder R).
  { split; [intros s Hs; by split|].
    intros s1 s2 s3 H12 H23 H1. destruct (H12 H1) as [Hb12 H2].
    destruct (H23 H2) as [Hb23 H3]. split; [|done].
    intros e. by rewrite Hb23. }
  assert (Hcore : ∀ s mb delta,
            m_stopRecvNewMBSubmission s = true →
            let result := ProcessMicroblockSubmissionFromShardCore E s mb delta in
            (∀ e, microBlocksAt result.1 e = microBlocksAt s e) ∧
            m_stopRecvNewMBSubmission result.1 = true ∧
            (LOOKUP_NODE_MODE E = false → result.2 ≠ Returns true)).
  { intros s mb delta Hstop result. subst result.
    destruct (ProcessMicroblockSubmissionFromShardCore E s mb delta)
      as [s' o] eqn:Hres.
    apply Core_inv in Hres as (_ & _ & Hkeep & Hcase). simpl.
    destruct (LOOKUP_NODE_MODE E).
    - destruct Hcase as [-> ->]. done.
    - destruct o as [[]|].
      + destruct Hcase as (_ & _ & Hopen & _). congruence.
      + split_and!; [done|by apply Hkeep|done].
      + split_and!; [done|by apply Hkeep|done]. }
  destruct (shard_path_closure E R HR) as [Hdispatch Hdrain].
  { intros s b Hs. by split. }
  { intros s mb delta Hs. destruct (Hcore s mb delta Hs) as (? & ? & _).
    done. }
  intros Hstop. split_and!.
  - intros mb delta. by apply Hcore.
  - intros epoch mbs deltas. by apply Hdispatch.
  - by apply Hdrain.
Qed.

End MainResults.

(** * Worked cases on the small network *)

Section WorkedCases.

Import Scenario.

Lemma st0_nothing_accepted e : microBlocksAt st0 e = [].
Proof. done. Qed.

Lemma stStopped_nothing_accepted e : microBlocksAt stStopped e = [].
Proof. done. Qed.


(** The shard path accepts [mbShard0], which is self-consistent. *)
Lemma accepted_self_consistent_witness :
  mbShard0 ∈ microBlocksAt
    (ProcessMicroblockSubmissionFromShardCore E0 st0 mbShard0 []).1 10 ∧
  (mbShard0 ∈ microBlocksAt st0 10 ∨
   (mbShard0 = mbShard0 ∧ selfConsistent E0 mbShard0)).
Proof.
  assert (Hin : mbShard0 ∈ microBlocksAt
    (ProcessMicroblockSubmissionFromShardCore E0 st0 mbShard0 []).1 10).
  { vm_compute. left. }
  split; [exact Hin|].
  exact (proj1 (accepted_self_consistent_on_shard_path E0 st0)
           mbShard0 [] 10 mbShard0 Hin).
Defined.

(** The repair path accepts [mbStale], whose version is 7 and whose block
    hash 504 is not the header's self-hash 777. *)
Lemma repair_accepts_inconsistent :
  (∀ e x, x ∈ microBlocksAt st0 e → selfConsistent E0 x) ∧
  mbStale ∈ microBlocksAt
    (ProcessMissingMicroblockSubmission E0 st0 10 [mbStale] [[]]).1 10 ∧
  ¬ selfConsistent E0 mbStale.
Proof.
  split_and!.
  - intros e x Hx. rewrite st0_nothing_accepted in Hx.
    by apply elem_of_nil in Hx.
  - vm_compute. left.
  - intros [Hhash _]. vm_compute in Hhash. discriminate.
Qed.

Lemma st0_onePerShard : onePerShard st0.
Proof. intros e. rewrite st0_nothing_accepted. apply NoDup_nil_2. Defined.


(** Two submissions of shard 0 in flight at once, with a coinbase ledger
    that takes both records: each passes the duplicate test on a bucket
    without a microblock of shard 0, and both are inserted. *)
Lemma overlapping_submissions_of_one_shard :
  onePerShard st0 ∧
  Samples.overlapped.2 = Returns true ∧
  microBlocksAt Samples.overlapped.1 10 = [mbShard0; Samples.mbShard0b] ∧
  GetShardId (GetHeader mbShard0) = GetShardId (GetHeader Samples.mbShard0b) ∧
  ¬ onePerShard Samples.overlapped.1.
Proof.
  split_and!; [exact st0_onePerShard|by vm_compute|by vm_compute|done|].
  intros Hone. specialize (Hone 10). vm_compute in Hone.
  apply NoDup_cons_1_1 in Hone. apply Hone. left.
Qed.


Lemma no_shard_acceptance_after_stop_witness :
  m_stopRecvNewMBSubmission stStopped = true ∧
  (∀ e, microBlocksAt
          (ProcessMicroblockSubmissionFromShardCore E0 stStopped mbShard0 []).1 e
        = microBlocksAt stStopped e) ∧
  (ProcessMicroblockSubmissionFromShardCore E0 stStopped mbShard0 []).2
    ≠ Returns true.
Proof.
  split; [reflexivity|].
  destruct (proj1 (no_shard_acceptance_after_stop E0 stStopped eq_refl)
              mbShard0 []) as (Hsame & _ & Hrej).
  split; [exact Hsame|]. apply Hrej. reflexivity.
Defined.

(** With the flag set, the repair path still inserts [mbShard0]. *)
Lemma repair_accepts_after_stop :
  m_stopRecvNewMBSubmission stStopped = true ∧
  microBlocksAt
    (ProcessMissingMicroblockSubmission E0 stStopped 10 [mbShard0] [[]]).1 10
  = [mbShard0] ∧
  microBlocksAt
    (ProcessMissingMicroblockSubmission E0 stStopped 10 [mbShard0] [[]]).1 10
  ≠ microBlocksAt stStopped 10.
Proof.
  split_and!; [reflexivity|by vm_compute|].
  rewrite stStopped_nothing_accepted. by vm_compute.
Qed.

(** Ten committee members, seven set bits: rejected. *)
Lemma verify_cosignature_witness :
  vsize (GetB2 mbSevenOfTen) < 2 ^ 32 ∧
  NumForConsensus 10 = 8 ∧
  VerifyMicroBlockCoSignature E0 stTen mbSevenOfTen 2 = Some false.
Proof.
  assert (Hsz : vsize (GetB2 mbSevenOfTen) < 2 ^ 32) by (vm_compute; reflexivity).
  split_and!; [exact Hsz|reflexivity|].
  destruct (verify_cosignature_rules E0 stTen mbSevenOfTen 2 Hsz)
    as (_ & _ & _ & _ & _ & Hten).
  destruct (Hten eq_refl) as [_ Hseven]. apply Hseven. reflexivity.
Defined.

Lemma process_state_delta_witness :
  LOOKUP_NODE_MODE E0 = false ∧
  charArrToHexStr E0 102 = true ∧
  (ProcessStateDelta E0 st0 [x01; x02] 102 501).2 = true ∧
  at_key ∅ 10
    (m_microBlockStateDeltas (ProcessStateDelta E0 st0 [x01; x02] 102 501).1)
    !! 501 = Some [x01; x02].
Proof.
  split_and!; [reflexivity|reflexivity|..].
  - destruct (process_state_delta_policy E0 st0 [x01; x02] 102 501
                eq_refl eq_refl) as (_ & _ & _ & Happly).
    assert (Hnz : (102 : N) ≠ ZeroHash) by discriminate.
    assert (Hne : [x01; x02] ≠ []) by discriminate.
    exact (proj1 (Happly Hnz Hne eq_refl)).
  - destruct (process_state_delta_policy E0 st0 [x01; x02] 102 501
                eq_refl eq_refl) as (_ & _ & _ & Happly).
    assert (Hnz : (102 : N) ≠ ZeroHash) by discriminate.
    assert (Hne : [x01; x02] ≠ []) by discriminate.
    exact (proj1 (proj2 (proj2 (proj2 (Happly Hnz Hne eq_refl))))).
Defined.

(** At [stRepaired], reached from [st0] by a repair batch, the block hash
    601 has the one-byte delta on record.  [ProcessStateDelta] with the
    two-byte delta, its hash 102 and the block hash 601 returns true and
    applies the two-byte delta, and the record under 601 is still the
    one-byte delta. *)
Lemma state_delta_not_recorded_over_earlier :
  LOOKUP_NODE_MODE E0 = false ∧
  charArrToHexStr E0 102 = true ∧
  (102 : N) ≠ ZeroHash ∧
  Samples.twoBytes ≠ [] ∧
  sha256 E0 Samples.twoBytes = 102 ∧
  let result :=
    ProcessStateDelta E0 Samples.stRepaired Samples.twoBytes 102 601 in
  result.2 = true ∧
  accountStoreTemp result.1 = [Samples.oneByte; Samples.twoBytes] ∧
  at_key ∅ (m_currentEpochNum Samples.stRepaired)
    (m_microBlockStateDeltas result.1) !! 601 = Some Samples.oneByte ∧
  at_key ∅ (m_currentEpochNum Samples.stRepaired)
    (m_microBlockStateDeltas result.1) !! 601 ≠ Some Samples.twoBytes.
Proof.
  split_and!; [done|done|done|done|done|].
  intros result. split_and!.
  - by vm_compute.
  - by vm_compute.
  - by vm_compute.
  - intros Hrec. vm_compute in Hrec. discriminate.
Qed.

(** A batch whose first item is not the latest block is given up, and so
    is one whose first item cannot be stored; an item with an unknown miner
    key is passed over and the next one is inserted. *)
Lemma repair_abort_and_skip_witness :
  missingLoop E0 st0 10 [(mbNotLatest, []); (mbShard1, [])]
    = (st0, ReturnFalse) ∧
  (missingLoop E0 st0 10 [(mbUnstorable, []); (mbShard0, [])]).2
    = ReturnFalse ∧
  microBlocksAt
    (missingLoop E0 st0 10 [(mbUnstorable, []); (mbShard0, [])]).1 10 = [] ∧
  missingLoop E0 st0 10 [(mbUnknownMiner, []); (mbShard1, [])]
    = missingLoop E0 st0 10 [(mbShard1, [])] ∧
  microBlocksAt
    (missingLoop E0 st0 10 [(mbUnknownMiner, []); (mbShard1, [])]).1 10
    = [mbShard1].
Proof.
  assert (Hstore :
    missingLoop E0 st0 10 [(mbUnstorable, []); (mbShard0, [])]
    = ((missingItem E0 st0 10 mbUnstorable []).1, ReturnFalse)).
  { apply (repair_abort_and_skip E0 st0 10 mbUnstorable []
             [(mbShard0, [])]).
    vm_compute. reflexivity. }
  split_and!.
  - exact (proj1 (repair_abort_and_skip E0 st0 10 mbNotLatest []
                    [(mbShard1, [])]) eq_refl).
  - by rewrite Hstore.
  - rewrite Hstore. by vm_compute.
  - exact (proj1 (proj2 (repair_abort_and_skip E0 st0 10 mbUnknownMiner []
                           [(mbShard1, [])])) eq_refl eq_refl).
  - by vm_compute.
Defined.

Lemma dispatch_shard_submission_witness :
  (ProcessMicroblockSubmissionFromShard E0 st0 12 [mbShard0] [[]]).2
    = Returns true ∧
  m_MBSubmissionBuffer
    (ProcessMicroblockSubmissionFromShard E0 st0 12 [mbShard0] [[]]).1 !! 12
    = Some [{| m_microBlock := mbShard0; m_stateDelta := [] |}] ∧
  ProcessMicroblockSubmissionFromShard E0 st0 9 [mbShard0] [[]]
    = (st0, Returns false).
Proof.
  destruct (proj2 (dispatch_shard_submission_table E0 st0 12 [mbShard0] [[]])
              mbShard0 [] [] [] eq_refl eq_refl) as (Hfuture & _ & _).
  assert (Hlt : m_currentEpochNum st0 < 12) by (vm_compute; reflexivity).
  destruct (Hfuture (or_introl Hlt)) as (Hret & Hbuf & _).
  split_and!; [exact Hret|exact Hbuf|].
  destruct (proj2 (dispatch_shard_submission_table E0 st0 9 [mbShard0] [[]])
              mbShard0 [] [] [] eq_refl eq_refl) as (_ & _ & Hstale).
  apply Hstale. vm_compute. reflexivity.
Defined.



(** A batch for epoch 9 arriving at epoch 10: [mbLate] goes to
    [m_microBlocks[9]], its coinbase record is keyed to epoch 10. *)
Lemma repair_coinbase_epoch_witness :
  (ProcessMissingMicroblockSubmission E0 st0 9 [mbLate] [[]]).2
    = Returns true ∧
  mbLate ∈ microBlocksAt
    (ProcessMissingMicroblockSubmission E0 st0 9 [mbLate] [[]]).1 9 ∧
  ∃ recs,
    coinbaseLedger (ProcessMissingMicroblockSubmission E0 st0 9 [mbLate] [[]]).1
      = coinbaseLedger st0 ++ recs ∧
    coinbaseRecordOf st0 mbLate ∈ recs ∧
    cb_epochNum (coinbaseRecordOf st0 mbLate) = 10 ∧
    cb_epochNum (coinbaseRecordOf st0 mbLate) ≠ 9.
Proof.
  split; [by vm_compute|].
  assert (Hin : mbLate ∈ microBlocksAt
            (ProcessMissingMicroblockSubmission E0 st0 9 [mbLate] [[]]).1 9).
  { vm_compute. left. }
  split; [exact Hin|].
  destruct (repair_coinbase_epoch E0 st0 9 [mbLate] [[]])
    as (recs & Hledger & _ & Hnew).
  exists recs. split; [exact Hledger|].
  assert (Hfresh : mbLate ∉ microBlocksAt st0 9).
  { rewrite st0_nothing_accepted. apply not_elem_of_nil. }
  destruct (Hnew 9 mbLate Hin Hfresh) as (_ & _ & Hcb).
  assert (Hnormal : GetShardId (GetHeader mbLate) ≠ vsize (m_shards st0))
    by discriminate.
  destruct (Hcb Hnormal) as (Hrec & Hcur & Hdiff).
  split_and!; [exact Hrec|exact Hcur|].
  apply Hdiff. discriminate.
Defined.

(** [mbDelta] announces a state delta but comes with an empty one: the
    submission is rejected after its coinbase record and its stored block
    have been written. *)
Lemma shard_rejection_effects_witness :
  ProcessMicroblockSubmissionFromShardCore E0 st0 mbDelta []
    = ((ProcessMicroblockSubmissionFromShardCore E0 st0 mbDelta []).1,
       Returns false) ∧
  coinbaseLedger (ProcessMicroblockSubmissionFromShardCore E0 st0 mbDelta []).1
    = [coinbaseRecordOf st0 mbDelta] ∧
  blockStorage (ProcessMicroblockSubmissionFromShardCore E0 st0 mbDelta []).1
    = [{| sb_blockHash := 501; sb_epochNum := 10; sb_shardId := 0;
          sb_body := [] |}] ∧
  microBlocksAt
    (ProcessMicroblockSubmissionFromShardCore E0 st0 mbDelta []).1 10 = [].
Proof.
  set (s0 := set_microBlocks st0 (touch [] 10 (m_microBlocks st0))).
  set (s1 := (coinbaseStep E0 s0 mbDelta).1).
  set (s2 := (persistStep E0 s1 mbDelta).1).
  set (s3 := (stateDeltaStep E0 s2 10 mbDelta []).1).
  destruct (proj2 (proj2 (shard_rejection_effects E0 st0 mbDelta []))
              s1 s2 s3) as (Hres & Hledger & Hstore & Hsame);
    try (vm_compute; reflexivity).
  rewrite Hres. simpl. split_and!; [done|exact Hledger|exact Hstore|].
  rewrite Hsame. reflexivity.
Defined.

End WorkedCases.

(** * Further properties *)

Section Intake.

Context (E : Externals).

(** The shape of the state after an accepted shard submission. *)
Lemma Core_accept_inv st mb delta st' :
  LOOKUP_NODE_MODE E = false →
  ProcessMicroblockSubmissionFromShardCore E st mb delta
    = (st', Returns true) →
  let cur := m_currentEpochNum st in
  let st0 := set_microBlocks st (touch [] cur (m_microBlocks st)) in
  ∃ st1 st2 st3,
    CoreChecks E st mb = Returns true ∧
    m_stopRecvNewMBSubmission st = false ∧
    coinbaseStep E st0 mb = (st1, true) ∧
    persistStep E st1 mb = (st2, true) ∧
    stateDeltaStep E st2 cur mb delta = (st3, true) ∧
    let st4 :=
      set_microBlocks st3
        (<[cur := set_emplace mb (microBlocksAt st3 cur)]> (m_microBlocks st3)) in
    st' = if vsize (microBlocksAt st4 cur) =? vsize (m_shards st4)
          then signal_all_received st4 else st4.
Proof.
  intros Hlookup Hres cur st0.
  pose proof (Core_inv E st mb delta st' _ Hres) as (_ & _ & _ & Hcase).
  rewrite Hlookup in Hcase. destruct Hcase as (Hdup & Hchk & Hopen & _).
  rewrite (Core_unfold E st mb delta Hlookup Hdup Hchk) in Hres.
  fold cur st0 in Hres. unfold CoreCommit in Hres.
  replace (m_stopRecvNewMBSubmission st0)
    with (m_stopRecvNewMBSubmission st) in Hres by done.
  rewrite Hopen in Hres.
  destruct (coinbaseStep E st0 mb) as [st1 []] eqn:H1; simpl in Hres; [|done].
  destruct (persistStep E st1 mb) as [st2 []] eqn:H2; simpl in Hres; [|done].
  match type of Hres with context [stateDeltaStep E st2 ?c mb delta] =>
    destruct (stateDeltaStep E st2 c mb delta) as [st3 []] eqn:H3 end;
    simpl in Hres; [|done].
  exists st1, st2, st3. split_and!; try done.
  subst cur. simpl in *. destruct (vsize _ =? vsize _); by simplify_eq.
Qed.

(** A rejected or throwing shard submission leaves the flag and the
    counters of the completion branch alone. *)
Lemma Core_reject_signal st mb delta st' o :
  ProcessMicroblockSubmissionFromShardCore E st mb delta = (st', o) →
  o ≠ Returns true ∨ LOOKUP_NODE_MODE E = true →
  m_stopRecvNewMBSubmission st' = m_stopRecvNewMBSubmission st ∧
  finalBlockConsensusSpawned st' = finalBlockConsensusSpawned st ∧
  scheduleDSMicroBlockConsensusNotified st'
    = scheduleDSMicroBlockConsensusNotified st.
Proof.
  unfold ProcessMicroblockSubmissionFromShardCore. intros Hres Hrej.
  destruct (LOOKUP_NODE_MODE E) eqn:Hlookup; [by simplify_eq|].
  destruct Hrej as [Hrej|?]; [|done].
  set (st0 := set_microBlocks st _) in *. simpl in Hres.
  case_match; [by simplify_eq|].
  destruct (CoreChecks E st0 mb) as [[]|]; [|by simplify_eq..].
  unfold CoreCommit in Hres.
  replace (m_stopRecvNewMBSubmission st0)
    with (m_stopRecvNewMBSubmission st) in Hres by done.
  destruct (m_stopRecvNewMBSubmission st) eqn:Hstop; [by simplify_eq|].
  destruct (coinbaseStep E st0 mb) as [st1 saved] eqn:H1.
  apply coinbaseStep_inv in H1 as ->.
  destruct saved; simpl in Hres; [|by simplify_eq].
  match type of Hres with context [persistStep E ?s mb] =>
    destruct (persistStep E s mb) as [st2 put] eqn:H2 end.
  apply persistStep_inv in H2 as ->.
  destruct put; simpl in Hres; [|by simplify_eq].
  match type of Hres with context [stateDeltaStep E ?s ?c mb delta] =>
    destruct (stateDeltaStep E s c mb delta) as [st3 applied] eqn:H3 end.
  apply stateDeltaStep_inv in H3 as (acct & agg & deltas & ->).
  destruct applied; simpl in Hres; [|by simplify_eq].
  case_match; by simplify_eq.
Qed.

(** What the completion branch does to the flag and the counters. *)
Lemma Core_signal st mb delta st' o :
  ProcessMicroblockSubmissionFromShardCore E st mb delta = (st', o) →
  signalledAtMostOnce st st' ∧
  (LOOKUP_NODE_MODE E = false → o = Returns true →
   m_stopRecvNewMBSubmission st' =
     (vsize (microBlocksAt st' (m_currentEpochNum st)) =? vsize (m_shards st))).
Proof.
  intros Hres.
  destruct (decide (o = Returns true ∧ LOOKUP_NODE_MODE E = false))
    as [[-> Hlookup]|Hno].
  - destruct (Core_accept_inv st mb delta st' Hlookup Hres)
      as (st1 & st2 & st3 & _ & Hopen & H1 & H2 & H3 & Hst').
    apply coinbaseStep_inv in H1. apply persistStep_inv in H2.
    apply stateDeltaStep_inv in H3 as (acct & agg & deltas & H3).
    assert (Hf3 :
      m_stopRecvNewMBSubmission st3 = m_stopRecvNewMBSubmission st ∧
      finalBlockConsensusSpawned st3 = finalBlockConsensusSpawned st ∧
      scheduleDSMicroBlockConsensusNotified st3
        = scheduleDSMicroBlockConsensusNotified st ∧
      m_shards st3 = m_shards st) by (by subst st3 st2 st1).
    clear H1 H2 H3 st1 st2. destruct Hf3 as (Hflag & Hsp & Hnot & Hsh).
    cbv zeta in Hst'.
    set (st4 := set_microBlocks st3
                  (<[m_currentEpochNum st :=
                       set_emplace mb (microBlocksAt st3 (m_currentEpochNum st))]>
                     (m_microBlocks st3))) in Hst'.
    change (m_shards st4) with (m_shards st3) in Hst'. rewrite Hsh in Hst'.
    unfold signalledAtMostOnce. rewrite Hopen.
    destruct (vsize (microBlocksAt st4 (m_currentEpochNum st))
              =? vsize (m_shards st)) eqn:Hfull; subst st'.
    + change (microBlocksAt (signal_all_received st4))
        with (microBlocksAt st4).
      change (m_stopRecvNewMBSubmission (signal_all_received st4)) with true.
      change (finalBlockConsensusSpawned (signal_all_received st4))
        with (S (finalBlockConsensusSpawned st3)).
      change (scheduleDSMicroBlockConsensusNotified (signal_all_received st4))
        with (S (scheduleDSMicroBlockConsensusNotified st3)).
      rewrite Hsp, Hnot, Hfull. split; [by right|done].
    + change (m_stopRecvNewMBSubmission st4)
        with (m_stopRecvNewMBSubmission st3).
      change (finalBlockConsensusSpawned st4)
        with (finalBlockConsensusSpawned st3).
      change (scheduleDSMicroBlockConsensusNotified st4)
        with (scheduleDSMicroBlockConsensusNotified st3).
      rewrite Hflag, Hsp, Hnot, Hopen, Hfull. split; [by left|done].
  - assert (Hrej : o ≠ Returns true ∨ LOOKUP_NODE_MODE E = true).
    { destruct (LOOKUP_NODE_MODE E); [by right|]. left. intros ->.
      by apply Hno. }
    split; [left; by apply (Core_reject_signal st mb delta st' o)|].
    intros Hlookup ->. destruct Hrej as [?|?]; congruence.
Qed.

Lemma Core_static st mb delta :
  staticPart (ProcessMicroblockSubmissionFromShardCore E st mb delta).1
  = staticPart st.
Proof.
  destruct (ProcessMicroblockSubmissionFromShardCore E st mb delta)
    as [st' o] eqn:Hres.
  by apply Core_inv in Hres as (? & _).
Qed.

(** X1. Accepted microblocks are never removed: a microblock that is in a
    bucket of [m_microBlocks] is still in it after every operation of the
    file.  (Nothing is said about the place of a new element among the
    old ones; the container is a [std::set].) *)
Theorem accepted_microblocks_never_removed (X : EntryExternals) st :
  (∀ mb delta e x,
     x ∈ microBlocksAt st e →
     x ∈ microBlocksAt
           (ProcessMicroblockSubmissionFromShardCore E st mb delta).1 e) ∧
  (∀ epoch mbs deltas e x,
     x ∈ microBlocksAt st e →
     x ∈ microBlocksAt
           (ProcessMicroblockSubmissionFromShard E st epoch mbs deltas).1 e) ∧
  (∀ e x,
     x ∈ microBlocksAt st e →
     x ∈ microBlocksAt (CommitMBSubmissionMsgBuffer E st).1 e) ∧
  (∀ epoch mbs deltas e x,
     x ∈ microBlocksAt st e →
     x ∈ microBlocksAt
           (ProcessMissingMicroblockSubmission E st epoch mbs deltas).1 e) ∧
  (∀ message offset e x,
     x ∈ microBlocksAt st e →
     x ∈ microBlocksAt
           (ProcessMicroblockSubmission E X st message offset).1 e).
Proof.
  set (R := λ s s' : DirectoryService,
         ∀ e x, x ∈ microBlocksAt s e → x ∈ microBlocksAt s' e).
  assert (HR : PreOrder R).
  { split; [by intros s e x|].
    intros s1 s2 s3 H12 H23 e x Hx. by apply H23, H12. }
  assert (Hcore : ∀ s mb delta,
            R s (ProcessMicroblockSubmissionFromShardCore E s mb delta).1).
  { intros s mb delta e x Hx.
    destruct (ProcessMicroblockSubmissionFromShardCore E s mb delta)
      as [s' o] eqn:Hres.
    apply Core_inv in Hres as (_ & _ & _ & Hcase). simpl.
    destruct (LOOKUP_NODE_MODE E); [by destruct Hcase as [-> _]|].
    destruct o as [[]|]; [|by rewrite Hcase..].
    destruct Hcase as (_ & _ & _ & ->). case_decide; [|done].
    unfold set_emplace. case_match; [done|]. apply elem_of_app. by left. }
  destruct (shard_path_closure E R HR) as [Hdispatch Hdrain];
    [by intros s b e x|done|].
  assert (Hrepair : ∀ epoch mbs deltas,
            R st (ProcessMissingMicroblockSubmission E st epoch mbs deltas).1).
  { intros epoch mbs deltas e x Hx.
    destruct (ProcessMissingMicroblockSubmission E st epoch mbs deltas)
      as [st' o] eqn:Hres.
    apply ProcessMissing_inv in Hres
      as (_ & _ & _ & _ & recs & added & _ & _ & -> & _).
    simpl. case_decide; [|done]. apply elem_of_app. by left. }
  split_and!.
  - intros mb delta. apply Hcore.
  - intros epoch mbs deltas. apply Hdispatch.
  - apply Hdrain.
  - apply Hrepair.
  - intros message offset. unfold ProcessMicroblockSubmission.
    destruct (LOOKUP_NODE_MODE E); [done|].
    destruct (GetDSMicroBlockSubmission X message offset) as [sub|]; [|done].
    destruct (submitMBType sub =? SHARDMICROBLOCK X).
    { destruct (CheckIfShardNode X st _); [apply Hdispatch|done]. }
    destruct (submitMBType sub =? MISSINGMICROBLOCK X); [|done].
    destruct (CheckIfDSNode X st _); [apply Hrepair|done].
Qed.

Lemma NoDup_bounded_length (l : list N) (n : nat) :
  NoDup l → Forall (λ x, x < N.of_nat n) l → (length l ≤ n)%nat.
Proof.
  intros Hnd Hall.
  assert (Hsub : l ⊆+ (N.of_nat <$> seq 0 n)).
  { apply NoDup_submseteq; [done|]. intros x Hx.
    rewrite Forall_forall in Hall. specialize (Hall x Hx).
    apply list_elem_of_fmap. exists (N.to_nat x). split; [lia|].
    apply elem_of_seq. lia. }
  apply submseteq_length in Hsub.
  by rewrite length_fmap, length_seq in Hsub.
Qed.

Lemma CoreCommit_shardsReported st mb delta :
  shardsReported st →
  GetShardId (GetHeader mb) < vsize (m_shards st) →
  GetShardId (GetHeader mb) ∉
    ((λ x, GetShardId (GetHeader x)) <$>
       microBlocksAt st (m_currentEpochNum st)) →
  shardsReported (CoreCommit E st mb delta).1.
Proof.
  intros Hrep Hrange Hfresh e.
  assert (Hsh : m_shards (CoreCommit E st mb delta).1 = m_shards st).
  { destruct (CoreCommit E st mb delta) as [st' o] eqn:Hres.
    by apply CoreCommit_inv in Hres as ((? & _)%staticPart_inv & _). }
  rewrite Hsh.
  destruct (CoreCommit_buckets E st mb delta e) as [->|[-> ->]];
    [apply Hrep|].
  unfold set_emplace. case_match; [apply Hrep|].
  destruct (Hrep (m_currentEpochNum st)) as [Hnd Hall]. split.
  - by apply NoDup_fmap_snoc.
  - apply Forall_app. split; [done|]. by constructor.
Qed.

(** X2. Through the shard path only microblocks of the shards of [m_shards]
    are accepted, one per shard, as long as no call is overtaken between its
    duplicate test and its second critical section.  The property is kept by
    [ProcessMicroblockSubmissionFromShardCore] run from start to end, by the
    dispatcher and by the drain; a call that is overtaken keeps it when the
    others have kept it, have not changed [m_shards] and have left no
    microblock of the shard in the bucket of the current epoch.  Under the
    property a bucket never holds more than [m_shards.size()] microblocks. *)
Theorem shard_path_bounded_by_shards st :
  shardsReported st →
  (∀ mb delta,
     shardsReported
       (ProcessMicroblockSubmissionFromShardCore E st mb delta).1) ∧
  (∀ epoch mbs deltas,
     shardsReported
       (ProcessMicroblockSubmissionFromShard E st epoch mbs deltas).1) ∧
  shardsReported (CommitMBSubmissionMsgBuffer E st).1 ∧
  (∀ others mb delta,
     let later := others (CoreFirstSection st mb).1 in
     shardsReported later →
     m_shards later = m_shards st →
     GetShardId (GetHeader mb) ∉
       ((λ x, GetShardId (GetHeader x)) <$>
          microBlocksAt later (m_currentEpochNum later)) →
     shardsReported (CoreOvertaken E others st mb delta).1) ∧
  (∀ e, vsize (microBlocksAt st e) ≤ vsize (m_shards st)).
Proof.
  set (R := λ s s' : DirectoryService, shardsReported s → shardsReported s').
  assert (HR : PreOrder R).
  { split; [intros s Hs; exact Hs|].
    intros s1 s2 s3 H12 H23 H1. by apply H23, H12. }
  assert (Hcore : ∀ s mb delta,
            R s (ProcessMicroblockSubmissionFromShardCore E s mb delta).1).
  { intros s mb delta Hrep e.
    pose proof (Core_static s mb delta) as (Hsh & _)%staticPart_inv.
    rewrite Hsh.
    destruct (ProcessMicroblockSubmissionFromShardCore E s mb delta)
      as [s' o] eqn:Hres.
    apply Core_inv in Hres as (_ & _ & _ & Hcase). simpl in *.
    destruct (LOOKUP_NODE_MODE E); [destruct Hcase as [-> _]; apply Hrep|].
    destruct o as [[]|]; [|rewrite Hcase; apply Hrep..].
    destruct Hcase as (Hdup & Hchk & _ & ->).
    case_decide as Hcur; [|apply Hrep]. subst e.
    unfold set_emplace. case_match; [apply Hrep|].
    destruct (Hrep (m_currentEpochNum s)) as [Hnd Hall].
    apply CoreChecks_passed in Hchk as (_ & _ & _ & Hrange & _).
    split.
    - apply NoDup_fmap_snoc; [done|].
      intros (y & Hy & Hyin)%list_elem_of_fmap.
      apply (existsb_false_elem _ _ y Hdup) in Hyin.
      apply N.eqb_neq in Hyin. done.
    - apply Forall_app. split; [done|]. by constructor. }
  destruct (shard_path_closure E R HR) as [Hdispatch Hdrain];
    [intros s b Hs; exact Hs|done|].
  intros Hrep. split_and!.
  - intros mb delta. by apply Hcore.
  - intros epoch mbs deltas. by apply Hdispatch.
  - by apply Hdrain.
  - intros others mb delta later Hlater Hshards Hfresh. unfold CoreOvertaken.
    destruct (LOOKUP_NODE_MODE E); [exact Hrep|].
    destruct (CoreFirstSection st mb) as [st1 fresh] eqn:Hsec.
    assert (Hst1 : st1 = set_microBlocks st
                           (touch [] (m_currentEpochNum st) (m_microBlocks st))).
    { unfold CoreFirstSection in Hsec. by simplify_eq. }
    assert (Hrep1 : shardsReported st1).
    { intros e. subst st1. unfold microBlocksAt. simpl.
      rewrite at_key_touch. apply Hrep. }
    simpl in later. destruct fresh; simpl; [|exact Hrep1].
    destruct (CoreChecks E st1 mb) as [[]|] eqn:Hchk; [|exact Hrep1..].
    apply CoreChecks_passed in Hchk as (_ & _ & _ & Hrange & _).
    apply CoreCommit_shardsReported; [done| |done].
    fold later. rewrite Hshards. by subst st1.
  - intros e. destruct (Hrep e) as [Hnd Hall]. unfold vsize in *.
    assert (length (microBlocksAt st e) ≤ length (m_shards st))%nat; [|lia].
    rewrite <- (length_fmap (λ mb, GetShardId (GetHeader mb))).
    apply NoDup_bounded_length; [done|].
    apply Forall_fmap. done.
Qed.

Lemma signalledAtMostOnce_PreOrder : PreOrder signalledAtMostOnce.
Proof.
  split.
  - intros s. by left.
  - intros s1 s2 s3 [(? & ? & ?)|(? & ? & ? & ?)] [(? & ? & ?)|(? & ? & ? & ?)].
    + left. split_and!; congruence.
    + right. split_and!; congruence.
    + right. split_and!; congruence.
    + congruence.
Qed.

(** X3. The completion branch runs at most once: over
    [ProcessMicroblockSubmissionFromShardCore], the dispatcher and the drain,
    either [m_stopRecvNewMBSubmission] and the two counters (waiter
    notified, [RunConsensusOnFinalBlock] spawned) stay as they are, or the
    flag goes from false to true and each counter goes up by exactly one;
    with the flag set nothing is spawned any more.  After an accepted
    submission the flag says whether the bucket of the current epoch has
    [m_shards.size()] elements, and a full bucket with the flag set stays so
    along the shard path. *)
Theorem completion_signalled_once st :
  (∀ mb delta,
     signalledAtMostOnce st
       (ProcessMicroblockSubmissionFromShardCore E st mb delta).1) ∧
  (∀ epoch mbs deltas,
     signalledAtMostOnce st
       (ProcessMicroblockSubmissionFromShard E st epoch mbs deltas).1) ∧
  signalledAtMostOnce st (CommitMBSubmissionMsgBuffer E st).1 ∧
  (∀ mb delta st',
     LOOKUP_NODE_MODE E = false →
     ProcessMicroblockSubmissionFromShardCore E st mb delta
       = (st', Returns true) →
     m_stopRecvNewMBSubmission st' =
       (vsize (microBlocksAt st' (m_currentEpochNum st)) =?
        vsize (m_shards st))) ∧
  (fullMeansStopped st →
   (∀ mb delta,
      fullMeansStopped
        (ProcessMicroblockSubmissionFromShardCore E st mb delta).1) ∧
   (∀ epoch mbs deltas,
      fullMeansStopped
        (ProcessMicroblockSubmissionFromShard E st epoch mbs deltas).1) ∧
   fullMeansStopped (CommitMBSubmissionMsgBuffer E st).1).
Proof.
  assert (Hcore : ∀ s mb delta,
            signalledAtMostOnce s
              (ProcessMicroblockSubmissionFromShardCore E s mb delta).1).
  { intros s mb delta.
    destruct (ProcessMicroblockSubmissionFromShardCore E s mb delta)
      as [s' o] eqn:Hres.
    by apply Core_signal in Hres as [? _]. }
  destruct (shard_path_closure E signalledAtMostOnce
              signalledAtMostOnce_PreOrder) as [Hdispatch Hdrain];
    [by intros s b; left|done|].
  set (R := λ s s' : DirectoryService,
         fullMeansStopped s → fullMeansStopped s').
  assert (HR : PreOrder R).
  { split; [intros s Hs; exact Hs|].
    intros s1 s2 s3 H12 H23 H1. by apply H23, H12. }
  assert (HcoreR : ∀ s mb delta,
            R s (ProcessMicroblockSubmissionFromShardCore E s mb delta).1).
  { intros s mb delta Hfull.
    pose proof (Core_static s mb delta) as (Hsh & _ & _ & Hcur & _)%staticPart_inv.
    destruct (ProcessMicroblockSubmissionFromShardCore E s mb delta)
      as [s' o] eqn:Hres.
    unfold fullMeansStopped. simpl in *. rewrite Hsh, Hcur.
    destruct (decide (o = Returns true ∧ LOOKUP_NODE_MODE E = false))
      as [[-> Hlookup]|Hno].
    - apply Core_signal in Hres as [_ Hflag].
      rewrite (Hflag Hlookup eq_refl). intros ->. apply N.eqb_refl.
    - assert (Hrej : o ≠ Returns true ∨ LOOKUP_NODE_MODE E = true).
      { destruct (LOOKUP_NODE_MODE E); [by right|]. left. intros ->.
        by apply Hno. }
      pose proof (Core_reject_signal s mb delta s' o Hres Hrej) as (-> & _).
      apply Core_inv in Hres as (_ & _ & _ & Hcase).
      assert (Hsame : ∀ e, microBlocksAt s' e = microBlocksAt s e).
      { destruct Hrej as [Hrej|Hl].
        - destruct (LOOKUP_NODE_MODE E); [by destruct Hcase as [-> _]|].
          by destruct o as [[]|].
        - rewrite Hl in Hcase. by destruct Hcase as [-> _]. }
      rewrite Hsame. apply Hfull. }
  destruct (shard_path_closure E R HR) as [HdispatchR HdrainR];
    [intros s b Hs; exact Hs|done|].
  split_and!.
  - intros mb delta. apply Hcore.
  - intros epoch mbs deltas. apply Hdispatch.
  - apply Hdrain.
  - intros mb delta st' Hlookup Hres.
    by apply Core_signal in Hres as [_ Hflag]; apply Hflag.
  - intros Hfull. split_and!.
    + intros mb delta. by apply HcoreR.
    + intros epoch mbs deltas. by apply HdispatchR.
    + by apply HdrainR.
Qed.

End Intake.

Section IntakeEffects.

Context (E : Externals).

Lemma at_key_nonempty_touch {A} (k : N) (m : gmap N (list A)) :
  at_key [] k m ≠ [] → touch [] k m = m.
Proof.
  unfold at_key, touch. destruct (m !! k); [done|]. simpl. done.
Qed.

Lemma set_microBlocks_same st :
  set_microBlocks st (m_microBlocks st) = st.
Proof. by destruct st. Qed.

(** X4. Once a microblock of a shard is in, a further submission for that shard
    comes back false from the duplicate test at the top of
    [ProcessMicroblockSubmissionFromShardCore] and the state is exactly as
    before: no check is run and nothing is written. *)
Theorem second_submission_of_shard_rejected st mb delta st' :
  LOOKUP_NODE_MODE E = false →
  GetBlockHash mb ∉ (GetBlockHash <$> microBlocksAt st (m_currentEpochNum st)) →
  ProcessMicroblockSubmissionFromShardCore E st mb delta
    = (st', Returns true) →
  mb ∈ microBlocksAt st' (m_currentEpochNum st') ∧
  ∀ mb' delta',
    GetShardId (GetHeader mb') = GetShardId (GetHeader mb) →
    ProcessMicroblockSubmissionFromShardCore E st' mb' delta'
      = (st', Returns false).
Proof.
  intros Hlookup Hfresh Hres.
  pose proof (Core_inv E st mb delta st' _ Hres) as (Hs & _ & _ & Hcase).
  apply staticPart_inv in Hs as (_ & _ & _ & Hcur & _).
  rewrite Hlookup in Hcase. destruct Hcase as (_ & _ & _ & Hupd).
  specialize (Hupd (m_currentEpochNum st)).
  rewrite decide_True in Hupd by done.
  apply existsb_blockHash_fresh in Hfresh.
  rewrite (set_emplace_fresh mb _ Hfresh) in Hupd.
  rewrite Hcur. split.
  { rewrite Hupd, elem_of_app, list_elem_of_singleton. by right. }
  intros mb' delta' Hsame.
  unfold ProcessMicroblockSubmissionFromShardCore.
  rewrite Hlookup, Hcur.
  assert (Hne : microBlocksAt st' (m_currentEpochNum st) ≠ []).
  { rewrite Hupd. by destruct (microBlocksAt st (m_currentEpochNum st)). }
  rewrite (at_key_nonempty_touch _ _ Hne), set_microBlocks_same. simpl.
  assert (Hdup : existsb
            (λ x, GetShardId (GetHeader x) =? GetShardId (GetHeader mb'))
            (microBlocksAt st' (m_currentEpochNum st)) = true).
  { apply existsb_exists. exists mb. split.
    - apply list_elem_of_In. rewrite Hupd, elem_of_app, list_elem_of_singleton.
      by right.
    - rewrite Hsame. apply N.eqb_refl. }
  by rewrite Hdup.
Qed.

(** [ProcessStateDelta] answers true only when the announced hash is zero
    (and then nothing has changed) or the delta is non-empty, hashes to the
    announced hash and has been applied; the block hash then has a delta on
    record, this one unless it had one before. *)
Lemma ProcessStateDelta_true_inv st delta h bh st' :
  LOOKUP_NODE_MODE E = false →
  ProcessStateDelta E st delta h bh = (st', true) →
  (h = ZeroHash ∧ st' = st) ∨
  (h ≠ ZeroHash ∧ delta ≠ [] ∧ sha256 E delta = h ∧
   accountStoreTemp st' = accountStoreTemp st ++ [delta] ∧
   m_stateDeltaFromShards st'
     = GetSerializedDelta E (accountStoreTemp st ++ [delta]) ∧
   at_key ∅ (m_currentEpochNum st) (m_microBlockStateDeltas st') !! bh
     = Some (default delta
               (at_key ∅ (m_currentEpochNum st) (m_microBlockStateDeltas st)
                  !! bh))).
Proof.
  unfold ProcessStateDelta. intros -> H.
  destruct (charArrToHexStr E h); simpl in H; [|done].
  destruct (N.eqb_spec h ZeroHash) as [->|Hnz]; [left; by simplify_eq|].
  destruct delta as [|b delta]; simpl in H; [done|].
  destruct (N.eqb_spec (sha256 E (b :: delta)) h) as [Hsha|]; simpl in H;
    [|done].
  destruct (DeserializeDeltaTemp E _ _); simpl in H; [|done].
  destruct (SerializeDelta E _); simpl in H; [|done].
  simplify_eq. right. split_and!; try done. simpl.
  rewrite at_key_insert, decide_True by done. unfold map_emplace.
  destruct (at_key ∅ _ _ !! bh) eqn:Hold; [by rewrite Hold|].
  by rewrite lookup_insert_eq.
Qed.

(** X5. What an accepted shard submission has gone through and left behind:
    the microblock is self-consistent, its miner is registered for its
    shard, the shard exists and its co-signature verified; exactly one
    coinbase record (under the current epoch) and one stored block were
    written; and outside a vacuous epoch either the header announced no
    state delta and none was applied, or the attached delta is non-empty,
    hashes to the announced hash and was applied, and the block hash has a
    delta on record: the attached one if it had none before, else the one it
    had ([emplace] does not replace it). *)
Theorem shard_acceptance_effects st mb delta st' :
  LOOKUP_NODE_MODE E = false →
  ProcessMicroblockSubmissionFromShardCore E st mb delta
    = (st', Returns true) →
  let hdr := GetHeader mb in
  let cur := m_currentEpochNum st in
  selfConsistent E mb ∧
  m_publicKeyToshardIdMap st !! GetMinerPubKey hdr = Some (GetShardId hdr) ∧
  GetShardId hdr < vsize (m_shards st) ∧
  VerifyMicroBlockCoSignature E st mb (GetShardId hdr) = Some true ∧
  coinbaseLedger st' = coinbaseLedger st ++ [coinbaseRecordOf st mb] ∧
  blockStorage st' = blockStorage st ++ [storedRecordOf E mb] ∧
  if GetIsVacuousEpoch E cur
  then accountStoreTemp st' = accountStoreTemp st ∧
       m_microBlockStateDeltas st' = m_microBlockStateDeltas st
  else (GetStateDeltaHash hdr = ZeroHash ∧
        accountStoreTemp st' = accountStoreTemp st ∧
        m_microBlockStateDeltas st' = m_microBlockStateDeltas st) ∨
       (GetStateDeltaHash hdr ≠ ZeroHash ∧ delta ≠ [] ∧
        sha256 E delta = GetStateDeltaHash hdr ∧
        accountStoreTemp st' = accountStoreTemp st ++ [delta] ∧
        at_key ∅ cur (m_microBlockStateDeltas st') !! GetBlockHash mb
          = Some (default delta
                    (at_key ∅ cur (m_microBlockStateDeltas st)
                       !! GetBlockHash mb))).
Proof.
  intros Hlookup Hres hdr cur.
  destruct (Core_accept_inv E st mb delta st' Hlookup Hres)
    as (st1 & st2 & st3 & Hchk & _ & H1 & H2 & H3 & Hst').
  apply CoreChecks_passed in Hchk as (Hhash & Hver & Hkey & Hrange & Hsig).
  apply coinbaseStep_inv in H1. apply persistStep_inv in H2.
  subst st1 st2.
  assert (Hne : (GetShardId (GetHeader mb) =? vsize (m_shards st)) = false)
    by (apply N.eqb_neq; lia).
  assert (Hfields :
    coinbaseLedger st' = coinbaseLedger st3 ∧
    blockStorage st' = blockStorage st3 ∧
    accountStoreTemp st' = accountStoreTemp st3 ∧
    m_microBlockStateDeltas st' = m_microBlockStateDeltas st3).
  { rewrite Hst'. by destruct (vsize _ =? vsize _). }
  destruct Hfields as (-> & -> & -> & ->). clear Hst'.
  split_and!; try done.
  - pose proof (stateDeltaStep_inv E _ _ _ _ _ _ H3)
      as (acct & agg & deltas & ->). simpl. by rewrite Hne.
  - pose proof (stateDeltaStep_inv E _ _ _ _ _ _ H3)
      as (acct & agg & deltas & ->). done.
  - unfold stateDeltaStep in H3. simpl in H3. fold cur in H3.
    destruct (GetIsVacuousEpoch E cur); simpl in H3; [by simplify_eq|].
    apply (ProcessStateDelta_true_inv _ _ _ _ _ Hlookup) in H3
      as [[Hzero ->]|(Hnz & Hd & Hsha & Hacct & _ & Hrec)].
    + left. done.
    + right. split_and!; done.
Qed.

End IntakeEffects.

Section Escapes.

Context (E : Externals).

Lemma missingItem_no_escape st e mb delta :
  (missingItem E st e mb delta).2 ≠ Escapes.
Proof.
  unfold missingItem, missingItemCommit.
  pose proof (VerifyMicroBlockCoSignature_returns E st mb
                (GetShardId (GetHeader mb))) as [ok Hok].
  rewrite Hok.
  repeat (case_match; simplify_eq/=); done.
Qed.

Lemma missingLoop_no_escape items : ∀ st e,
  (missingLoop E st e items).2 ≠ Escapes.
Proof.
  induction items as [|[mb delta] rest IH]; intros st e; [done|].
  simpl. pose proof (missingItem_no_escape st e mb delta) as Hitem.
  destruct (missingItem E st e mb delta) as [st1 []]; simpl in *;
    [apply IH|done..].
Qed.

(** X6. Where [std::out_of_range] can come from.  The co-signature verifier
    always returns ([B2.at(index)] and [m_shards.at(shardId)] are guarded by
    the size and range tests in front of them), and so does the repair path.
    The shard path throws in exactly one situation: every check up to the
    authority test has passed and the miner is registered for a shard id that
    is not an index of [m_shards]; then [m_shards.at(shardId)] throws, with
    nothing written and no microblock inserted. *)
Theorem out_of_range_escapes st :
  (∀ mb shardId, is_Some (VerifyMicroBlockCoSignature E st mb shardId)) ∧
  (∀ epoch mbs deltas,
     (ProcessMissingMicroblockSubmission E st epoch mbs deltas).2 ≠ Throws) ∧
  (∀ mb,
     let hdr := GetHeader mb in
     let extra_time :=
       if negb (m_currentEpochNum st mod NUM_FINAL_BLOCK_PER_POW E =? 0)
       then 0 else EXTRA_TX_DISTRIBUTE_TIME_IN_MS E in
     CoreChecks E st mb = Throws ↔
       GetMyHash hdr = GetBlockHash mb ∧
       GetVersion hdr = MICROBLOCK_VERSION E ∧
       CheckWhetherBlockIsLatest E (wrap64 (GetDSBlockNum hdr + 1))
         (GetEpochNum hdr) = true ∧
       VerifyTimestamp E (GetTimestamp mb)
         (CONSENSUS_OBJECT_TIMEOUT E + MICROBLOCK_TIMEOUT E + extra_time)
         = true ∧
       m_publicKeyToshardIdMap st !! GetMinerPubKey hdr
         = Some (GetShardId hdr) ∧
       vsize (m_shards st) ≤ GetShardId hdr) ∧
  (∀ mb delta,
     let result := ProcessMicroblockSubmissionFromShardCore E st mb delta in
     result.2 = Throws →
     LOOKUP_NODE_MODE E = false ∧
     CoreChecks E st mb = Throws ∧
     result.1 = set_microBlocks st
                  (touch [] (m_currentEpochNum st) (m_microBlocks st))).
Proof.
  split_and!.
  - intros mb shardId. apply VerifyMicroBlockCoSignature_returns.
  - intros epoch mbs deltas. unfold ProcessMissingMicroblockSubmission.
    set (st0 := set_microBlocks st _).
    case_match; [done|].
    pose proof (missingLoop_no_escape (zip mbs deltas) st0 epoch) as Hloop.
    destruct (missingLoop E st0 epoch (zip mbs deltas)) as [st1 []];
      simpl in *; [by case_match|done..].
  - intros mb hdr extra_time. unfold CoreChecks. fold hdr. fold extra_time.
    pose proof (VerifyMicroBlockCoSignature_returns E st mb (GetShardId hdr))
      as [ok Hok].
    rewrite Hok.
    destruct (N.eqb_spec (GetMyHash hdr) (GetBlockHash mb)) as [Hh|Hh];
      simpl; [|split; [done|tauto]].
    destruct (N.eqb_spec (GetVersion hdr) (MICROBLOCK_VERSION E)) as [Hv|Hv];
      simpl; [|split; [done|tauto]].
    destruct (CheckWhetherBlockIsLatest E _ _); simpl;
      [|split; [done|intros (_ & _ & ? & _); done]].
    destruct (VerifyTimestamp E _ _); simpl;
      [|split; [done|intros (_ & _ & _ & ? & _); done]].
    destruct (m_publicKeyToshardIdMap st !! GetMinerPubKey hdr)
      as [minerShard|] eqn:Hkey;
      [|split; [done|intros (_ & _ & _ & _ & ? & _); done]].
    destruct (N.eqb_spec minerShard (GetShardId hdr)) as [->|Hms]; simpl;
      [|split; [done|intros (_ & _ & _ & _ & ? & _); congruence]].
    destruct (m_shards st !! N.to_nat (GetShardId hdr)) as [shard|] eqn:Hshard.
    + apply lookup_lt_Some in Hshard.
      split; [by repeat case_match|].
      intros (_ & _ & _ & _ & _ & Hge). unfold vsize in Hge. lia.
    + apply lookup_ge_None in Hshard. split; [|done].
      intros _. split_and!; try done. unfold vsize. lia.
  - intros mb delta result Hthrow. subst result.
    unfold ProcessMicroblockSubmissionFromShardCore in *.
    destruct (LOOKUP_NODE_MODE E); [done|].
    set (st0 := set_microBlocks st _) in *. simpl in Hthrow |- *.
    destruct (existsb _ _); [done|].
    rewrite (CoreChecks_static E st0 st mb eq_refl) in Hthrow |- *.
    destruct (CoreChecks E st mb) as [[]|] eqn:Hchk; [|done..].
    exfalso. revert Hthrow. unfold CoreCommit.
    repeat (case_match; simplify_eq/=); done.
Qed.

End Escapes.

Section DrainAgain.

Context (E : Externals).






End DrainAgain.

Section RepairEffects.

Context (E : Externals).

Lemma missingItem_stored st e mb delta st' c :
  missingItem E st e mb delta = (st', c) →
  repairFrame st st' ∧
  ((blockStorage st' = blockStorage st ∧
    ∀ e', microBlocksAt st' e' = microBlocksAt st e') ∨
   (c = NextItem ∧
    blockStorage st' = blockStorage st ++ [storedRecordOf E mb] ∧
    ∀ e', microBlocksAt st' e' =
            if decide (e = e') then microBlocksAt st e' ++ [mb]
            else microBlocksAt st e')).
Proof.
  intros Hitem.
  assert (Hskip : ∀ c0, (st, c0) = (st', c) →
    repairFrame st st' ∧
    ((blockStorage st' = blockStorage st ∧
      ∀ e', microBlocksAt st' e' = microBlocksAt st e') ∨
     (c = NextItem ∧
      blockStorage st' = blockStorage st ++ [storedRecordOf E mb] ∧
      ∀ e', microBlocksAt st' e' =
              if decide (e = e') then microBlocksAt st e' ++ [mb]
              else microBlocksAt st e'))).
  { intros c0 ?. simplify_eq. split; [done|]. by left. }
  assert (Hcommit : missingItemCommit E st e mb delta = (st', c) →
    repairFrame st st' ∧
    ((blockStorage st' = blockStorage st ∧
      ∀ e', microBlocksAt st' e' = microBlocksAt st e') ∨
     (c = NextItem ∧
      blockStorage st' = blockStorage st ++ [storedRecordOf E mb] ∧
      ∀ e', microBlocksAt st' e' =
              if decide (e = e') then microBlocksAt st e' ++ [mb]
              else microBlocksAt st e'))).
  { clear Hitem Hskip. unfold missingItemCommit. intros H.
    set (st0 := set_missingMicroBlocks st
                  (touch [] e (m_missingMicroBlocks st))) in *.
    simpl in H.
    destruct (existsb _ (missingAt st0 e)); simpl in H;
      [|simplify_eq; split; [done|by left]].
    replace (microBlocksAt st0 e) with (microBlocksAt st e) in H by done.
    destruct (existsb _ (microBlocksAt st e)) eqn:Hhave; simpl in H;
      [simplify_eq; split; [done|by left]|].
    destruct (coinbaseStep E st0 mb) as [st1 saved] eqn:H1.
    apply coinbaseStep_inv in H1 as ->.
    destruct saved; simpl in H; [|simplify_eq; split; [done|by left]].
    match type of H with context [stateDeltaStep E ?s e mb delta] =>
      destruct (stateDeltaStep E s e mb delta) as [st2 applied] eqn:H2 end.
    apply stateDeltaStep_inv in H2 as (acct & agg & deltas & ->).
    destruct applied; simpl in H; [|simplify_eq; split; [done|by left]].
    match type of H with context [persistStep E ?s mb] =>
      destruct (persistStep E s mb) as [st3 put] eqn:H3 end.
    apply persistStep_inv in H3 as ->.
    destruct put; simpl in H.
    - simplify_eq. split; [done|]. right. split_and!; try done.
      intros e'. unfold microBlocksAt at 1. simpl. rewrite at_key_insert.
      case_decide; [|done]. subst e'.
      unfold microBlocksAt at 1. simpl. fold (microBlocksAt st e).
      by rewrite set_emplace_fresh.
    - simplify_eq. split; [done|]. left. simpl. by rewrite app_nil_r. }
  unfold missingItem in Hitem.
  destruct (CheckWhetherBlockIsLatest E _ _); simpl in Hitem;
    [|by eapply Hskip].
  destruct (minerKeyOk st mb); simpl in Hitem; [|by eapply Hskip].
  destruct (GetShardId (GetHeader mb) =? m_myshardId st); simpl in Hitem;
    [by apply Hcommit|].
  destruct (VerifyMicroBlockCoSignature E st mb _) as [[]|];
    [by apply Hcommit|by eapply Hskip..].
Qed.

Lemma repairFrame_trans s1 s2 s3 :
  repairFrame s1 s2 → repairFrame s2 s3 → repairFrame s1 s3.
Proof.
  intros (? & ? & ? & ? & ?) (? & ? & ? & ? & ?).
  unfold repairFrame. split_and!; congruence.
Qed.

Lemma missingLoop_stored items : ∀ st e st' c,
  missingLoop E st e items = (st', c) →
  repairFrame st st' ∧
  ∃ added,
    blockStorage st' = blockStorage st ++ (storedRecordOf E <$> added) ∧
    ∀ e', microBlocksAt st' e' =
            if decide (e = e') then microBlocksAt st e' ++ added
            else microBlocksAt st e'.
Proof.
  induction items as [|[mb delta] rest IH]; intros st e st' c H.
  - simpl in H. simplify_eq. split; [done|]. exists [].
    rewrite app_nil_r. split; [done|].
    intros e'. case_decide; [by rewrite app_nil_r|done].
  - simpl in H.
    destruct (missingItem E st e mb delta) as [st1 c1] eqn:Hitem.
    apply missingItem_stored in Hitem as [Hf1 Hcase].
    destruct (decide (c1 = NextItem)) as [->|Hc1].
    + apply IH in H as (Hf & added & Hstore & Hupd).
      split; [by eapply repairFrame_trans|].
      destruct Hcase as [[Hs1 Hb1]|(_ & Hs1 & Hb1)].
      * exists added. rewrite Hstore, Hs1. split; [done|].
        intros e'. by rewrite Hupd, !Hb1.
      * exists (mb :: added). rewrite Hstore, Hs1. split.
        { by rewrite fmap_cons, <- app_assoc. }
        intros e'. rewrite Hupd, Hb1.
        case_decide; [|done]. by rewrite <- app_assoc.
    + assert (st' = st1) as -> by (by destruct c1; simplify_eq).
      destruct Hcase as [[Hs1 Hb1]|(? & _)]; [|done].
      split; [done|]. exists []. rewrite app_nil_r. split; [done|].
      intros e'. rewrite Hb1. case_decide; [by rewrite app_nil_r|done].
Qed.

(** The model's bucket keeps the elements in the order of their insertion,
    which makes the list of the new ones the list of the stored ones. *)
Lemma repair_store_and_bucket st epochNumber mbs deltas :
  let st' :=
    (ProcessMissingMicroblockSubmission E st epochNumber mbs deltas).1 in
  (∃ added,
     microBlocksAt st' epochNumber = microBlocksAt st epochNumber ++ added ∧
     blockStorage st' = blockStorage st ++ (storedRecordOf E <$> added)) ∧
  m_stopRecvNewMBSubmission st' = m_stopRecvNewMBSubmission st ∧
  finalBlockConsensusSpawned st' = finalBlockConsensusSpawned st ∧
  scheduleDSMicroBlockConsensusNotified st'
    = scheduleDSMicroBlockConsensusNotified st ∧
  m_MBSubmissionBuffer st' = m_MBSubmissionBuffer st.
Proof.
  intros st'. subst st'. unfold ProcessMissingMicroblockSubmission.
  set (st0 := set_microBlocks st (touch [] epochNumber (m_microBlocks st))).
  assert (Hb0 : ∀ e', microBlocksAt st0 e' = microBlocksAt st e').
  { intros e'. unfold microBlocksAt, st0. simpl. apply at_key_touch. }
  assert (Hnone :
    (∃ added,
       microBlocksAt st0 epochNumber = microBlocksAt st epochNumber ++ added ∧
       blockStorage st0 = blockStorage st ++ (storedRecordOf E <$> added)) ∧
    m_stopRecvNewMBSubmission st0 = m_stopRecvNewMBSubmission st ∧
    finalBlockConsensusSpawned st0 = finalBlockConsensusSpawned st ∧
    scheduleDSMicroBlockConsensusNotified st0
      = scheduleDSMicroBlockConsensusNotified st ∧
    m_MBSubmissionBuffer st0 = m_MBSubmissionBuffer st).
  { split_and!; try done. exists []. rewrite Hb0, !app_nil_r. done. }
  destruct (vsize mbs =? vsize deltas); simpl; [|exact Hnone].
  destruct (missingLoop E st0 epochNumber (zip mbs deltas)) as [st1 c]
    eqn:Hloop.
  apply missingLoop_stored in Hloop
    as ((Hstop & Hsp & Hnot & Hbuf & _) & added & Hstore & Hupd).
  assert (Hgoal :
    (∃ added,
       microBlocksAt st1 epochNumber = microBlocksAt st epochNumber ++ added ∧
       blockStorage st1 = blockStorage st ++ (storedRecordOf E <$> added)) ∧
    m_stopRecvNewMBSubmission st1 = m_stopRecvNewMBSubmission st ∧
    finalBlockConsensusSpawned st1 = finalBlockConsensusSpawned st ∧
    scheduleDSMicroBlockConsensusNotified st1
      = scheduleDSMicroBlockConsensusNotified st ∧
    m_MBSubmissionBuffer st1 = m_MBSubmissionBuffer st).
  { split_and!; try done. exists added. split; [|done].
    by rewrite Hupd, decide_True, Hb0. }
  destruct c; simpl; [|exact Hgoal..].
  by destruct (CheckMicroBlocks E st1).
Qed.

(** X9. The repair path stores exactly what it inserts: the records that it
    appends to the block store, in the order of the calls of
    [PutMicroBlock], are those of a list of microblocks of the batch whose
    block hashes were not in [m_microBlocks[epochNumber]], and after the call
    the buckets hold what they held before and these microblocks, in the
    bucket of [epochNumber]; this is so also when the batch is given up half
    way. *)
Theorem repair_stores_what_it_inserts st epochNumber mbs deltas :
  let st' :=
    (ProcessMissingMicroblockSubmission E st epochNumber mbs deltas).1 in
  ∃ added,
    blockStorage st' = blockStorage st ++ (storedRecordOf E <$> added) ∧
    (∀ e x,
       x ∈ microBlocksAt st' e ↔
       x ∈ microBlocksAt st e ∨ (e = epochNumber ∧ x ∈ added)) ∧
    Forall (λ x, x ∈ mbs ∧
                 GetBlockHash x ∉
                   (GetBlockHash <$> microBlocksAt st epochNumber)) added.
Proof.
  intros st'.
  destruct (repair_store_and_bucket st epochNumber mbs deltas)
    as ((added & Hbucket & Hstore) & _).
  fold st' in Hbucket, Hstore.
  destruct (ProcessMissingMicroblockSubmission E st epochNumber mbs deltas)
    as [st1 o] eqn:Hres.
  apply ProcessMissing_inv in Hres
    as (_ & _ & _ & _ & recs & added' & _ & _ & Hupd & Hadm & _).
  simpl in st'. subst st'.
  assert (added' = added) as ->.
  { pose proof (Hupd epochNumber) as Hat.
    rewrite decide_True, Hbucket in Hat by done.
    by apply app_inv_head in Hat. }
  exists added. split_and!.
  - exact Hstore.
  - intros e x. rewrite Hupd. case_decide as He.
    + subst e. rewrite elem_of_app. split.
      * intros [?|?]; [by left|by right].
      * intros [?|[_ ?]]; [by left|by right].
    + split; [by left|]. intros [?|[-> ?]]; done.
  - eapply Forall_impl; [exact Hadm|].
    intros x (Hin & (_ & _ & _ & _ & Hfresh) & _). by split.
Qed.

End RepairEffects.

Section EntryPoint.

Context (E : Externals) (X : EntryExternals).

(** X10. A microblock gets into [m_microBlocks] through
    [ProcessMicroblockSubmission] in two ways only.  Either the message
    decodes to a shard submission for the current epoch sent by a shard node,
    the microblock is the first of the message, it is self-consistent and its
    miner is registered for its shard; or the message decodes to a
    missing-microblock submission sent by a DS node and the microblock is
    one of its items admitted by the repair checks.  A message that does not
    decode, is of an unknown type or comes from a sender that fails the
    membership test of its type leaves the state as it is, and so does every
    message in lookup mode. *)
Theorem entry_point_acceptance st message offset :
  let result := ProcessMicroblockSubmission E X st message offset in
  let decoded := GetDSMicroBlockSubmission X message offset in
  (∀ e x,
     x ∈ microBlocksAt result.1 e → x ∉ microBlocksAt st e →
     LOOKUP_NODE_MODE E = false ∧
     ∃ sub,
       decoded = Some sub ∧
       ((submitMBType sub = SHARDMICROBLOCK X ∧
         CheckIfShardNode X st (sub_senderPubKey sub) = true ∧
         head (sub_microBlocks sub) = Some x ∧
         sub_epochNumber sub = m_currentEpochNum st ∧
         e = m_currentEpochNum st ∧
         selfConsistent E x ∧
         m_publicKeyToshardIdMap st !! GetMinerPubKey (GetHeader x)
           = Some (GetShardId (GetHeader x))) ∨
        (submitMBType sub ≠ SHARDMICROBLOCK X ∧
         submitMBType sub = MISSINGMICROBLOCK X ∧
         CheckIfDSNode X st (sub_senderPubKey sub) = true ∧
         e = sub_epochNumber sub ∧
         x ∈ sub_microBlocks sub ∧
         admittedByRepair E st e x))) ∧
  (LOOKUP_NODE_MODE E = true → result = (st, Returns true)) ∧
  (LOOKUP_NODE_MODE E = false → decoded = None →
   result = (st, Returns false)) ∧
  (∀ sub,
     LOOKUP_NODE_MODE E = false → decoded = Some sub →
     (submitMBType sub = SHARDMICROBLOCK X ∧
      CheckIfShardNode X st (sub_senderPubKey sub) = false) ∨
     (submitMBType sub ≠ SHARDMICROBLOCK X ∧
      submitMBType sub = MISSINGMICROBLOCK X ∧
      CheckIfDSNode X st (sub_senderPubKey sub) = false) ∨
     (submitMBType sub ≠ SHARDMICROBLOCK X ∧
      submitMBType sub ≠ MISSINGMICROBLOCK X) →
     result = (st, Returns false)).
Proof.
  intros result decoded. subst result.
  unfold ProcessMicroblockSubmission. fold decoded. split_and!.
  - intros e x Hin Hnew.
    destruct (LOOKUP_NODE_MODE E) eqn:Hlookup; [done|].
    split; [done|].
    destruct decoded as [sub|]; [|done]. exists sub. split; [done|].
    destruct (N.eqb_spec (submitMBType sub) (SHARDMICROBLOCK X)) as [Hty|Hty].
    + destruct (CheckIfShardNode X st (sub_senderPubKey sub)) eqn:Hnode;
        [|done].
      left. simpl in Hin.
      unfold ProcessMicroblockSubmissionFromShard in Hin.
      destruct (sub_microBlocks sub) as [|mb mbs]; [done|].
      destruct (sub_stateDeltas sub) as [|delta deltas]; [done|].
      destruct (N.ltb_spec (m_currentEpochNum st) (sub_epochNumber sub));
        [done|].
      destruct (N.eqb_spec (m_currentEpochNum st) (sub_epochNumber sub))
        as [Hep|]; [|done].
      destruct (CheckState E _ _); [|done].
      destruct (ProcessMicroblockSubmissionFromShardCore E st mb delta)
        as [st' o] eqn:Hres.
      pose proof (Core_added E st mb delta e x) as Hadded.
      rewrite Hres in Hadded.
      destruct (Hadded Hin) as [?|(-> & -> & Hsc & _)]; [done|].
      apply Core_inv in Hres as (_ & _ & _ & Hcase).
      rewrite Hlookup in Hcase.
      destruct o as [[]|];
        [|by rewrite Hcase in Hin..].
      destruct Hcase as (_ & Hchk & _).
      apply CoreChecks_passed in Hchk as (_ & _ & Hkey & _).
      split_and!; done.
    + destruct (N.eqb_spec (submitMBType sub) (MISSINGMICROBLOCK X))
        as [Hty'|]; [|done].
      destruct (CheckIfDSNode X st (sub_senderPubKey sub)) eqn:Hnode;
        [|done].
      right. simpl in Hin.
      destruct (ProcessMissingMicroblockSubmission E st (sub_epochNumber sub)
                  (sub_microBlocks sub) (sub_stateDeltas sub))
        as [st' o] eqn:Hres.
      apply ProcessMissing_inv in Hres
        as (_ & _ & _ & _ & recs & added & _ & _ & Hupd & Hadm & _).
      simpl in Hin. rewrite Hupd in Hin.
      destruct (decide (sub_epochNumber sub = e)) as [<-|]; [|done].
      apply elem_of_app in Hin as [?|Hin]; [done|].
      rewrite Forall_forall in Hadm. destruct (Hadm x Hin) as (? & ? & _).
      split_and!; done.
  - by intros ->.
  - intros -> Hdec. by rewrite Hdec.
  - intros sub -> Hdec. rewrite Hdec.
    intros [[Hty Hnode]|[(Hne & Hty & Hnode)|[Hne Hne']]].
    + apply N.eqb_eq in Hty. by rewrite Hty, Hnode.
    + apply N.eqb_neq in Hne. apply N.eqb_eq in Hty.
      by rewrite Hne, Hty, Hnode.
    + apply N.eqb_neq in Hne, Hne'. by rewrite Hne, Hne'.
Qed.

End EntryPoint.

Section DeltaRecords.

Context (E : Externals).

Lemma deltaRecordsKept_PreOrder : PreOrder deltaRecordsKept.
Proof.
  split; [by intros s e h d|].
  intros s1 s2 s3 H12 H23 e h d Hd. by apply H23, H12.
Qed.

Lemma deltaRecordsKept_same st st' :
  m_microBlockStateDeltas st' = m_microBlockStateDeltas st →
  deltaRecordsKept st st'.
Proof. intros Heq e h d. by rewrite Heq. Qed.

Lemma map_emplace_kept k v (m : gmap N (list byte)) h d :
  m !! h = Some d → map_emplace k v m !! h = Some d.
Proof.
  unfold map_emplace. intros Hd.
  destruct (m !! k) eqn:Hk; [done|].
  destruct (decide (k = h)) as [->|Hne]; [congruence|].
  by rewrite lookup_insert_ne.
Qed.

Lemma ProcessStateDelta_records st delta h bh :
  deltaRecordsKept st (ProcessStateDelta E st delta h bh).1.
Proof.
  unfold ProcessStateDelta.
  repeat case_match; simpl; try by apply deltaRecordsKept_same.
  intros e h' d Hd. simpl. rewrite at_key_insert.
  case_decide; [|done]. subst e. by apply map_emplace_kept.
Qed.

Lemma stateDeltaStep_records st ep mb delta :
  deltaRecordsKept st (stateDeltaStep E st ep mb delta).1.
Proof.
  unfold stateDeltaStep. case_match; [apply ProcessStateDelta_records|].
  by apply deltaRecordsKept_same.
Qed.

Lemma CoreCommit_records st mb delta :
  deltaRecordsKept st (CoreCommit E st mb delta).1.
Proof.
  unfold CoreCommit.
  destruct (m_stopRecvNewMBSubmission st); [by apply deltaRecordsKept_same|].
  destruct (coinbaseStep E st mb) as [st1 saved] eqn:H1.
  apply coinbaseStep_inv in H1 as ->.
  destruct saved; simpl; [|by apply deltaRecordsKept_same].
  match goal with |- context [persistStep E ?s mb] =>
    destruct (persistStep E s mb) as [st2 put] eqn:H2 end.
  apply persistStep_inv in H2 as ->.
  destruct put; simpl; [|by apply deltaRecordsKept_same].
  match goal with |- context [stateDeltaStep E ?s ?c mb delta] =>
    pose proof (stateDeltaStep_records s c mb delta) as H3;
    destruct (stateDeltaStep E s c mb delta) as [st3 applied] end.
  simpl in H3.
  assert (H03 : deltaRecordsKept st st3) by exact H3.
  destruct applied; simpl; [|done].
  lazymatch goal with
  | |- deltaRecordsKept _ (if ?c then _ else _) => destruct c
  | |- deltaRecordsKept _ (if ?c then _ else _).1 => destruct c
  end; exact H03.
Qed.

Lemma Core_records st mb delta :
  deltaRecordsKept st
    (ProcessMicroblockSubmissionFromShardCore E st mb delta).1.
Proof.
  unfold ProcessMicroblockSubmissionFromShardCore.
  destruct (LOOKUP_NODE_MODE E); [by apply deltaRecordsKept_same|].
  simpl. case_match; [by apply deltaRecordsKept_same|].
  destruct (CoreChecks E _ mb) as [[]|];
    [|by apply deltaRecordsKept_same..].
  match goal with |- context [CoreCommit E ?s mb delta] =>
    exact (CoreCommit_records s mb delta) end.
Qed.

Lemma missingItemCommit_records st e mb delta :
  deltaRecordsKept st (missingItemCommit E st e mb delta).1.
Proof.
  unfold missingItemCommit.
  set (st0 := set_missingMicroBlocks st
                (touch [] e (m_missingMicroBlocks st))).
  simpl.
  destruct (existsb _ (missingAt st0 e)); simpl;
    [|by apply deltaRecordsKept_same].
  destruct (existsb _ (microBlocksAt st0 e)); simpl;
    [by apply deltaRecordsKept_same|].
  match goal with |- context [coinbaseStep E ?s mb] =>
    destruct (coinbaseStep E s mb) as [st1 saved] eqn:H1 end.
  apply coinbaseStep_inv in H1 as ->.
  destruct saved; simpl; [|by apply deltaRecordsKept_same].
  match goal with |- context [stateDeltaStep E ?s e mb delta] =>
    pose proof (stateDeltaStep_records s e mb delta) as H2;
    destruct (stateDeltaStep E s e mb delta) as [st2 applied] end.
  simpl in H2.
  assert (H02 : deltaRecordsKept st st2) by exact H2.
  destruct applied; simpl; [|done].
  match goal with |- context [persistStep E ?s mb] =>
    destruct (persistStep E s mb) as [st3 put] eqn:H3 end.
  apply persistStep_inv in H3 as ->.
  destruct put; simpl; exact H02.
Qed.

Lemma missingItem_records st e mb delta :
  deltaRecordsKept st (missingItem E st e mb delta).1.
Proof.
  unfold missingItem.
  repeat case_match; simpl;
    first [by apply deltaRecordsKept_same
          |apply missingItemCommit_records].
Qed.

Lemma missingLoop_records items : ∀ st e,
  deltaRecordsKept st (missingLoop E st e items).1.
Proof.
  induction items as [|[mb delta] rest IH]; intros st e; simpl.
  - by apply deltaRecordsKept_same.
  - pose proof (missingItem_records st e mb delta) as Hitem.
    destruct (missingItem E st e mb delta) as [st1 []]; simpl in *;
      [|done..].
    intros e' h d Hd. by apply IH, Hitem.
Qed.

Lemma ProcessMissing_records st e mbs deltas :
  deltaRecordsKept st
    (ProcessMissingMicroblockSubmission E st e mbs deltas).1.
Proof.
  unfold ProcessMissingMicroblockSubmission.
  destruct (vsize mbs =? vsize deltas); simpl;
    [|by apply deltaRecordsKept_same].
  match goal with |- context [missingLoop E ?s e ?items] =>
    pose proof (missingLoop_records items s e) as Hloop;
    destruct (missingLoop E s e items) as [st1 c] end.
  simpl in Hloop.
  assert (H01 : deltaRecordsKept st st1) by exact Hloop.
  destruct c; simpl; [|done..].
  by destruct (CheckMicroBlocks E st1).
Qed.

(** X11. A state delta on record stays on record, unchanged: no function of the
    file removes an entry of [m_microBlockStateDeltas], and the [emplace] in
    [ProcessStateDelta] does not replace the delta of a block hash that has
    one (a later microblock with the same block hash cannot swap it). *)
Theorem state_delta_records_are_final (X : EntryExternals) st :
  (∀ delta h bh,
     deltaRecordsKept st (ProcessStateDelta E st delta h bh).1) ∧
  (∀ mb delta,
     deltaRecordsKept st
       (ProcessMicroblockSubmissionFromShardCore E st mb delta).1) ∧
  (∀ epoch mbs deltas,
     deltaRecordsKept st
       (ProcessMicroblockSubmissionFromShard E st epoch mbs deltas).1) ∧
  deltaRecordsKept st (CommitMBSubmissionMsgBuffer E st).1 ∧
  (∀ epoch mbs deltas,
     deltaRecordsKept st
       (ProcessMissingMicroblockSubmission E st epoch mbs deltas).1) ∧
  (∀ message offset,
     deltaRecordsKept st
       (ProcessMicroblockSubmission E X st message offset).1).
Proof.
  destruct (shard_path_closure E deltaRecordsKept deltaRecordsKept_PreOrder)
    as [Hdispatch Hdrain].
  { intros s b. by apply deltaRecordsKept_same. }
  { apply Core_records. }
  split_and!.
  - apply ProcessStateDelta_records.
  - apply Core_records.
  - apply Hdispatch.
  - apply Hdrain.
  - apply ProcessMissing_records.
  - intros message offset. unfold ProcessMicroblockSubmission.
    repeat case_match; simpl;
      first [by apply deltaRecordsKept_same
            |apply Hdispatch|apply ProcessMissing_records].
Qed.

End DeltaRecords.

Section StatusFile.

Lemma isDigit_range c :
  isDigit c = true ↔ 48 ≤ Byte.to_N c ∧ Byte.to_N c ≤ 57.
Proof.
  unfold isDigit. rewrite andb_true_iff, !N.leb_le. done.
Qed.

Lemma digitByte_spec d :
  d < 10 →
  isDigit (digitByte d) = true ∧ Byte.to_N (digitByte d) - 48 = d.
Proof.
  intros Hd. unfold digitByte.
  pose proof (Byte.to_of_N_option_map (48 + d)) as Hb.
  destruct (N.leb_spec (48 + d) 255); [|lia].
  destruct (Byte.of_N (48 + d)) as [b|]; simpl in Hb; [|done].
  simplify_eq. simpl. rewrite isDigit_range. lia.
Qed.

Lemma decimalAcc_digits fuel : ∀ n acc,
  ∃ ds, decimalAcc fuel n acc = ds ++ acc ∧
        Forall (λ c, isDigit c = true) ds ∧
        (fuel ≠ 0%nat → ds ≠ []).
Proof.
  induction fuel as [|fuel IH]; intros n acc; simpl.
  - by exists [].
  - assert (Hd : isDigit (digitByte (n mod 10)) = true).
    { apply digitByte_spec. by apply N.mod_lt. }
    destruct (n <? 10).
    + exists [digitByte (n mod 10)]. split_and!; [done| |done].
      by constructor.
    + destruct (IH (n / 10) (digitByte (n mod 10) :: acc))
        as (ds & -> & Hds & _).
      exists (ds ++ [digitByte (n mod 10)]). split_and!.
      * by rewrite <- app_assoc.
      * apply Forall_app. split; [done|]. by constructor.
      * intros _. by destruct ds.
Qed.

Lemma atoiAcc_decimalAcc fuel : ∀ n acc rest,
  n < 10 ^ N.of_nat fuel →
  atoiAcc 0 (decimalAcc fuel n acc ++ rest) = atoiAcc n (acc ++ rest).
Proof.
  induction fuel as [|fuel IH]; intros n acc rest Hn.
  - simpl in *. by replace n with 0 by lia.
  - simpl decimalAcc.
    destruct (digitByte_spec (n mod 10)) as [Hd Hv];
      [by apply N.mod_lt|].
    destruct (N.ltb_spec n 10) as [Hlt|Hge].
    + simpl. rewrite Hd, Hv. f_equal.
      rewrite N.mod_small by done. lia.
    + rewrite IH.
      * simpl. rewrite Hd, Hv. f_equal.
        pose proof (N.div_mod n 10). lia.
      * rewrite Nat2N.inj_succ, N.pow_succ_r' in Hn.
        apply N.Div0.div_lt_upper_bound; lia.
Qed.

Lemma decimal_fuel n : n < 10 ^ N.of_nat (S (N.to_nat (N.log2 n))).
Proof.
  rewrite Nat2N.inj_succ, N2Nat.id.
  destruct (decide (n = 0)) as [->|Hn]; [done|].
  eapply N.lt_le_trans; [apply N.log2_spec; lia|].
  apply N.pow_le_mono_l. lia.
Qed.

Lemma atoiAcc_decimal n rest :
  atoiAcc 0 (decimal n ++ rest) = atoiAcc n rest.
Proof. unfold decimal. by rewrite atoiAcc_decimalAcc by apply decimal_fuel. Qed.

Lemma decimal_digits n :
  Forall (λ c, isDigit c = true) (decimal n) ∧ decimal n ≠ [].
Proof.
  unfold decimal.
  destruct (decimalAcc_digits (S (N.to_nat (N.log2 n))) n [])
    as (ds & -> & Hds & Hne).
  rewrite app_nil_r. split; [done|]. by apply Hne.
Qed.

Lemma strlen_full l :
  Forall (λ c, c ≠ x00) l → strlen l = length l.
Proof.
  induction 1 as [|c l Hc _ IH]; simpl; [done|].
  destruct (Byte.eqb c x00) eqn:Heq; [|by rewrite IH].
  by apply Byte.byte_dec_bl in Heq.
Qed.

Lemma isDigit_not_nul c : isDigit c = true → c ≠ x00.
Proof. by intros H ->. Qed.

Lemma firstDigit_app pre c rest :
  Forall (λ c, isDigit c = false) pre → isDigit c = true →
  firstDigit (pre ++ c :: rest) = Some (length pre).
Proof.
  intros Hpre Hc. induction Hpre as [|d pre Hd _ IH]; simpl.
  - by rewrite Hc.
  - by rewrite Hd, IH.
Qed.


(** X12. [parseLine] reads the number of a well-formed line: in front of the
    number no digit, the number in decimal, behind it either exactly three
    bytes (which the function cuts off, whatever they are) or more than three
    of which the first is not a digit.  The result is the number when it fits
    an [int]; a larger number is outside what [atoi] defines. *)
Theorem parseLine_reads_decimal pre n suf :
  Forall (λ c, isDigit c = false ∧ c ≠ x00) pre →
  Forall (λ c, c ≠ x00) suf →
  length suf = 3%nat ∨
    ((3 < length suf)%nat ∧ ∃ c, head suf = Some c ∧ isDigit c = false) →
  N.of_nat (length (pre ++ decimal n ++ suf)) < 2 ^ 31 →
  parseLine (pre ++ decimal n ++ suf)
    = if n <=? INT_MAX then Some (Z.of_N n) else None.
Proof.
  intros Hpre Hsuf Hend Hlen.
  destruct (decimal_digits n) as [Hds Hne].
  unfold parseLine.
  rewrite strlen_full.
  2:{ rewrite !Forall_app. split_and!; [|by eapply Forall_impl,
        isDigit_not_nul|done].
      eapply Forall_impl; [exact Hpre|]. by intros ? [_ ?]. }
  destruct (N.leb_spec (2 ^ 31) (N.of_nat (length (pre ++ decimal n ++ suf))));
    [lia|].
  destruct (decimal n) as [|d ds] eqn:Hdec; [done|].
  rewrite <- app_comm_cons, firstDigit_app; first last.
  { by apply Forall_cons in Hds as [? _]. }
  { eapply Forall_impl; [exact Hpre|]. by intros ? [? _]. }
  rewrite app_comm_cons, <- Hdec.
  assert (Hi : (length (pre ++ decimal n ++ suf) - 3
                = length pre + (length (decimal n) + (length suf - 3)))%nat).
  { rewrite !length_app. destruct Hend; lia. }
  destruct (Nat.ltb_spec (length (pre ++ decimal n ++ suf)) 3) as [Hshort|_].
  { rewrite !length_app in Hshort. destruct Hend; lia. }
  cbv zeta. rewrite Hi.
  rewrite insert_app_r, drop_app_length, insert_app_r.
  rewrite atoiAcc_decimal.
  replace (atoiAcc n (<[(length suf - 3)%nat:=x00]> suf)) with n; [done|].
  destruct Hend as [H3|(Hlong & c & Hhead & Hc)].
  - rewrite H3. by destruct suf as [|? ?].
  - destruct suf as [|c' suf']; simplify_eq/=.
    destruct (length suf' - 2)%nat eqn:Hk; [lia|]. simpl. by rewrite Hc.
Qed.


Lemma shortLine_spec body :
  shortLine body = true →
  Forall (λ c, c ≠ x0a) body ∧ (length body < 127)%nat.
Proof.
  unfold shortLine. rewrite andb_true_iff, Nat.ltb_lt.
  intros [Hall Hlen]. split; [|done]. clear Hlen.
  induction body as [|c body IH]; [done|].
  simpl in Hall. apply andb_true_iff in Hall as [Hc Hall].
  constructor; [by intros ->|by apply IH].
Qed.

Lemma fgetsChunks_line body : ∀ room cur rest,
  Forall (λ c, c ≠ x0a) body → (length body < room)%nat →
  fgetsChunks room cur (body ++ x0a :: rest)
    = (rev cur ++ body ++ [x0a]) :: fgetsChunks 127 [] rest.
Proof.
  induction body as [|c body IH]; intros room cur rest Hbody Hroom.
  - done.
  - apply Forall_cons in Hbody as [Hc Hbody]. simpl in *.
    destruct (Byte.eqb c x0a) eqn:Heq;
      [by apply Byte.byte_dec_bl in Heq|].
    destruct room as [|[|room]]; [lia..|].
    rewrite IH by (done || lia). simpl. by rewrite <- app_assoc.
Qed.

Lemma fgetsChunks_tail body : ∀ room cur,
  Forall (λ c, c ≠ x0a) body → (length body < room)%nat →
  fgetsChunks room cur body
    = match rev cur ++ body with [] => [] | l => [l] end.
Proof.
  induction body as [|c body IH]; intros room cur Hbody Hroom.
  - simpl. rewrite app_nil_r. destruct cur as [|a cur]; [done|].
    simpl. by destruct (rev cur).
  - apply Forall_cons in Hbody as [Hc Hbody]. simpl in *.
    destruct (Byte.eqb c x0a) eqn:Heq;
      [by apply Byte.byte_dec_bl in Heq|].
    destruct room as [|[|room]]; [lia..|].
    rewrite IH by (done || lia). simpl. by rewrite <- app_assoc.
Qed.

Lemma fgetsChunks_full front : ∀ room cur c rest,
  Forall (λ c, c ≠ x0a) front → S (length front) = room →
  fgetsChunks room cur (front ++ c :: rest)
    = (rev cur ++ front ++ [c]) :: fgetsChunks 127 [] rest.
Proof.
  induction front as [|d front IH]; intros room cur c rest Hfront Hroom.
  - simpl in *. subst room. by destruct (Byte.eqb c x0a).
  - apply Forall_cons in Hfront as [Hd Hfront]. simpl in *.
    destruct (Byte.eqb d x0a) eqn:Heq;
      [by apply Byte.byte_dec_bl in Heq|].
    destruct room as [|[|room]]; [lia..|].
    rewrite IH by (done || lia). simpl. by rewrite <- app_assoc.
Qed.

Lemma startsWith_stale label chunk tail :
  Forall (λ c, c ≠ x00) label →
  startsWith label (chunk ++ x00 :: tail) = startsWith label chunk.
Proof.
  intros Hlabel. revert chunk.
  induction Hlabel as [|c label Hc _ IH]; intros chunk; [done|].
  destruct chunk as [|d chunk]; simpl.
  - destruct (Byte.eqb c x00) eqn:Heq; [|done].
    by apply Byte.byte_dec_bl in Heq.
  - by rewrite IH.
Qed.

Lemma labels_without_nul :
  Forall (λ c, c ≠ x00) labelVmRSS ∧ Forall (λ c, c ≠ x00) labelVmSize.
Proof. split; repeat (constructor; [discriminate|]); constructor. Qed.

Lemma strlen_stale chunk tail :
  strlen (chunk ++ x00 :: tail) = strlen chunk.
Proof.
  induction chunk as [|c chunk IH]; simpl; [done|].
  destruct (Byte.eqb c x00); [done|]. by rewrite IH.
Qed.

Lemma strlen_le l : (strlen l ≤ length l)%nat.
Proof.
  induction l as [|c l IH]; simpl; [done|].
  destruct (Byte.eqb c x00); lia.
Qed.

Lemma firstDigit_stale chunk tail p :
  firstDigit chunk = Some p →
  firstDigit (chunk ++ tail) = Some p ∧ (p < length chunk)%nat.
Proof.
  revert p. induction chunk as [|c chunk IH]; intros p; simpl; [done|].
  destruct (isDigit c); [intros [= <-]; split; [done|lia]|].
  destruct (firstDigit chunk) as [q|]; simpl; [|done].
  intros [= <-]. destruct (IH q eq_refl) as [-> ?]. split; [done|lia].
Qed.

Lemma atoiAcc_stale s tail : ∀ acc,
  atoiAcc acc (s ++ x00 :: tail) = atoiAcc acc s.
Proof.
  induction s as [|c s IH]; intros acc; simpl; [done|].
  destruct (isDigit c); [apply IH|done].
Qed.

(** With a digit in the string, what lies behind the terminator plays no
    part. *)
Lemma parseLine_stale chunk tail :
  is_Some (firstDigit chunk) →
  parseLine (chunk ++ x00 :: tail) = parseLine chunk.
Proof.
  intros [p Hp]. unfold parseLine. rewrite strlen_stale.
  destruct (firstDigit_stale chunk (x00 :: tail) p Hp) as [-> Hlt].
  rewrite Hp.
  destruct (2 ^ 31 <=? N.of_nat (strlen chunk)); [done|].
  destruct (Nat.ltb_spec (strlen chunk) 3) as [|Hlong]; [done|].
  cbv zeta. pose proof (strlen_le chunk).
  rewrite insert_app_l by lia.
  rewrite drop_app_le by (rewrite length_insert; lia).
  by rewrite atoiAcc_stale.
Qed.

Lemma firstDigit_none_terminated l :
  firstDigit l = None → firstDigit (l ++ [x00]) = None.
Proof.
  induction l as [|c l IH]; simpl; [done|].
  destruct (isDigit c); [done|].
  destruct (firstDigit l); [done|]. intros _. by rewrite IH.
Qed.

Lemma parseLine_terminated l : parseLine (l ++ [x00]) = parseLine l.
Proof.
  destruct (firstDigit l) as [p|] eqn:Hp.
  - apply parseLine_stale. by eexists.
  - unfold parseLine.
    rewrite strlen_stale, Hp, firstDigit_none_terminated by done. done.
Qed.

Lemma firstDigit_exists l r :
  existsb isDigit l = true → is_Some (firstDigit (l ++ r)).
Proof.
  induction l as [|c l IH]; simpl; [done|].
  destruct (isDigit c); [by eexists|]. simpl. intros [p Hp]%IH.
  rewrite Hp. by eexists.
Qed.

Lemma bufferAfter_snoc bodies body :
  bufferAfter (bodies ++ [body])
    = fgetsInto (bufferAfter bodies) (body ++ [x0a]).
Proof. unfold bufferAfter. by rewrite fmap_app, foldl_app. Qed.

Lemma scanStatus_lines label before : ∀ line rest,
  forallb shortLine before = true →
  Forall (λ c, c ≠ x00) label →
  forallb (λ body, negb (startsWith label (body ++ [x0a]))) before = true →
  scanStatus label line (fgetsChunks 127 [] (linesOf before ++ rest))
    = scanStatus label
        (foldl fgetsInto line ((λ body, body ++ [x0a]) <$> before))
        (fgetsChunks 127 [] rest).
Proof.
  induction before as [|body before IH]; intros line rest; [done|].
  simpl. rewrite !andb_true_iff. intros [Hshort Hall] Hnul [Hlabel Hnone].
  apply shortLine_spec in Hshort as [Hbody Hlen].
  unfold linesOf. simpl. fold (linesOf before).
  rewrite <- !app_assoc. simpl.
  rewrite fgetsChunks_line by done. simpl.
  unfold fgetsInto at 1. rewrite startsWith_stale by done.
  apply negb_true_iff in Hlabel. rewrite Hlabel. by apply IH.
Qed.

(** X13. The readers of the status file on a file of lines that fit the
    buffer.  Without a line that starts with the label the result is -1,
    also when the file is empty.  Otherwise the first line that starts with
    the label decides, and nothing behind it is looked at; lines in front of
    it that carry the label anywhere but at their start do not count.  The
    result is what [parseLine] makes of the buffer at that moment: the
    labelled line, and behind its terminator what longer lines read before
    have left.  With a digit in the labelled line that is the number parsed
    from the line alone; without one, the scan for a digit goes on into the
    bytes left over. *)
Theorem status_readers_take_first_labelled_line before body rest tail :
  forallb shortLine before = true →
  shortLine body = true →
  shortLine tail = true →
  let line := bufferAfter (before ++ [body]) in
  (forallb (λ b, negb (startsWith labelVmRSS (b ++ [x0a]))) before = true →
   (startsWith labelVmRSS tail = false →
    GetProcessPhysicalMemoryStats (linesOf before ++ tail) = Some (-1)%Z) ∧
   (startsWith labelVmRSS (body ++ [x0a]) = true →
    GetProcessPhysicalMemoryStats (linesOf before ++ body ++ x0a :: rest)
      = parseLine line ∧
    (existsb isDigit body = true →
     parseLine line = parseLine (body ++ [x0a])))) ∧
  (forallb (λ b, negb (startsWith labelVmSize (b ++ [x0a]))) before = true →
   (startsWith labelVmSize tail = false →
    GetProcessVirtualMemoryStats (linesOf before ++ tail) = Some (-1)%Z) ∧
   (startsWith labelVmSize (body ++ [x0a]) = true →
    GetProcessVirtualMemoryStats (linesOf before ++ body ++ x0a :: rest)
      = parseLine line ∧
    (existsb isDigit body = true →
     parseLine line = parseLine (body ++ [x0a])))).
Proof.
  intros Hbefore Hbody Htail line.
  apply shortLine_spec in Hbody as [Hbody Hlen].
  apply shortLine_spec in Htail as [Htail Hlen'].
  assert (Hgen : ∀ label,
    Forall (λ c, c ≠ x00) label →
    forallb (λ b, negb (startsWith label (b ++ [x0a]))) before = true →
    (startsWith label tail = false →
     scanStatus label [] (fgetsChunks 127 [] (linesOf before ++ tail))
       = Some (-1)%Z) ∧
    (startsWith label (body ++ [x0a]) = true →
     scanStatus label []
       (fgetsChunks 127 [] (linesOf before ++ body ++ x0a :: rest))
       = parseLine line ∧
     (existsb isDigit body = true →
      parseLine line = parseLine (body ++ [x0a])))).
  { intros label Hnul Hnone. split; intros Hlabel.
    - rewrite scanStatus_lines, fgetsChunks_tail by done.
      simpl. destruct tail as [|t tail]; [done|]. simpl.
      unfold fgetsInto. rewrite (startsWith_stale label (t :: tail)) by done.
      by rewrite Hlabel.
    - subst line. rewrite bufferAfter_snoc. fold (bufferAfter before).
      split.
      + rewrite scanStatus_lines, fgetsChunks_line by done. simpl.
        unfold fgetsInto at 1 3. rewrite startsWith_stale by done.
        by rewrite Hlabel.
      + intros Hdigit. unfold fgetsInto. apply parseLine_stale.
        by apply firstDigit_exists. }
  destruct labels_without_nul as [Hrss Hsize].
  split; by apply Hgen.
Qed.

(** X14. A line is what [fgets] delivers, not what the file calls a line:
    when the first 126 bytes hold no newline, the first 127 bytes are handled
    as a line of their own.  If they start with the label they are parsed.
    If not, the search goes on in the middle of the line of the file: a
    label found there, at the start of what is left of the line, makes the
    reader parse the buffer, which holds that rest and behind its terminator
    the bytes of the first 127 that it did not overwrite.  With a digit in
    the rest the result is the number parsed from the rest alone. *)
Theorem overlong_line_is_split front c body rest :
  length front = 126%nat →
  Forall (λ c, c ≠ x0a) front →
  shortLine body = true →
  let first := front ++ [c] in
  let line := fgetsInto (first ++ [x00]) (body ++ [x0a]) in
  ((startsWith labelVmRSS first = true →
    GetProcessPhysicalMemoryStats (first ++ rest) = parseLine first) ∧
   (startsWith labelVmRSS first = false →
    startsWith labelVmRSS (body ++ [x0a]) = true →
    GetProcessPhysicalMemoryStats (first ++ body ++ x0a :: rest)
      = parseLine line ∧
    (existsb isDigit body = true →
     parseLine line = parseLine (body ++ [x0a])))) ∧
  ((startsWith labelVmSize first = true →
    GetProcessVirtualMemoryStats (first ++ rest) = parseLine first) ∧
   (startsWith labelVmSize first = false →
    startsWith labelVmSize (body ++ [x0a]) = true →
    GetProcessVirtualMemoryStats (first ++ body ++ x0a :: rest)
      = parseLine line ∧
    (existsb isDigit body = true →
     parseLine line = parseLine (body ++ [x0a])))).
Proof.
  intros Hlen Hfront Hbody first line.
  apply shortLine_spec in Hbody as [Hbody Hblen].
  assert (Hgen : ∀ label,
    Forall (λ c, c ≠ x00) label →
    (startsWith label first = true →
     scanStatus label [] (fgetsChunks 127 [] (first ++ rest))
       = parseLine first) ∧
    (startsWith label first = false →
     startsWith label (body ++ [x0a]) = true →
     scanStatus label []
       (fgetsChunks 127 [] (first ++ body ++ x0a :: rest))
       = parseLine line ∧
     (existsb isDigit body = true →
      parseLine line = parseLine (body ++ [x0a])))).
  { intros label Hnul. subst first.
    assert (Hfirst_buf : fgetsInto [] (front ++ [c]) = (front ++ [c]) ++ [x00])
      by done.
    split.
    - intros Hlabel. rewrite <- app_assoc. simpl.
      rewrite fgetsChunks_full by (done || lia). simpl.
      rewrite Hfirst_buf, startsWith_stale by done.
      rewrite Hlabel. apply parseLine_terminated.
    - intros Hfirst Hlabel. split.
      + rewrite <- app_assoc. simpl.
        rewrite fgetsChunks_full by (done || lia). simpl.
        rewrite Hfirst_buf, startsWith_stale by done.
        rewrite Hfirst.
        rewrite fgetsChunks_line by done. simpl.
        fold line. unfold line at 1. unfold fgetsInto at 1.
        rewrite startsWith_stale by done. by rewrite Hlabel.
      + intros Hdigit. unfold line, fgetsInto. apply parseLine_stale.
        by apply firstDigit_exists. }
  destruct labels_without_nul as [Hrss Hsize].
  split; by apply Hgen.
Qed.

Lemma toLongLong_small n : n < 2 ^ 63 → toLongLong n = Z.of_N n.
Proof.
  intros Hn. unfold toLongLong, wrap64.
  rewrite N.mod_small by lia.
  destruct (Z.ltb_spec (Z.of_N n) (2 ^ 63)); [done|lia].
Qed.

Lemma addUnsigned_small a u :
  a + u < 2 ^ 63 → addUnsigned (Z.of_N a) u = Z.of_N (a + u).
Proof.
  intros Hn. unfold addUnsigned.
  rewrite <- N2Z.inj_add, Z.mod_small by lia.
  rewrite N2Z.id. by apply toLongLong_small.
Qed.

Lemma mulUnit_small a unit :
  a * unit < 2 ^ 63 → mulUnit (Z.of_N a) unit = Some (Z.of_N (a * unit)).
Proof.
  intros Hn. unfold mulUnit. rewrite <- N2Z.inj_mul.
  destruct (Z.leb_spec (- 2 ^ 63) (Z.of_N (a * unit))); [|lia].
  destruct (Z.ltb_spec (Z.of_N (a * unit)) (2 ^ 63)); [done|lia].
Qed.

Lemma wrap64_sub a b : a < 2 ^ 64 → b ≤ a → wrap64 (a + 2 ^ 64 - b) = a - b.
Proof.
  intros Ha Hb. unfold wrap64.
  replace (a + 2 ^ 64 - b) with (a - b + 1 * 2 ^ 64) by lia.
  rewrite N.Div0.mod_add. apply N.mod_small. lia.
Qed.

(** X15. The figures the two display functions log are the exact byte counts
    when the kernel's numbers are consistent (free not above total) and the
    total in bytes is below 2^63: total and used memory with swap for the
    virtual figures, without swap for the physical ones. *)
Theorem memory_figures_exact memInfo :
  totalram memInfo < 2 ^ 64 →
  totalswap memInfo < 2 ^ 64 →
  freeram memInfo ≤ totalram memInfo →
  freeswap memInfo ≤ totalswap memInfo →
  0 < mem_unit memInfo →
  (totalram memInfo + totalswap memInfo) * mem_unit memInfo < 2 ^ 63 →
  virtualMemoryFigures memInfo
    = (Some (Z.of_N ((totalram memInfo + totalswap memInfo)
                       * mem_unit memInfo)),
       Some (Z.of_N ((totalram memInfo - freeram memInfo
                        + (totalswap memInfo - freeswap memInfo))
                       * mem_unit memInfo))) ∧
  physicalMemoryFigures memInfo
    = (Some (Z.of_N (totalram memInfo * mem_unit memInfo)),
       Some (Z.of_N ((totalram memInfo - freeram memInfo)
                       * mem_unit memInfo))).
Proof.
  intros Hram Hswap Hfree Hfswap Hunit Htotal.
  assert (Hsum : totalram memInfo + totalswap memInfo < 2 ^ 63) by nia.
  unfold virtualMemoryFigures, physicalMemoryFigures.
  rewrite !wrap64_sub by done.
  rewrite !toLongLong_small by lia.
  rewrite !addUnsigned_small by lia.
  rewrite !mulUnit_small by nia. done.
Qed.

End StatusFile.

Section FurtherCases.

Import Scenario Samples.

Lemma st0_shardsReported : shardsReported st0.
Proof.
  intros e. rewrite st0_nothing_accepted. split; [apply NoDup_nil_2|].
  apply Forall_nil_2.
Defined.

(** After [mbShard0] and then [mbShard1] the property still holds, and
    the bucket of epoch 10 has as many entries as there are shards. *)
Lemma shard_path_bounded_by_shards_witness :
  shardsReported st0 ∧
  shardsReported stOne ∧
  shardsReported
    (ProcessMicroblockSubmissionFromShardCore E0 stOne mbShard1 []).1 ∧
  vsize (microBlocksAt
           (ProcessMicroblockSubmissionFromShardCore E0 stOne mbShard1 []).1
           10) = 2 ∧
  vsize (m_shards stOne) = 2.
Proof.
  assert (Hone : shardsReported stOne).
  { exact (proj1 (shard_path_bounded_by_shards E0 st0 st0_shardsReported)
             mbShard0 []). }
  split; [exact st0_shardsReported|]. split; [exact Hone|].
  split; [|split; by vm_compute].
  exact (proj1 (shard_path_bounded_by_shards E0 stOne Hone) mbShard1 []).
Defined.

(** With [mbShard0] in, [mbDelta] (also of shard 0) is turned away and the
    state stays [stOne]. *)
Lemma second_submission_of_shard_rejected_witness :
  LOOKUP_NODE_MODE E0 = false ∧
  ProcessMicroblockSubmissionFromShardCore E0 st0 mbShard0 []
    = (stOne, Returns true) ∧
  mbShard0 ∈ microBlocksAt stOne 10 ∧
  ProcessMicroblockSubmissionFromShardCore E0 stOne mbDelta twoBytes
    = (stOne, Returns false).
Proof.
  assert (Hres : ProcessMicroblockSubmissionFromShardCore E0 st0 mbShard0 []
                 = (stOne, Returns true)) by (by vm_compute).
  assert (Hfresh : GetBlockHash mbShard0 ∉
            (GetBlockHash <$> microBlocksAt st0 (m_currentEpochNum st0))).
  { rewrite st0_nothing_accepted. apply not_elem_of_nil. }
  destruct (second_submission_of_shard_rejected E0 st0 mbShard0 [] stOne
              eq_refl Hfresh Hres) as [Hin Hnext].
  split_and!; [done|exact Hres|exact Hin|].
  by apply Hnext.
Defined.

(** [mbDelta] with its two-byte delta: one coinbase record, one stored
    block, the delta applied and put on record under hash 501.  At
    [stRepaired] the hash 601 has the one-byte delta on record; the shard
    path accepts [mbSameHash] with the two-byte delta, applies it, and the
    record stays the one-byte delta. *)
Lemma shard_acceptance_effects_witness :
  LOOKUP_NODE_MODE E0 = false ∧
  (ProcessMicroblockSubmissionFromShardCore E0 st0 mbDelta twoBytes).2
    = Returns true ∧
  (ProcessMicroblockSubmissionFromShardCore E0 stRepaired mbSameHash
     twoBytes).2 = Returns true ∧
  let st' :=
    (ProcessMicroblockSubmissionFromShardCore E0 st0 mbDelta twoBytes).1 in
  let st'' :=
    (ProcessMicroblockSubmissionFromShardCore E0 stRepaired mbSameHash
       twoBytes).1 in
  coinbaseLedger st' = [coinbaseRecordOf st0 mbDelta] ∧
  blockStorage st' = [storedRecordOf E0 mbDelta] ∧
  accountStoreTemp st' = [twoBytes] ∧
  at_key ∅ 10 (m_microBlockStateDeltas st') !! 501 = Some twoBytes ∧
  accountStoreTemp st'' = [oneByte; twoBytes] ∧
  at_key ∅ 10 (m_microBlockStateDeltas st'') !! 601 = Some oneByte.
Proof.
  split; [done|]. split; [by vm_compute|]. split; [by vm_compute|].
  intros st' st''.
  assert (Hres : ProcessMicroblockSubmissionFromShardCore E0 st0 mbDelta
                   twoBytes = (st', Returns true)) by (by vm_compute).
  assert (Hres' : ProcessMicroblockSubmissionFromShardCore E0 stRepaired
                    mbSameHash twoBytes = (st'', Returns true))
    by (by vm_compute).
  destruct (shard_acceptance_effects E0 st0 mbDelta twoBytes st' eq_refl Hres)
    as (_ & _ & _ & _ & Hcoin & Hstore & Hdelta).
  split; [exact Hcoin|]. split; [exact Hstore|].
  simpl in Hdelta.
  destruct Hdelta as [(Hzero & _)|(_ & _ & _ & Hacct & Hrec)];
    [vm_compute in Hzero; discriminate|].
  split; [exact Hacct|]. split; [exact Hrec|].
  clear Hres Hcoin Hstore Hacct Hrec.
  destruct (shard_acceptance_effects E0 stRepaired mbSameHash twoBytes st''
              eq_refl Hres')
    as (_ & _ & _ & _ & _ & _ & Hdelta').
  assert (Hvac : GetIsVacuousEpoch E0 (m_currentEpochNum stRepaired) = false)
    by (by vm_compute).
  assert (Hcur : m_currentEpochNum stRepaired = 10) by (by vm_compute).
  rewrite Hvac in Hdelta'.
  destruct Hdelta' as [(Hzero & _)|(_ & _ & _ & Hacct' & Hrec')];
    [vm_compute in Hzero; discriminate|].
  rewrite Hcur in Hrec'.
  split; [etrans; [exact Hacct'|vm_compute; reflexivity]
         |etrans; [exact Hrec'|vm_compute; reflexivity]].
Defined.




(** The line of VmRSS as the kernel prints it. *)
Lemma parseLine_reads_decimal_witness :
  labelVmRSS ++ [x09; x20; x20] ++ decimal 1234
    ++ list_byte_of_string " kB" ++ [x0a]
    = list_byte_of_string "VmRSS:" ++ [x09]
      ++ list_byte_of_string "  1234 kB" ++ [x0a] ∧
  parseLine (list_byte_of_string "VmRSS:" ++ [x09]
             ++ list_byte_of_string "  1234 kB" ++ [x0a]) = Some 1234%Z.
Proof.
  split; [by vm_compute|].
  refine (eq_trans _
    (parseLine_reads_decimal (labelVmRSS ++ [x09; x20; x20]) 1234
       (list_byte_of_string " kB" ++ [x0a]) _ _ _ _)).
  - by vm_compute.
  - repeat (constructor; [split; [reflexivity|discriminate]|]). constructor.
  - repeat (constructor; [discriminate|]). constructor.
  - right. split; [simpl; lia|]. exists x20. by split.
  - by vm_compute.
Defined.

(** A status file of six lines: the resident size is read from the fifth
    line (the fourth carries the label behind a blank), the virtual size from
    the third.  A file without the label gives -1.  A labelled line without
    a number gives the number that the line in front of it has left in the
    buffer. *)
Lemma status_readers_take_first_labelled_line_witness :
  let status :=
    linesOf [lineName; lineVmPeak; lineVmSize; lineIndented; lineVmRSS;
             lineThreads] in
  GetProcessPhysicalMemoryStats status = Some 1234%Z ∧
  GetProcessVirtualMemoryStats status = Some 5678%Z ∧
  GetProcessPhysicalMemoryStats (linesOf [lineName; lineVmPeak])
    = Some (-1)%Z ∧
  GetProcessPhysicalMemoryStats (linesOf [lineNumbered; lineBareLabel])
    = Some 42%Z.
Proof.
  intros status.
  destruct (status_readers_take_first_labelled_line
              [lineName; lineVmPeak; lineVmSize; lineIndented] lineVmRSS
              (linesOf [lineThreads]) [] eq_refl eq_refl eq_refl)
    as [Hphys _].
  destruct (status_readers_take_first_labelled_line
              [lineName; lineVmPeak] lineVmSize
              (linesOf [lineIndented; lineVmRSS; lineThreads]) []
              eq_refl eq_refl eq_refl)
    as [Hnone Hvirt].
  destruct (status_readers_take_first_labelled_line
              [lineNumbered] lineBareLabel [] [] eq_refl eq_refl eq_refl)
    as [Hstale _].
  split_and!.
  - exact (eq_trans (proj1 (proj2 (Hphys eq_refl) eq_refl)) eq_refl).
  - exact (eq_trans (proj1 (proj2 (Hvirt eq_refl) eq_refl)) eq_refl).
  - exact (eq_trans (eq_sym (f_equal GetProcessPhysicalMemoryStats
                      (app_nil_r _)))
             (proj1 (Hnone eq_refl) eq_refl)).
  - exact (eq_trans (proj1 (proj2 (Hstale eq_refl) eq_refl)) eq_refl).
Defined.

(** 127 letters and, behind them on the same line of the file, a labelled
    text: the reader takes the text for a line and reads 77.  When the text
    is the bare label and the 127 bytes carry a number, the reader finds
    that number behind the terminator and returns it. *)
Lemma overlong_line_is_split_witness :
  length letters = 126%nat ∧
  Forall (λ c, c ≠ x0a) letters ∧
  GetProcessPhysicalMemoryStats ((letters ++ [x41]) ++ lineKb77 ++ [x0a])
    = Some 77%Z ∧
  GetProcessPhysicalMemoryStats
    ((lettersAndNumber ++ [x41]) ++ lineBareLabel ++ [x0a])
    = Some 42%Z.
Proof.
  assert (Hletters : Forall (λ c, c ≠ x0a) letters).
  { apply Forall_replicate. discriminate. }
  assert (Hnumber : Forall (λ c, c ≠ x0a) lettersAndNumber).
  { repeat apply Forall_app_2; try (apply Forall_replicate; discriminate).
    repeat (constructor; [discriminate|]). constructor. }
  split; [done|]. split; [exact Hletters|]. split.
  - exact (eq_trans
             (proj1 (proj2 (proj1 (overlong_line_is_split letters x41 lineKb77
                                     [] eq_refl Hletters eq_refl))
                       eq_refl eq_refl))
             eq_refl).
  - exact (eq_trans
             (proj1 (proj2 (proj1 (overlong_line_is_split lettersAndNumber x41
                                     lineBareLabel [] eq_refl Hnumber
                                     eq_refl))
                       eq_refl eq_refl))
             eq_refl).
Defined.

(** Sixteen GiB of memory, four of them free, and two GiB of unused
    swap. *)
Lemma memory_figures_exact_witness :
  virtualMemoryFigures memSample
    = (Some 19327352832%Z, Some 12884901888%Z) ∧
  physicalMemoryFigures memSample
    = (Some 17179869184%Z, Some 12884901888%Z).
Proof.
  assert (H := memory_figures_exact memSample).
  destruct H as [Hv Hp]; [by vm_compute..|].
  split; [exact (eq_trans Hv eq_refl)|exact (eq_trans Hp eq_refl)].
Defined.

End FurtherCases.
